(** * bed: the window of the binary editor

    A shallow embedding of [window/window.go]: the cursor, the viewport, the
    edit-mode flags, the jump stack and the command loop of one window, with
    the theorems that settle the properties stated about them.

    Go's [int64] and [int] (64 bits) are integers of [Z] with every
    arithmetic operation wrapped to 64 bits; division and remainder by zero
    panic, and so do the explicit [panic] calls: functions that can reach one
    return a [result].  A byte is an integer in [0, 256). *)

From Stdlib Require Import ZArith List Bool Lia Floats Uint63.
Import ListNotations.
Local Open Scope Z_scope.

(** ** Results of code that may panic *)

Inductive result (A : Type) : Type :=
| Ok (a : A)
| Panic.
Arguments Ok {A} a.
Arguments Panic {A}.

Definition bind {A B : Type} (r : result A) (k : A -> result B) : result B :=
  match r with
  | Ok a => k a
  | Panic => Panic
  end.

Notation "x <- r ;; k" := (bind r (fun x => k))
  (at level 61, r at next level, right associativity).

(** ** Go's 64-bit signed integers *)

Module Int64.

Definition min_int : Z := - 2 ^ 63.
Definition max_int : Z := 2 ^ 63 - 1.

Definition in_range (x : Z) : Prop := min_int <= x <= max_int.

(** The value a 64-bit two's complement register holds for [x]. *)
Definition wrap (x : Z) : Z := (x + 2 ^ 63) mod 2 ^ 64 - 2 ^ 63.

Definition add (x y : Z) : Z := wrap (x + y).
Definition sub (x y : Z) : Z := wrap (x - y).
Definition mul (x y : Z) : Z := wrap (x * y).
Definition neg (x : Z) : Z := wrap (- x).

(** [x / y] truncates toward zero and panics on a zero divisor. *)
Definition quo (x y : Z) : result Z :=
  if y =? 0 then Panic else Ok (wrap (Z.quot x y)).

(** [x % y] has the sign of [x] and panics on a zero divisor. *)
Definition rem (x y : Z) : result Z :=
  if y =? 0 then Panic else Ok (Z.rem x y).

End Int64.

Declare Scope i64_scope.
Delimit Scope i64_scope with i64.
(** An operand of a 64-bit operation is a 64-bit expression itself. *)
Arguments Int64.add (x y)%_i64_scope.
Arguments Int64.sub (x y)%_i64_scope.
Arguments Int64.mul (x y)%_i64_scope.
Arguments Int64.neg x%_i64_scope.
Arguments Int64.quo (x y)%_i64_scope.
Arguments Int64.rem (x y)%_i64_scope.

Notation "x + y" := (Int64.add x y) : i64_scope.
Notation "x - y" := (Int64.sub x y) : i64_scope.
Notation "x * y" := (Int64.mul x y) : i64_scope.
Notation "- x" := (Int64.neg x) : i64_scope.
Notation "x / y" := (Int64.quo x y) : i64_scope.
Notation "x 'mod' y" := (Int64.rem x y) : i64_scope.

(** [mathutil.MaxInt64], [mathutil.MinInt64] and [mathutil.MaxInt]: the
    package is not among the sources; the functions are taken by their
    names. *)
Definition MaxInt64 (x y : Z) : Z := Z.max x y.
Definition MinInt64 (x y : Z) : Z := Z.min x y.
Definition MaxInt (x y : Z) : Z := Z.max x y.
Arguments MaxInt64 (x y)%_i64_scope.
Arguments MinInt64 (x y)%_i64_scope.
Arguments MaxInt (x y)%_i64_scope.

(** ** Bytes *)

Definition byte_wrap (x : Z) : Z := x mod 256.

Definition is_byte (b : Z) : Prop := 0 <= b < 256.

(** Go's [bytes.HasPrefix]. *)
Fixpoint HasPrefix (s prefix : list Z) : bool :=
  match prefix, s with
  | [], _ => true
  | _ :: _, [] => false
  | p :: prefix', c :: s' => (c =? p) && HasPrefix s' prefix'
  end.

(** Go's [bytes.Index]: the index of the first instance of [sep] in [s], or
    -1; [Index_from] carries the index of the head of [s]. *)
Fixpoint Index_from (s sep : list Z) (i : Z) : Z :=
  if HasPrefix s sep then i
  else match s with
       | [] => -1
       | _ :: s' => Index_from s' sep (i + 1)
       end.

Definition Index (s sep : list Z) : Z := Index_from s sep 0.

(** Go's [bytes.LastIndex]: the index of the last instance of [sep] in [s],
    or -1. *)
Fixpoint LastIndex_from (s sep : list Z) (i : Z) : Z :=
  match s with
  | [] => if HasPrefix s sep then i else -1
  | _ :: s' =>
      let r := LastIndex_from s' sep (i + 1) in
      if 0 <=? r then r
      else if HasPrefix s sep then i else -1
  end.

Definition LastIndex (s sep : list Z) : Z := LastIndex_from s sep 0.

(** The property the two searches decide: [sep] occurs in [s] at index [i]. *)
Definition occurs_at (s sep : list Z) (i : nat) : Prop :=
  (i <= List.length s)%nat /\ HasPrefix (skipn i s) sep = true.

Definition has_match (s sep : list Z) : Prop :=
  exists i : nat, occurs_at s sep i.

(** Go's [strconv.ParseInt(s, 10, 64)] on a string of decimal digits: the
    value, or the largest [int64] when the value does not fit (the error is
    discarded by the caller). *)
Definition digits_value (s : list Z) : Z :=
  fold_left (fun acc d => acc * 10 + (d - 48)) s 0.

Definition ParseInt (s : list Z) : Z :=
  let v := digits_value s in
  if Int64.max_int <? v then Int64.max_int else v.

(** Go's [utf8.EncodeRune]: the bytes of the UTF-8 encoding of a rune (an
    [int32]); surrogates and values out of range encode U+FFFD. *)
Definition RuneError : Z := 65533.

Definition encode3 (r : Z) : list Z :=
  [Z.lor 224 (byte_wrap (Z.shiftr r 12));
   Z.lor 128 (Z.land (byte_wrap (Z.shiftr r 6)) 63);
   Z.lor 128 (Z.land (byte_wrap r) 63)].

Definition EncodeRune (r : Z) : list Z :=
  let i := r mod 2 ^ 32 in
  if i <=? 127 then [byte_wrap r]
  else if i <=? 2047 then
    [Z.lor 192 (byte_wrap (Z.shiftr r 6)); Z.lor 128 (Z.land (byte_wrap r) 63)]
  else if (1114111 <? i) || ((55296 <=? i) && (i <=? 57343)) then encode3 RuneError
  else if i <=? 65535 then encode3 r
  else
    [Z.lor 240 (byte_wrap (Z.shiftr r 18));
     Z.lor 128 (Z.land (byte_wrap (Z.shiftr r 12)) 63);
     Z.lor 128 (Z.land (byte_wrap (Z.shiftr r 6)) 63);
     Z.lor 128 (Z.land (byte_wrap r) 63)].

(** ** The content handle *)

Module Buffer.

(** Modelled from the spec: the package [buffer] is not among the sources.
    The content handle is "an opaque mutable byte sequence supporting random
    read, point mutation, and length query": here the sequence of its
    bytes.  [ReadAt] tolerates the end of the content as a partial read and
    leaves the rest of the destination as [make] filled it, with zeros; a
    negative offset is the failure other than end-of-content.  A write at
    the end of the content extends it (on empty content "the write
    establishes length 1"); a write past the end first fills the gap with
    zeros. *)
Definition t : Type := list Z.

Definition Len (b : t) : Z := Z.of_nat (List.length b).

Definition ReadAt (b : t) (len : nat) (offset : Z) : option (Z * list Z) :=
  if offset <? 0 then None
  else
    let got := firstn len (skipn (Z.to_nat offset) b) in
    Some (Z.of_nat (List.length got), got ++ repeat 0 (len - List.length got)).

Definition pad (b : t) (n : nat) : t := b ++ repeat 0 (n - List.length b).

Definition Insert (b : t) (offset : Z) (c : Z) : t :=
  if offset <? 0 then b
  else
    let n := Z.to_nat offset in
    let b := pad b n in
    firstn n b ++ c :: skipn n b.

Definition Replace (b : t) (offset : Z) (c : Z) : t :=
  if offset <? 0 then b
  else
    let n := Z.to_nat offset in
    let b := pad b n in
    firstn n b ++ c :: skipn (S n) b.

Definition Delete (b : t) (offset : Z) : t :=
  if offset <? 0 then b
  else
    let n := Z.to_nat offset in
    firstn n b ++ skipn (S n) b.

End Buffer.

(** ** The undo history *)

Module History.

(** A checkpoint: content handle, viewport offset, cursor. *)
Record entry : Type := mkEntry {
  e_buffer : Buffer.t;
  e_offset : Z;
  e_cursor : Z
}.

(** Modelled from the spec: the package [history] is not among the sources.
    The history is an "ordered log of (content-handle, viewport-offset,
    cursor) checkpoints with Undo/Redo cursors": [past] holds the current
    checkpoint and the ones before it, most recent first, [future] the ones
    undone, next first.  [Undo] and [Redo] return none "once History is
    exhausted in that direction".  [pushes] counts the calls of [Push], so
    that a theorem can say that a checkpoint was pushed. *)
Record t : Type := mkHistory {
  past : list entry;
  future : list entry;
  pushes : nat
}.

Definition NewHistory : t := mkHistory [] [] 0.

Definition Push (h : t) (b : Buffer.t) (offset cursor : Z) : t :=
  mkHistory (mkEntry b offset cursor :: past h) [] (S (pushes h)).

Definition Undo (h : t) : t * option entry :=
  match past h with
  | c :: p :: rest => (mkHistory (p :: rest) (c :: future h) (pushes h), Some p)
  | _ => (h, None)
  end.

Definition Redo (h : t) : t * option entry :=
  match future h with
  | c :: rest => (mkHistory (c :: past h) rest (pushes h), Some c)
  | [] => (h, None)
  end.

End History.

(** ** Events *)

(** [mode.Mode]. *)
Inductive Mode : Type :=
| Normal | Insert | Replace | Visual | Cmdline | Search.

Definition Mode_eqb (a b : Mode) : bool :=
  match a, b with
  | Normal, Normal | Insert, Insert | Replace, Replace
  | Visual, Visual | Cmdline, Cmdline | Search, Search => true
  | _, _ => false
  end.

(** [event.Position]: the five variants the window resolves; [NoPosition]
    stands for any other value of the interface type, which the resolution
    rejects in its default case. *)
Inductive Position : Type :=
| Absolute (Offset : Z)
| Relative (Offset : Z)
| End_ (Offset : Z)
| VisualStart (Offset : Z)
| VisualEnd (Offset : Z)
| NoPosition.

(** [event.Range]: either end may be nil. *)
Record Range : Type := mkRange {
  From : option Position;
  To : option Position
}.

(** [event.Type]: the types the command loop handles; [OtherEvent] stands
    for every other type, which the loop skips. *)
Inductive EventType : Type :=
| CursorUp | CursorDown | CursorLeft | CursorRight | CursorPrev | CursorNext
| CursorHead | CursorEnd | CursorGoto | ScrollUp | ScrollDown
| PageUp | PageDown | PageUpHalf | PageDownHalf | PageTop | PageEnd
| JumpTo | JumpBack
| DeleteByte | DeletePrevByte | Increment | Decrement
| StartInsert | StartInsertHead | StartAppend | StartAppendEnd
| StartReplaceByte | StartReplace | ExitInsert | Rune | Backspace | Delete
| StartVisual | SwitchVisualEnd | ExitVisual | SwitchFocus
| Undo | Redo | ExecuteSearch | NextSearch | PreviousSearch
| OtherEvent.

(** The test [event.CursorUp <= e.Type && e.Type <= event.JumpBack] of the
    command loop.  The order of the constants is declared in the package
    [event], which is not among the sources; among the types the loop
    handles, the interval is taken to hold the navigation commands, from
    [CursorUp] to [JumpBack] in the order of the loop's cases. *)
Definition isNavigation (t : EventType) : bool :=
  match t with
  | CursorUp | CursorDown | CursorLeft | CursorRight | CursorPrev | CursorNext
  | CursorHead | CursorEnd | CursorGoto | ScrollUp | ScrollDown
  | PageUp | PageDown | PageUpHalf | PageDownHalf | PageTop | PageEnd
  | JumpTo | JumpBack => true
  | _ => false
  end.

(** [event.Event]: [Arg] is the string as its bytes, [Rune] the code point. *)
Record Event : Type := mkEvent {
  Type_ : EventType;
  Range_ : option Range;
  Count : Z;
  Rune_ : Z;
  Arg : list Z;
  Mode_ : Mode
}.

(** ** The window *)

Module Window.

(** A saved jump position. *)
Record position : Type := mkPosition {
  p_cursor : Z;
  p_offset : Z
}.

(** The fields of [window] that the commands read and write.  [filename],
    [name], the two channels and the mutex carry no state of the commands
    and are left out; [changedTick] is a [uint64]. *)
Record window : Type := mkWindow {
  buffer : Buffer.t;
  changedTick : Z;
  prevChanged : bool;
  history : History.t;
  height : Z;
  width : Z;
  offset : Z;
  cursor : Z;
  length : Z;
  stack : list position;
  append : bool;
  replaceByte : bool;
  extending : bool;
  pending : bool;
  pendingByte : Z;
  visualStart : Z;
  focusText : bool
}.

Definition set_buffer (v : Buffer.t) (w : window) : window :=
  {| buffer := v; changedTick := changedTick w; prevChanged := prevChanged w;
     history := history w; height := height w; width := width w; offset :=
     offset w; cursor := cursor w; length := length w; stack := stack w; append
     := append w; replaceByte := replaceByte w; extending := extending w;
     pending := pending w; pendingByte := pendingByte w; visualStart :=
     visualStart w; focusText := focusText w |}.

Definition set_changedTick (v : Z) (w : window) : window :=
  {| buffer := buffer w; changedTick := v; prevChanged := prevChanged w;
     history := history w; height := height w; width := width w; offset :=
     offset w; cursor := cursor w; length := length w; stack := stack w; append
     := append w; replaceByte := replaceByte w; extending := extending w;
     pending := pending w; pendingByte := pendingByte w; visualStart :=
     visualStart w; focusText := focusText w |}.

Definition set_prevChanged (v : bool) (w : window) : window :=
  {| buffer := buffer w; changedTick := changedTick w; prevChanged := v;
     history := history w; height := height w; width := width w; offset :=
     offset w; cursor := cursor w; length := length w; stack := stack w; append
     := append w; replaceByte := replaceByte w; extending := extending w;
     pending := pending w; pendingByte := pendingByte w; visualStart :=
     visualStart w; focusText := focusText w |}.

Definition set_history (v : History.t) (w : window) : window :=
  {| buffer := buffer w; changedTick := changedTick w; prevChanged :=
     prevChanged w; history := v; height := height w; width := width w; offset
     := offset w; cursor := cursor w; length := length w; stack := stack w;
     append := append w; replaceByte := replaceByte w; extending := extending
     w; pending := pending w; pendingByte := pendingByte w; visualStart :=
     visualStart w; focusText := focusText w |}.

Definition set_height (v : Z) (w : window) : window :=
  {| buffer := buffer w; changedTick := changedTick w; prevChanged :=
     prevChanged w; history := history w; height := v; width := width w; offset
     := offset w; cursor := cursor w; length := length w; stack := stack w;
     append := append w; replaceByte := replaceByte w; extending := extending
     w; pending := pending w; pendingByte := pendingByte w; visualStart :=
     visualStart w; focusText := focusText w |}.

Definition set_width (v : Z) (w : window) : window :=
  {| buffer := buffer w; changedTick := changedTick w; prevChanged :=
     prevChanged w; history := history w; height := height w; width := v;
     offset := offset w; cursor := cursor w; length := length w; stack := stack
     w; append := append w; replaceByte := replaceByte w; extending :=
     extending w; pending := pending w; pendingByte := pendingByte w;
     visualStart := visualStart w; focusText := focusText w |}.

Definition set_offset (v : Z) (w : window) : window :=
  {| buffer := buffer w; changedTick := changedTick w; prevChanged :=
     prevChanged w; history := history w; height := height w; width := width w;
     offset := v; cursor := cursor w; length := length w; stack := stack w;
     append := append w; replaceByte := replaceByte w; extending := extending
     w; pending := pending w; pendingByte := pendingByte w; visualStart :=
     visualStart w; focusText := focusText w |}.

Definition set_cursor (v : Z) (w : window) : window :=
  {| buffer := buffer w; changedTick := changedTick w; prevChanged :=
     prevChanged w; history := history w; height := height w; width := width w;
     offset := offset w; cursor := v; length := length w; stack := stack w;
     append := append w; replaceByte := replaceByte w; extending := extending
     w; pending := pending w; pendingByte := pendingByte w; visualStart :=
     visualStart w; focusText := focusText w |}.

Definition set_length (v : Z) (w : window) : window :=
  {| buffer := buffer w; changedTick := changedTick w; prevChanged :=
     prevChanged w; history := history w; height := height w; width := width w;
     offset := offset w; cursor := cursor w; length := v; stack := stack w;
     append := append w; replaceByte := replaceByte w; extending := extending
     w; pending := pending w; pendingByte := pendingByte w; visualStart :=
     visualStart w; focusText := focusText w |}.

Definition set_stack (v : list position) (w : window) : window :=
  {| buffer := buffer w; changedTick := changedTick w; prevChanged :=
     prevChanged w; history := history w; height := height w; width := width w;
     offset := offset w; cursor := cursor w; length := length w; stack := v;
     append := append w; replaceByte := replaceByte w; extending := extending
     w; pending := pending w; pendingByte := pendingByte w; visualStart :=
     visualStart w; focusText := focusText w |}.

Definition set_append (v : bool) (w : window) : window :=
  {| buffer := buffer w; changedTick := changedTick w; prevChanged :=
     prevChanged w; history := history w; height := height w; width := width w;
     offset := offset w; cursor := cursor w; length := length w; stack := stack
     w; append := v; replaceByte := replaceByte w; extending := extending w;
     pending := pending w; pendingByte := pendingByte w; visualStart :=
     visualStart w; focusText := focusText w |}.

Definition set_replaceByte (v : bool) (w : window) : window :=
  {| buffer := buffer w; changedTick := changedTick w; prevChanged :=
     prevChanged w; history := history w; height := height w; width := width w;
     offset := offset w; cursor := cursor w; length := length w; stack := stack
     w; append := append w; replaceByte := v; extending := extending w; pending
     := pending w; pendingByte := pendingByte w; visualStart := visualStart w;
     focusText := focusText w |}.

Definition set_extending (v : bool) (w : window) : window :=
  {| buffer := buffer w; changedTick := changedTick w; prevChanged :=
     prevChanged w; history := history w; height := height w; width := width w;
     offset := offset w; cursor := cursor w; length := length w; stack := stack
     w; append := append w; replaceByte := replaceByte w; extending := v;
     pending := pending w; pendingByte := pendingByte w; visualStart :=
     visualStart w; focusText := focusText w |}.

Definition set_pending (v : bool) (w : window) : window :=
  {| buffer := buffer w; changedTick := changedTick w; prevChanged :=
     prevChanged w; history := history w; height := height w; width := width w;
     offset := offset w; cursor := cursor w; length := length w; stack := stack
     w; append := append w; replaceByte := replaceByte w; extending :=
     extending w; pending := v; pendingByte := pendingByte w; visualStart :=
     visualStart w; focusText := focusText w |}.

Definition set_pendingByte (v : Z) (w : window) : window :=
  {| buffer := buffer w; changedTick := changedTick w; prevChanged :=
     prevChanged w; history := history w; height := height w; width := width w;
     offset := offset w; cursor := cursor w; length := length w; stack := stack
     w; append := append w; replaceByte := replaceByte w; extending :=
     extending w; pending := pending w; pendingByte := v; visualStart :=
     visualStart w; focusText := focusText w |}.

Definition set_visualStart (v : Z) (w : window) : window :=
  {| buffer := buffer w; changedTick := changedTick w; prevChanged :=
     prevChanged w; history := history w; height := height w; width := width w;
     offset := offset w; cursor := cursor w; length := length w; stack := stack
     w; append := append w; replaceByte := replaceByte w; extending :=
     extending w; pending := pending w; pendingByte := pendingByte w;
     visualStart := v; focusText := focusText w |}.

Definition set_focusText (v : bool) (w : window) : window :=
  {| buffer := buffer w; changedTick := changedTick w; prevChanged :=
     prevChanged w; history := history w; height := height w; width := width w;
     offset := offset w; cursor := cursor w; length := length w; stack := stack
     w; append := append w; replaceByte := replaceByte w; extending :=
     extending w; pending := pending w; pendingByte := pendingByte w;
     visualStart := visualStart w; focusText := v |}.

(** [w.changedTick++] on a [uint64]. *)
Definition tick (w : window) : window :=
  set_changedTick ((changedTick w + 1) mod 2 ^ 64) w.

(** The statement
    [if w.cursor >= w.offset+w.height*w.width {
       w.offset = (w.cursor - w.height*w.width + w.width) / w.width * w.width }],
    which the source repeats in [setSize], [cursorDown], [cursorNext],
    [cursorEnd], [startAppend], [insertByte] and [switchVisualEnd]. *)
Definition scrollDownToCursor (w : window) : result window :=
  if (offset w + height w * width w)%i64 <=? cursor w then
    q <- ((cursor w - height w * width w + width w) / width w)%i64 ;;
    Ok (set_offset (q * width w)%i64 w)
  else Ok w.

(** The statement
    [if w.cursor < w.offset { w.offset = w.cursor / w.width * w.width }] of
    [cursorUp], [cursorPrev], [switchVisualEnd] and [searchBackward]. *)
Definition scrollUpToCursor (w : window) : result window :=
  if cursor w <? offset w then
    q <- (cursor w / width w)%i64 ;;
    Ok (set_offset (q * width w)%i64 w)
  else Ok w.

Definition setSize (width' height' : Z) (w : window) : result window :=
  let w := set_height height' (set_width width' w) in
  q <- (offset w / width w)%i64 ;;
  let w := set_offset (q * width w)%i64 w in
  w <- scrollDownToCursor w ;;
  q <- (MaxInt64 (length w - 1 - height w * width w + width w)%i64 0 / width w)%i64 ;;
  Ok (set_offset (MinInt64 (offset w) (q * width w)%i64) w).

(** [make([]byte, len)] panics on a negative length; an error of the read
    other than end-of-content is [None]. *)
Definition readBytes (w : window) (offset' len : Z) : result (option (Z * list Z)) :=
  if len <? 0 then Panic
  else Ok (Buffer.ReadAt (buffer w) (Z.to_nat len) offset').

Definition positionToOffset (w : window) (pos : Position) : option Z :=
  match pos with
  | Absolute off =>
      Some (MaxInt64 (MinInt64 off (MaxInt64 (length w) 1 - 1)%i64) 0)
  | Relative off =>
      Some (cursor w
            + MaxInt64 (MinInt64 off (MaxInt64 (length w) 1 - 1 - cursor w)%i64)
                       (- cursor w)%i64)%i64
  | End_ off =>
      Some (MaxInt64 (length w) 1 - 1
            + MaxInt64 (MinInt64 off 0) (- (MaxInt64 (length w) 1 - 1))%i64)%i64
  | VisualStart off =>
      if visualStart w <? 0 then None
      else
        Some (visualStart w
              + MaxInt64
                  (MinInt64 off (MaxInt64 (length w) 1 - 1 - visualStart w)%i64)
                  (- visualStart w)%i64)%i64
  | VisualEnd off =>
      if visualStart w <? 0 then None
      else
        Some (cursor w
              + MaxInt64 (MinInt64 off (MaxInt64 (length w) 1 - 1 - cursor w)%i64)
                         (- cursor w)%i64)%i64
  | NoPosition => None
  end.

Definition insert (offset' c : Z) (w : window) : window :=
  tick (set_buffer (Buffer.Insert (buffer w) offset' c) w).

Definition replace (offset' c : Z) (w : window) : window :=
  tick (set_buffer (Buffer.Replace (buffer w) offset' c) w).

Definition delete (offset' : Z) (w : window) : window :=
  tick (set_buffer (Buffer.Delete (buffer w) offset') w).

(** The body of the loops of [undo] and [redo]: install a checkpoint. *)
Definition restore (e : History.entry) (w : window) : window :=
  let w := set_buffer (History.e_buffer e) w in
  let w := set_offset (History.e_offset e) w in
  let w := set_cursor (History.e_cursor e) w in
  set_length (Buffer.Len (buffer w)) w.

Fixpoint undo_loop (n : nat) (w : window) : window :=
  match n with
  | O => w
  | S n' =>
      let (h, r) := History.Undo (history w) in
      let w := set_history h w in
      match r with
      | None => w
      | Some e => undo_loop n' (restore e w)
      end
  end.

Definition undo (count : Z) (w : window) : window :=
  undo_loop (Z.to_nat (MaxInt64 count 1)) w.

Fixpoint redo_loop (n : nat) (w : window) : window :=
  match n with
  | O => w
  | S n' =>
      let (h, r) := History.Redo (history w) in
      let w := set_history h w in
      match r with
      | None => w
      | Some e => redo_loop n' (restore e w)
      end
  end.

Definition redo (count : Z) (w : window) : window :=
  redo_loop (Z.to_nat (MaxInt64 count 1)) w.

(** The statement that closes the virtual trailing slot in [cursorUp],
    [cursorLeft] and [cursorPrev]:
    [w.append = false; w.extending = false; if w.length > 0 { w.length-- }]. *)
Definition closeSlot (w : window) : window :=
  let w := set_append false w in
  let w := set_extending false w in
  if 0 <? length w then set_length (length w - 1)%i64 w else w.

Definition cursorUp (count : Z) (w : window) : result window :=
  q <- (cursor w / width w)%i64 ;;
  let w := set_cursor (cursor w - MinInt64 (MaxInt64 count 1) q * width w)%i64 w in
  w <- scrollUpToCursor w ;;
  Ok (if append w && extending w && (cursor w <? (length w - 1)%i64)
      then closeSlot w else w).

Definition cursorDown (count : Z) (w : window) : result window :=
  q1 <- ((MaxInt64 (length w) 1 - 1) / width w)%i64 ;;
  q2 <- (cursor w / width w)%i64 ;;
  let w :=
    set_cursor
      (cursor w
       + MinInt64 (MinInt64 (MaxInt64 count 1) (q1 - q2)%i64 * width w)%i64
                  (MaxInt64 (length w) 1 - 1 - cursor w)%i64)%i64 w in
  scrollDownToCursor w.

Definition cursorLeft (count : Z) (w : window) : result window :=
  r <- (cursor w mod width w)%i64 ;;
  let w := set_cursor (cursor w - MinInt64 (MaxInt64 count 1) r)%i64 w in
  Ok (if append w && extending w && (cursor w <? (length w - 1)%i64)
      then closeSlot w else w).

(** The statement that opens the virtual trailing slot in [cursorRight],
    [cursorNext], [startInsert], [startInsertHead] and [insertByte]:
    [if w.cursor == w.length {
       w.append = true; w.extending = true; w.length++ }]. *)
Definition openSlot (w : window) : window :=
  if cursor w =? length w then
    let w := set_append true w in
    let w := set_extending true w in
    set_length (length w + 1)%i64 w
  else w.

Definition cursorRight (m : Mode) (count : Z) (w : window) : result window :=
  if Mode_eqb m Normal then
    r <- (cursor w mod width w)%i64 ;;
    Ok (set_cursor
          (cursor w
           + MinInt64 (MinInt64 (MaxInt64 count 1) (width w - 1 - r)%i64)
                      (MaxInt64 (length w) 1 - 1 - cursor w)%i64)%i64 w)
  else if negb (extending w) then
    r <- (cursor w mod width w)%i64 ;;
    let w :=
      set_cursor
        (cursor w
         + MinInt64 (MinInt64 (MaxInt64 count 1) (width w - 1 - r)%i64)
                    (length w - cursor w)%i64)%i64 w in
    Ok (openSlot w)
  else Ok w.

Definition cursorPrev (count : Z) (w : window) : result window :=
  let w := set_cursor (cursor w - MinInt64 (MaxInt64 count 1) (cursor w))%i64 w in
  w <- scrollUpToCursor w ;;
  Ok (if append w && extending w && negb (cursor w =? length w)
      then closeSlot w else w).

Definition cursorNext (m : Mode) (count : Z) (w : window) : result window :=
  let w :=
    if Mode_eqb m Normal then
      set_cursor
        (cursor w
         + MinInt64 (MaxInt64 count 1) (MaxInt64 (length w) 1 - 1 - cursor w)%i64)%i64
        w
    else if negb (extending w) then
      let w :=
        set_cursor
          (cursor w + MinInt64 (MaxInt64 count 1) (length w - cursor w)%i64)%i64 w in
      openSlot w
    else w in
  scrollDownToCursor w.

Definition cursorHead (_ : Z) (w : window) : result window :=
  r <- (cursor w mod width w)%i64 ;;
  Ok (set_cursor (cursor w - r)%i64 w).

Definition cursorEnd (count : Z) (w : window) : result window :=
  q <- (cursor w / width w)%i64 ;;
  let w :=
    set_cursor
      (MinInt64 ((q + MaxInt64 count 1) * width w - 1)%i64
                (MaxInt64 (length w) 1 - 1)%i64) w in
  scrollDownToCursor w.

Definition cursorGotoPos (pos : Position) (w : window) : result window :=
  match positionToOffset w pos with
  | Some offset' =>
      let w :=
        set_cursor
          (MaxInt64 (MinInt64 offset' (MaxInt64 (length w) 1 - 1)%i64) 0) w in
      if cursor w <? offset w then
        q <- (cursor w / width w)%i64 ;;
        h2 <- (height w / 2)%i64 ;;
        Ok (set_offset ((MaxInt64 q h2 - h2) * width w)%i64 w)
      else if (offset w + height w * width w)%i64 <=? cursor w then
        q1 <- ((MaxInt64 (length w) 1 + width w - 1) / width w)%i64 ;;
        let h := (q1 - height w)%i64 in
        q2 <- ((cursor w - height w * width w + width w) / width w)%i64 ;;
        h2 <- (height w / 2)%i64 ;;
        Ok (set_offset (MinInt64 (q2 + h2)%i64 h * width w)%i64 w)
      else Ok w
  | None => Ok w
  end.

Definition cursorGoto (e : Event) (w : window) : result window :=
  match Range_ e with
  | Some r =>
      match To r with
      | Some pos => cursorGotoPos pos w
      | None =>
          match From r with
          | Some pos => cursorGotoPos pos w
          | None => Ok w
          end
      end
  | None => Ok w
  end.

Definition scrollUp (count : Z) (w : window) : result window :=
  q <- (offset w / width w)%i64 ;;
  let w := set_offset (offset w - MinInt64 (MaxInt64 count 1) q * width w)%i64 w in
  if (offset w + height w * width w)%i64 <=? cursor w then
    q <- ((cursor w - offset w - height w * width w) / width w)%i64 ;;
    Ok (set_cursor (cursor w - (q + 1) * width w)%i64 w)
  else Ok w.

Definition scrollDown (count : Z) (w : window) : result window :=
  q1 <- ((MaxInt64 (length w) 1 + width w - 1) / width w)%i64 ;;
  let h := MaxInt64 (q1 - height w)%i64 0 in
  q2 <- (offset w / width w)%i64 ;;
  let w :=
    set_offset (offset w + MinInt64 (MaxInt64 count 1) (h - q2)%i64 * width w)%i64 w in
  if cursor w <? offset w then
    q3 <- ((offset w - cursor w + width w - 1) / width w)%i64 ;;
    Ok (set_cursor
          (cursor w
           + MinInt64 (q3 * width w)%i64 (MaxInt64 (length w) 1 - 1 - cursor w)%i64)%i64
          w)
  else Ok w.

(** [var pageUpDownJumpRatio = 0.95]: the [float64] nearest to 0.95. *)
Definition pageUpDownJumpRatio : float := 0x1.e666666666666p-1%float.

(** The conversion [float64(h)] of an [int64]. *)
Definition float64_of_int64 (h : Z) : float :=
  if h =? Int64.min_int then (-0x1p63)%float
  else if h <? 0 then PrimFloat.opp (PrimFloat.of_uint63 (Uint63.of_Z (- h)))
  else PrimFloat.of_uint63 (Uint63.of_Z h).

(** The conversion [int64(f)] of a finite [float64] within the range of
    [int64]: truncation toward zero. *)
Definition int64_of_float64 (f : float) : Z :=
  match Prim2SF f with
  | S754_finite s m e =>
      let v := if 0 <=? e then Z.pos m * 2 ^ e else Z.pos m / 2 ^ (- e) in
      if s then - v else v
  | _ => 0
  end.

(** [int64(float64(h) * pageUpDownJumpRatio)]. *)
Definition pageJump (h : Z) : Z :=
  int64_of_float64 (PrimFloat.mul (float64_of_int64 h) pageUpDownJumpRatio).

Definition getPageJump (w : window) : Z := pageJump (height w).

(** The tail shared by [pageUp] and [pageUpHalf]. *)
Definition pageUpCursor (w : window) : window :=
  if offset w =? 0 then set_cursor 0 w
  else if (offset w + height w * width w)%i64 <=? cursor w then
    set_cursor (offset w + (height w - 1) * width w)%i64 w
  else w.

Definition pageUp (w : window) : result window :=
  let w := set_offset (MaxInt64 (offset w - getPageJump w * width w)%i64 0) w in
  Ok (pageUpCursor w).

(** The tail shared by [pageDown] and [pageDownHalf]; [offset'] is the local
    variable [offset]. *)
Definition pageDownCursor (offset' : Z) (w : window) : result window :=
  if cursor w <? offset w then Ok (set_cursor (offset w) w)
  else if offset w =? offset' then
    q <- ((MaxInt64 (length w) 1 + width w - 1) / width w)%i64 ;;
    Ok (set_cursor ((q - 1) * width w)%i64 w)
  else Ok w.

Definition pageDown (w : window) : result window :=
  q <- ((length w + width w - 1) / width w)%i64 ;;
  let offset' := MaxInt64 ((q - height w) * width w)%i64 0 in
  let w :=
    set_offset (MinInt64 (offset w + getPageJump w * width w)%i64 offset') w in
  pageDownCursor offset' w.

Definition pageUpHalf (w : window) : result window :=
  h2 <- (height w / 2)%i64 ;;
  let w := set_offset (MaxInt64 (offset w - MaxInt64 h2 1 * width w)%i64 0) w in
  Ok (pageUpCursor w).

Definition pageDownHalf (w : window) : result window :=
  q <- ((length w + width w - 1) / width w)%i64 ;;
  let offset' := MaxInt64 ((q - height w) * width w)%i64 0 in
  h2 <- (height w / 2)%i64 ;;
  let w :=
    set_offset (MinInt64 (offset w + MaxInt64 h2 1 * width w)%i64 offset') w in
  pageDownCursor offset' w.

Definition pageTop (w : window) : result window :=
  Ok (set_cursor 0 (set_offset 0 w)).

Definition pageEnd (w : window) : result window :=
  q1 <- ((length w + width w - 1) / width w)%i64 ;;
  let w := set_offset (MaxInt64 ((q1 - height w) * width w)%i64 0) w in
  q2 <- ((MaxInt64 (length w) 1 + width w - 1) / width w)%i64 ;;
  Ok (set_cursor ((q2 - 1) * width w)%i64 w).

Definition isDigit (b : Z) : bool := (48 <=? b) && (b <=? 57).

Definition isWhite (b : Z) : bool :=
  (b =? 0) || (b =? 9) || (b =? 10) || (b =? 13) || (b =? 32).

(** [for ; i < 2*s && p(bytes[i]); i++ {}] with [fuel = 2*s - i]. *)
Fixpoint scanForward (p : Z -> bool) (bytes : list Z) (i fuel : nat) : nat :=
  match fuel with
  | O => i
  | S fuel' => if p (nth i bytes 0) then scanForward p bytes (S i) fuel' else i
  end.

(** [for ; 0 < i && isDigit(bytes[i-1]); i-- {}]. *)
Fixpoint scanBackward (bytes : list Z) (i : nat) : nat :=
  match i with
  | O => O
  | S i' => if isDigit (nth i' bytes 0) then scanBackward bytes i' else i
  end.

(** The local constant [s] of [jumpTo]. *)
Definition jump_s : nat := 50.

(** The scan of [jumpTo] over the bytes read: the bounds [i] and [j] of the
    digit run, or [None] where the function returns early. *)
Definition findDigits (bytes : list Z) : option (nat * nat) :=
  let i := scanForward isWhite bytes jump_s (2 * jump_s - jump_s) in
  if (i =? 2 * jump_s)%nat || negb (isDigit (nth i bytes 0)) then None
  else
    let i := scanBackward bytes i in
    let j := scanForward isDigit bytes i (2 * jump_s - i) in
    if (j =? 2 * jump_s)%nat then None else Some (i, j).

(** [bytes[i:j]]. *)
Definition slice (bytes : list Z) (i j : nat) : list Z :=
  firstn (j - i) (skipn i bytes).

Definition jumpTo (w : window) : result window :=
  r <- readBytes w (MaxInt64 (cursor w - Z.of_nat jump_s)%i64 0)
                 (Z.of_nat (2 * jump_s)) ;;
  match r with
  | None => Ok w
  | Some (_, bytes) =>
      match findDigits bytes with
      | None => Ok w
      | Some (i, j) =>
          let offset' := ParseInt (slice bytes i j) in
          if (offset' <=? 0) || (length w <=? offset') then Ok w
          else
            let w := set_stack (stack w ++ [mkPosition (cursor w) (offset w)]) w in
            let w := set_cursor offset' w in
            r <- (offset' mod width w)%i64 ;;
            h3 <- (height w / 3)%i64 ;;
            Ok (set_offset
                  (MaxInt64 (offset' - r - MaxInt64 h3 0 * width w)%i64 0) w)
      end
  end.

Definition jumpBack (w : window) : result window :=
  match rev (stack w) with
  | [] => Ok w
  | p :: _ =>
      let w := set_cursor (p_cursor p) w in
      let w := set_offset (p_offset p) w in
      Ok (set_stack (removelast (stack w)) w)
  end.

Fixpoint deleteByte_loop (cnt : nat) (w : window) : window :=
  match cnt with
  | O => w
  | S cnt' =>
      let w := delete (cursor w) w in
      let w := set_length (length w - 1)%i64 w in
      let w :=
        if (cursor w =? length w) && (0 <? cursor w)
        then set_cursor (cursor w - 1)%i64 w else w in
      deleteByte_loop cnt' w
  end.

Definition deleteByte (count : Z) (w : window) : result window :=
  if length w =? 0 then Ok w
  else
    r <- (cursor w mod width w)%i64 ;;
    let cnt :=
      MinInt64 (MinInt64 (MaxInt64 count 1) (width w - r)%i64)
               (length w - cursor w)%i64 in
    Ok (deleteByte_loop (Z.to_nat cnt) w).

Fixpoint deletePrevByte_loop (cnt : nat) (w : window) : window :=
  match cnt with
  | O => w
  | S cnt' =>
      let w := delete (cursor w - 1)%i64 w in
      let w := set_cursor (cursor w - 1)%i64 w in
      let w := set_length (length w - 1)%i64 w in
      deletePrevByte_loop cnt' w
  end.

Definition deletePrevByte (count : Z) (w : window) : result window :=
  r <- (cursor w mod width w)%i64 ;;
  let cnt := MinInt64 (MaxInt64 count 1) r in
  Ok (deletePrevByte_loop (Z.to_nat cnt) w).

(** [byte(mathutil.MaxInt64(count, 1) % 256)]. *)
Definition countByte (count : Z) : Z :=
  byte_wrap (Z.rem (MaxInt64 count 1) 256).

Definition increment (count : Z) (w : window) : result window :=
  r <- readBytes w (cursor w) 1 ;;
  match r with
  | None => Ok w
  | Some (_, bytes) =>
      let w := replace (cursor w) (byte_wrap (nth 0 bytes 0 + countByte count)) w in
      Ok (if length w =? 0 then set_length (length w + 1)%i64 w else w)
  end.

Definition decrement (count : Z) (w : window) : result window :=
  r <- readBytes w (cursor w) 1 ;;
  match r with
  | None => Ok w
  | Some (_, bytes) =>
      let w := replace (cursor w) (byte_wrap (nth 0 bytes 0 - countByte count)) w in
      Ok (if length w =? 0 then set_length (length w + 1)%i64 w else w)
  end.

Definition startInsert (w : window) : result window :=
  let w := set_append false w in
  let w := set_extending false w in
  let w := set_pending false w in
  Ok (openSlot w).

Definition startInsertHead (w : window) : result window :=
  w <- cursorHead 0 w ;;
  let w := set_append false w in
  let w := set_extending false w in
  let w := set_pending false w in
  Ok (openSlot w).

Definition startAppend (w : window) : result window :=
  let w := set_append true w in
  let w := set_extending false w in
  let w := set_pending false w in
  let w := if 0 <? length w then set_cursor (cursor w + 1)%i64 w else w in
  let w :=
    if cursor w =? length w then
      let w := set_extending true w in
      set_length (length w + 1)%i64 w
    else w in
  scrollDownToCursor w.

Definition startAppendEnd (w : window) : result window :=
  w <- cursorEnd 0 w ;;
  startAppend w.

Definition startReplaceByte (w : window) : result window :=
  let w := set_replaceByte true w in
  let w := set_append false w in
  let w := set_extending false w in
  Ok (set_pending false w).

Definition startReplace (w : window) : result window :=
  let w := set_replaceByte false w in
  let w := set_append false w in
  let w := set_extending false w in
  Ok (set_pending false w).

Definition exitInsert (w : window) : window :=
  let w := set_pending false w in
  if append w then
    let w :=
      if extending w && (0 <? length w)
      then set_length (length w - 1)%i64 w else w in
    let w := if 0 <? cursor w then set_cursor (cursor w - 1)%i64 w else w in
    let w := set_replaceByte false w in
    let w := set_append false w in
    let w := set_extending false w in
    set_pending false w
  else w.

Definition insertByte (m : Mode) (b : Z) (w : window) : result window :=
  if pending w then
    w <- match m with
         | Insert =>
             let w := insert (cursor w) (Z.lor (pendingByte w) b) w in
             let w := set_cursor (cursor w + 1)%i64 w in
             Ok (set_length (length w + 1)%i64 w)
         | Replace =>
             let w := replace (cursor w) (Z.lor (pendingByte w) b) w in
             let w := if length w =? 0 then set_length (length w + 1)%i64 w else w in
             if replaceByte w then Ok (exitInsert w)
             else
               let w := set_cursor (cursor w + 1)%i64 w in
               Ok (openSlot w)
         | _ => Ok w
         end ;;
    w <- scrollDownToCursor w ;;
    let w := set_pending false w in
    Ok (set_pendingByte 0 w)
  else
    let w := set_pending true w in
    Ok (set_pendingByte (byte_wrap (Z.shiftl b 4)) w).

(** The loop of [insertRune] over the encoded bytes: the two nibbles of each
    byte, high nibble first. *)
Fixpoint insertNibbles (m : Mode) (buf : list Z) (w : window) : result window :=
  match buf with
  | [] => Ok w
  | c :: buf' =>
      w <- insertByte m (Z.shiftr c 4) w ;;
      w <- insertByte m (Z.land c 15) w ;;
      insertNibbles m buf' w
  end.

Definition insertRune (m : Mode) (ch : Z) (w : window) : result window :=
  if Mode_eqb m Insert || Mode_eqb m Replace then
    if focusText w then insertNibbles m (EncodeRune ch) w
    else if (48 <=? ch) && (ch <=? 57) then insertByte m (byte_wrap (ch - 48)) w
    else if (97 <=? ch) && (ch <=? 102) then
      insertByte m (byte_wrap (ch - 97 + 10)) w
    else Ok w
  else Ok w.

Definition backspace (w : window) : result window :=
  if pending w then
    let w := set_pending false w in
    Ok (set_pendingByte 0 w)
  else if 0 <? cursor w then
    let w := delete (cursor w - 1)%i64 w in
    let w := set_cursor (cursor w - 1)%i64 w in
    Ok (set_length (length w - 1)%i64 w)
  else Ok w.

Definition startVisual (w : window) : result window :=
  Ok (set_visualStart (cursor w) w).

Definition switchVisualEnd (w : window) : result window :=
  if visualStart w <? 0 then Panic
  else
    let c := cursor w in
    let w := set_cursor (visualStart w) w in
    let w := set_visualStart c w in
    if cursor w <? offset w then scrollUpToCursor w
    else scrollDownToCursor w.

Definition exitVisual (w : window) : result window :=
  Ok (set_visualStart (-1) w).

(** The size of the window that a search scans:
    [mathutil.MaxInt(int(w.height*w.width)*50, len(target)*500)]. *)
Definition searchSize (w : window) (target : list Z) : Z :=
  MaxInt (height w * width w * 50)%i64
         (Z.of_nat (List.length target) * 500)%i64.

Definition searchForward (str : list Z) (w : window) : result window :=
  let target := str in
  let base := (cursor w + 1)%i64 in
  let size := searchSize w target in
  r <- readBytes w base size ;;
  match r with
  | None => Ok w
  | Some (_, bs) =>
      let i := Index bs target in
      if 0 <=? i then
        let w := set_cursor (base + i)%i64 w in
        if (offset w + height w * width w)%i64 <=? cursor w then
          q <- ((cursor w - height w * width w + width w + 1) / width w)%i64 ;;
          Ok (set_offset (q * width w)%i64 w)
        else Ok w
      else Ok w
  end.

Definition searchBackward (str : list Z) (w : window) : result window :=
  let target := str in
  let size := searchSize w target in
  let base := MaxInt64 0 (cursor w - size)%i64 in
  r <- readBytes w base (MinInt64 size (cursor w)) ;;
  match r with
  | None => Ok w
  | Some (_, bs) =>
      let i := LastIndex bs target in
      if 0 <=? i then
        let w := set_cursor (base + i)%i64 w in
        scrollUpToCursor w
      else Ok w
  end.

Definition search (str : list Z) (forward : bool) (w : window) : result window :=
  if forward then searchForward str w else searchBackward str w.

(** The case of [event.SwitchFocus] in [run]. *)
Definition switchFocus (w : window) : result window :=
  let w := set_focusText (negb (focusText w)) w in
  let w :=
    if pending w then
      let w := set_pending false w in
      set_pendingByte 0 w
    else w in
  Ok (tick w).

(** The [switch] of [run]: the window after the command, or [None] for an
    event of a type that the loop skips. *)
Definition handle (e : Event) (w : window) : result (option window) :=
  let some (r : result window) := w' <- r ;; Ok (Some w') in
  match Type_ e with
  | CursorUp => some (cursorUp (Count e) w)
  | CursorDown => some (cursorDown (Count e) w)
  | CursorLeft => some (cursorLeft (Count e) w)
  | CursorRight => some (cursorRight (Mode_ e) (Count e) w)
  | CursorPrev => some (cursorPrev (Count e) w)
  | CursorNext => some (cursorNext (Mode_ e) (Count e) w)
  | CursorHead => some (cursorHead (Count e) w)
  | CursorEnd => some (cursorEnd (Count e) w)
  | CursorGoto => some (cursorGoto e w)
  | ScrollUp => some (scrollUp (Count e) w)
  | ScrollDown => some (scrollDown (Count e) w)
  | PageUp => some (pageUp w)
  | PageDown => some (pageDown w)
  | PageUpHalf => some (pageUpHalf w)
  | PageDownHalf => some (pageDownHalf w)
  | PageTop => some (pageTop w)
  | PageEnd => some (pageEnd w)
  | JumpTo => some (jumpTo w)
  | JumpBack => some (jumpBack w)
  | DeleteByte => some (deleteByte (Count e) w)
  | DeletePrevByte => some (deletePrevByte (Count e) w)
  | Increment => some (increment (Count e) w)
  | Decrement => some (decrement (Count e) w)
  | StartInsert => some (startInsert w)
  | StartInsertHead => some (startInsertHead w)
  | StartAppend => some (startAppend w)
  | StartAppendEnd => some (startAppendEnd w)
  | StartReplaceByte => some (startReplaceByte w)
  | StartReplace => some (startReplace w)
  | ExitInsert => some (Ok (exitInsert w))
  | Rune => some (insertRune (Mode_ e) (Rune_ e) w)
  | Backspace => some (backspace w)
  | Delete => some (deleteByte 1 w)
  | StartVisual => some (startVisual w)
  | SwitchVisualEnd => some (switchVisualEnd w)
  | ExitVisual => some (exitVisual w)
  | SwitchFocus => some (switchFocus w)
  | Undo =>
      if Mode_eqb (Mode_ e) Normal then some (Ok (undo (Count e) w)) else Panic
  | Redo =>
      if Mode_eqb (Mode_ e) Normal then some (Ok (redo (Count e) w)) else Panic
  | ExecuteSearch => some (search (Arg e) (Rune_ e =? 47) w)
  | NextSearch => some (search (Arg e) (Rune_ e =? 47) w)
  | PreviousSearch => some (search (Arg e) (negb (Rune_ e =? 47)) w)
  | OtherEvent => Ok None
  end.

Definition isUndoRedo (t : EventType) : bool :=
  match t with
  | Undo | Redo => true
  | _ => false
  end.

Definition isExitInsert (t : EventType) : bool :=
  match t with
  | ExitInsert => true
  | _ => false
  end.

Definition push (offset' cursor' : Z) (w : window) : window :=
  set_history (History.Push (history w) (buffer w) offset' cursor') w.

(** The checkpoint rules at the end of an iteration of [run]; [w0] is the
    window before the command, [w] the window after it. *)
Definition checkpoint (e : Event) (w0 w : window) : window :=
  let changed := negb (changedTick w0 =? changedTick w) in
  let w :=
    if negb (isUndoRedo (Type_ e)) then
      if (Mode_eqb (Mode_ e) Normal && changed)
         || (isExitInsert (Type_ e) && prevChanged w)
      then push (offset w) (cursor w) w
      else if negb (Mode_eqb (Mode_ e) Normal) && prevChanged w && negb changed
              && isNavigation (Type_ e)
      then push (offset w0) (cursor w0) w
      else w
    else w in
  set_prevChanged changed w.

(** One iteration of the loop of [run]: the command, then the checkpoint.
    The lock and the redraw notification are not modelled. *)
Definition run_step (e : Event) (w : window) : result window :=
  r <- handle e w ;;
  match r with
  | None => Ok w
  | Some w' => Ok (checkpoint e w w')
  end.

(** [run] over the events received, in order. *)
Fixpoint run (es : list Event) (w : window) : result window :=
  match es with
  | [] => Ok w
  | e :: es' => w' <- run_step e w ;; run es' w'
  end.

(** [state.WindowState], but for [Name] and [EditedIndices], which the
    window takes from what is not modelled. *)
Record WindowState : Type := mkWindowState {
  Width : Z;
  Offset : Z;
  Cursor : Z;
  Bytes : list Z;
  Size : Z;
  Length : Z;
  Pending : bool;
  PendingByte : Z;
  VisualStart_ : Z;
  FocusText : bool
}.

(** The snapshot for the renderer; [None] is the error of the read. *)
Definition state (w : window) : result (option WindowState) :=
  r <- readBytes w (offset w) (height w * width w)%i64 ;;
  match r with
  | None => Ok None
  | Some (n, bytes) =>
      Ok (Some {| Width := width w; Offset := offset w; Cursor := cursor w;
                  Bytes := bytes; Size := n; Length := length w;
                  Pending := pending w; PendingByte := pendingByte w;
                  VisualStart_ := visualStart w; FocusText := focusText w |})
  end.

(** Modelled from the spec: [Seek] and [Read] of the package [buffer], as
    [io.Copy] uses them.  The content handle supports "random read"; a copy
    from the offset [from] yields the bytes of the content from there on, at
    most [limit] of them where an [io.LimitReader] is in between, and the
    number of bytes copied; a seek to a negative offset fails. *)
Definition copyFrom (b : Buffer.t) (from : Z) (limit : option Z)
  : option (Z * list Z) :=
  if from <? 0 then None
  else
    let rest := skipn (Z.to_nat from) b in
    let out :=
      match limit with
      | Some n => firstn (Z.to_nat n) rest
      | None => rest
      end in
    Some (Z.of_nat (List.length out), out).

(** An end of a range: a nil [event.Position] falls to the default case of
    [positionToOffset]. *)
Definition endOffset (w : window) (p : option Position) : option Z :=
  match p with
  | Some pos => positionToOffset w pos
  | None => None
  end.

(** [writeTo]: the number of bytes written and the bytes, or [None] for an
    error. *)
Definition writeTo (r : option Range) (w : window) : option (Z * list Z) :=
  match r with
  | None => copyFrom (buffer w) 0 None
  | Some r =>
      match endOffset w (From r) with
      | None => None
      | Some from =>
          match endOffset w (To r) with
          | None => None
          | Some to =>
              let (from, to) := if to <? from then (to, from) else (from, to) in
              copyFrom (buffer w) from (Some (to - from + 1)%i64)
          end
      end
  end.

(** [newWindow] over the content [b], which [buffer.NewBuffer] makes of the
    reader: the fields that the composite literal leaves out are zero, so
    that the window has no size until [setSize]. *)
Definition newWindow (b : Buffer.t) : window :=
  {| buffer := b; changedTick := 0; prevChanged := false;
     history := History.Push History.NewHistory b 0 0;
     height := 0; width := 0; offset := 0; cursor := 0;
     length := Buffer.Len b; stack := [];
     append := false; replaceByte := false; extending := false;
     pending := false; pendingByte := 0; visualStart := -1;
     focusText := false |}.

End Window.

Import Window.

(** * Vocabulary of the properties *)

(** The byte of the content [b] at offset [c]: what a read of one byte
    there yields, which is 0 past the end. *)
Definition byteAt (b : Buffer.t) (c : Z) : Z := nth (Z.to_nat c) b 0.

(** The entry [w1] into insert opened the virtual trailing slot of [w]. *)
Definition opensSlot (w w1 : window) : Prop :=
  append w1 = true /\ extending w1 = true /\ length w1 = length w + 1.

(** The [size] bytes of the content [b] from offset [start], with zeros
    where the content has ended: what a read of [size] bytes at [start]
    leaves in its destination. *)
Definition window_bytes (b : Buffer.t) (start size : Z) : list Z :=
  let got := firstn (Z.to_nat size) (skipn (Z.to_nat start) b) in
  got ++ repeat 0 (Z.to_nat size - List.length got).

(** The size of the window of a search, in exact arithmetic:
    [max(height*width*50, len(pattern)*500)]. *)
Definition scanSize (w : window) (pattern : list Z) : Z :=
  Z.max (height w * width w * 50) (Z.of_nat (List.length pattern) * 500).

(** The window of a forward search starts one byte after the cursor. *)
Definition forwardWindow (w : window) (pattern : list Z) : list Z :=
  window_bytes (buffer w) (cursor w + 1) (scanSize w pattern).

(** The window of a backward search ends at the cursor. *)
Definition backwardWindow (w : window) (pattern : list Z) : list Z :=
  let size := scanSize w pattern in
  window_bytes (buffer w) (Z.max 0 (cursor w - size)) (Z.min size (cursor w)).

Definition scanWindow (forward : bool) (w : window) (pattern : list Z) : list Z :=
  if forward then forwardWindow w pattern else backwardWindow w pattern.

(** The bytes of the content from offset [start], [size] of them at most:
    what a read there takes from the content, without the zeros that stay in
    its destination where the content has ended. *)
Definition content_bytes (b : Buffer.t) (start size : Z) : list Z :=
  firstn (Z.to_nat size) (skipn (Z.to_nat start) b).

(** The content within the window of a search. *)
Definition scanContent (forward : bool) (w : window) (pattern : list Z) : list Z :=
  let size := scanSize w pattern in
  if forward then content_bytes (buffer w) (cursor w + 1) size
  else content_bytes (buffer w) (Z.max 0 (cursor w - size)) (Z.min size (cursor w)).

(** The property of a search as stated: a pattern with no match in the
    content within the window leaves [cursor] and [offset] as they were. *)
Definition no_match_no_move (forward : bool) (w : window) (pattern : list Z) : Prop :=
  ~ has_match (scanContent forward w pattern) pattern ->
  exists w',
    search pattern forward w = Ok w' /\
    cursor w' = cursor w /\ offset w' = offset w.

(** The bytes that [jumpTo] reads: 100 bytes from [max(cursor-50, 0)]. *)
Definition jumpWindow (w : window) : list Z :=
  window_bytes (buffer w) (Z.max (cursor w - 50) 0) 100.

(** A complete run of decimal digits [bytes[i:j]] next to the middle of the
    window: white bytes (NUL included) from index 50 up to a digit at [k],
    the run around [k] maximal, and its end before the end of the window. *)
Definition digitRun (bytes : list Z) (i j : nat) : Prop :=
  exists k : nat,
    (50 <= k < 100)%nat /\
    (forall t, (50 <= t < k)%nat -> isWhite (nth t bytes 0) = true) /\
    (i <= k < j)%nat /\ (j < 100)%nat /\
    (forall t, (i <= t < j)%nat -> isDigit (nth t bytes 0) = true) /\
    (i = O \/ isDigit (nth (i - 1) bytes 0) = false) /\
    isDigit (nth j bytes 0) = false.

(** [jumpTo] jumps to the offset [v]: it pushes the position it leaves,
    moves the cursor to [v] and puts the viewport [height/3] rows above the
    row of [v], or at the top. *)
Definition jumpsTo (w : window) (v : Z) : Prop :=
  exists w',
    jumpTo w = Ok w' /\
    stack w' = stack w ++ [mkPosition (cursor w) (offset w)] /\
    cursor w' = v /\
    offset w' = Z.max (v - v mod width w - height w / 3 * width w) 0.

(** The property of [jumpTo] as stated: any value below [length] is a
    target. *)
Definition jumpTo_any_offset (w : window) : Prop :=
  forall i j : nat,
    digitRun (jumpWindow w) i j ->
    ParseInt (slice (jumpWindow w) i j) < length w ->
    jumpsTo w (ParseInt (slice (jumpWindow w) i j)).

(** One increment of [changedTick], a [uint64]. *)
Definition tick1 (t : Z) : Z := (t + 1) mod 2 ^ 64.

(** [w1] is [w] after a command that advanced the change counter [k <= n]
    times, left the content alone unless it advanced the counter, and wrote
    neither the history nor [prevChanged]. *)
Definition edits (n : nat) (w w1 : window) : Prop :=
  history w1 = history w /\ prevChanged w1 = prevChanged w /\
  exists k : nat,
    (k <= n)%nat /\
    changedTick w1 = Nat.iter k tick1 (changedTick w) /\
    (k = O -> buffer w1 = buffer w).

(** [edits], of a command that may panic. *)
Definition editsR (n : nat) (w : window) (r : result window) : Prop :=
  forall w1, r = Ok w1 -> edits n w w1.

(** A checkpoint was pushed between [w] and [w']. *)
Definition pushed (w w' : window) : Prop :=
  History.pushes (history w') = S (History.pushes (history w)).

(** The rule of the checkpoints in Normal mode as stated: a push exactly
    when the command changed the content. *)
Definition pushes_iff_mutated (e : Event) (w : window) : Prop :=
  forall w', run_step e w = Ok w' -> (pushed w w' <-> buffer w' <> buffer w).

(** The property of the cursor and the viewport that every navigation
    command is to keep: [0 <= cursor < max(length,1)], [offset] a multiple
    of [width], and, the content not being empty, the cursor within the
    [height * width] bytes shown. *)
Definition view_ok (w : window) : Prop :=
  0 <= cursor w < Z.max (length w) 1 /\
  offset w mod width w = 0 /\
  (0 < length w -> offset w <= cursor w < offset w + height w * width w).

(** A saved position that [jumpBack] may restore in [w]: a cursor within
    the content read, in the viewport saved with it. *)
Definition position_ok (w : window) (p : position) : Prop :=
  0 <= p_cursor p < Z.max (Buffer.Len (buffer w)) 1 /\
  0 <= p_offset p /\ p_offset p mod width w = 0 /\
  p_offset p <= p_cursor p < p_offset p + height w * width w.

(** What the navigation commands need of the fields that they do not
    write: the sizes are those of a terminal and the content is far shorter
    than [int64] is wide, so that no row computation overflows; a page jump is
    between 0 and the height; [length] counts the content and the virtual
    trailing slot, when it is open; the saved positions are good. *)
Record base_ok (w : window) : Prop := {
  ok_width : 0 < width w < 2 ^ 31;
  ok_height : 0 < height w < 2 ^ 31;
  ok_jump : 0 <= pageJump (height w) <= height w;
  ok_length : Buffer.Len (buffer w) < 2 ^ 61;
  ok_slot :
    length w = Buffer.Len (buffer w) + (if extending w then 1 else 0);
  ok_stack : Forall (position_ok w) (stack w)
}.

(** The state of a window between navigation commands: the cursor is in
    the content and in the viewport, which starts on a row. *)
Record nav_ok (w : window) : Prop := {
  ok_base : base_ok w;
  ok_cursor : 0 <= cursor w < Z.max (length w) 1;
  ok_offset : 0 <= offset w /\ offset w mod width w = 0;
  ok_view : offset w <= cursor w < offset w + height w * width w
}.

(** [nav_ok] but for the viewport, which a command scrolls to the cursor
    as its last step. *)
Record pre_ok (w : window) : Prop := {
  pre_base : base_ok w;
  pre_cursor : 0 <= cursor w < Z.max (length w) 1;
  pre_offset : 0 <= offset w /\ offset w mod width w = 0
}.

(** A navigation command with a count that a user types. *)
Definition nav_event (e : Event) : Prop :=
  isNavigation (Type_ e) = true /\ Count e <= 2 ^ 31.

(** The content [b] without the [n] bytes from offset [c]. *)
Definition cut (b : Buffer.t) (c n : Z) : Buffer.t :=
  firstn (Z.to_nat c) b ++ skipn (Z.to_nat (c + n)) b.

(** The window after [k] bytes were deleted at the cursor. *)
Definition deleted (k : nat) (w : window) : window :=
  let c := cursor w in
  let l := length w - Z.of_nat k in
  set_cursor (if (c =? l) && (0 <? c) then c - 1 else c)
    (set_length l
       (set_changedTick (Nat.iter k tick1 (changedTick w))
          (set_buffer (cut (buffer w) c (Z.of_nat k)) w))).

(** The window after the [k] bytes before the cursor were deleted. *)
Definition deletedPrev (k : nat) (w : window) : window :=
  let n := Z.of_nat k in
  set_length (length w - n)
    (set_cursor (cursor w - n)
       (set_changedTick (Nat.iter k tick1 (changedTick w))
          (set_buffer (cut (buffer w) (cursor w - n) n) w))).

(** The content [b] with [bytes] put in at offset [c]. *)
Definition splice (b : Buffer.t) (c : Z) (bytes : list Z) : Buffer.t :=
  firstn (Z.to_nat c) b ++ bytes ++ skipn (Z.to_nat c) b.

(** The window after [bytes] were typed in Insert mode, with the viewport at
    [o] and the stash holding [pb]. *)
Definition typed (bytes : list Z) (o pb : Z) (w : window) : window :=
  let n := Z.of_nat (List.length bytes) in
  set_pendingByte pb
    (set_offset o
       (set_length (length w + n)
          (set_cursor (cursor w + n)
             (set_changedTick (Nat.iter (List.length bytes) tick1 (changedTick w))
                (set_buffer (splice (buffer w) (cursor w) bytes) w))))).

(** [sep] occurs in [s] at index [k] and at no index before it. *)
Definition first_at (s sep : list Z) (k : nat) : Prop :=
  occurs_at s sep k /\ forall j, (j < k)%nat -> ~ occurs_at s sep j.

(** [sep] occurs in [s] at index [k] and at no index after it. *)
Definition last_at (s sep : list Z) (k : nat) : Prop :=
  occurs_at s sep k /\ forall j, (k < j)%nat -> ~ occurs_at s sep j.

(** * Concrete windows

    Windows and events on which the theorems below are run. *)

Module Examples.

(** A window as [newWindow] makes it over the content [b], after [setSize],
    with the viewport at [off] and the cursor at [cur]. *)
Definition make (b : Buffer.t) (wd h off cur : Z) : window :=
  {| buffer := b; changedTick := 0; prevChanged := false;
     history := History.Push History.NewHistory b 0 0;
     height := h; width := wd; offset := off; cursor := cur;
     length := Buffer.Len b; stack := [];
     append := false; replaceByte := false; extending := false;
     pending := false; pendingByte := 0; visualStart := -1;
     focusText := false |}.

(** An event of type [t] with count [n], in mode [m]. *)
Definition event (t : EventType) (n : Z) (m : Mode) : Event :=
  {| Type_ := t; Range_ := None; Count := n; Rune_ := 0; Arg := [];
     Mode_ := m |}.

(** Ten bytes, four to a row, two rows shown. *)
Definition ten : window := make [1; 2; 3; 4; 5; 6; 7; 8; 9; 10] 4 2 0 0.

(** Three bytes, none of them NUL. *)
Definition three : window := make [1; 2; 3] 4 2 0 0.

(** Fifty blanks, then the text "0 ": a reference to offset 0 under the
    cursor at 50. *)
Definition zeroRef : window := make (repeat 32 50 ++ [48; 32]) 16 10 0 50.

(** Fifty blanks, the text "173 ", and blanks up to 200 bytes: a reference
    to offset 173 under the cursor at 50. *)
Definition ref173 : window :=
  make (repeat 32 50 ++ [49; 55; 51; 32] ++ repeat 32 146) 16 10 0 50.


End Examples.

(** * Properties *)

(** ** 64-bit arithmetic *)

Lemma wrap_small (x : Z) : Int64.in_range x -> Int64.wrap x = x.
Proof.
  unfold Int64.in_range, Int64.min_int, Int64.max_int, Int64.wrap.
  intros H. rewrite Z.mod_small; lia.
Qed.

Lemma wrap_in_range (x : Z) : Int64.in_range (Int64.wrap x).
Proof.
  unfold Int64.in_range, Int64.min_int, Int64.max_int, Int64.wrap.
  pose proof (Z.mod_pos_bound (x + 2 ^ 63) (2 ^ 64)). lia.
Qed.

Lemma quo_ok (x y : Z) :
  y <> 0 -> Int64.quo x y = Ok (Int64.wrap (Z.quot x y)).
Proof.
  intros H. unfold Int64.quo. destruct (Z.eqb_spec y 0); [contradiction | reflexivity].
Qed.

Lemma rem_ok (x y : Z) : y <> 0 -> Int64.rem x y = Ok (Z.rem x y).
Proof.
  intros H. unfold Int64.rem. destruct (Z.eqb_spec y 0); [contradiction | reflexivity].
Qed.

(** The constants of the 64-bit range as numerals, for [lia]. *)
Ltac i64_consts :=
  unfold Int64.in_range, Int64.min_int, Int64.max_int in *;
  change (2 ^ 63) with 9223372036854775808 in *;
  change (2 ^ 64) with 18446744073709551616 in *.

(** Replace every wrapped operation whose result provably fits by the exact
    one. *)
Ltac unwrap :=
  unfold Int64.add, Int64.sub, Int64.mul, Int64.neg in *;
  repeat match goal with
         | |- context [Int64.wrap ?x] =>
             rewrite (wrap_small x) by (i64_consts; lia)
         | H : context [Int64.wrap ?x] |- _ =>
             rewrite (wrap_small x) in H by (i64_consts; lia)
         end.

(** ** The jump stack *)

(** The fields that a jump leaves alone: all but [cursor], [offset] and
    [stack]. *)
Definition same_but_view (w w' : window) : Prop :=
  buffer w' = buffer w /\ changedTick w' = changedTick w /\
  prevChanged w' = prevChanged w /\ history w' = history w /\
  height w' = height w /\ width w' = width w /\ length w' = length w /\
  append w' = append w /\ replaceByte w' = replaceByte w /\
  extending w' = extending w /\ pending w' = pending w /\
  pendingByte w' = pendingByte w /\ visualStart w' = visualStart w /\
  focusText w' = focusText w.

(** C8: with a non-empty jump stack, [jumpBack] sets [cursor] and [offset]
    to the pair pushed last and removes that pair, changing nothing else;
    with an empty stack it changes nothing. *)
Theorem jumpBack_pops_last (w : window) :
  (forall (s : list position) (p : position),
      stack w = s ++ [p] ->
      exists w',
        jumpBack w = Ok w' /\ cursor w' = p_cursor p /\
        offset w' = p_offset p /\ stack w' = s /\ same_but_view w w') /\
  (stack w = [] -> jumpBack w = Ok w).
Proof.
  split.
  - intros s p Hs. unfold jumpBack. rewrite Hs, rev_app_distr. simpl.
    eexists. split; [reflexivity |].
    simpl. rewrite Hs, removelast_last.
    unfold same_but_view. simpl. intuition reflexivity.
  - intros Hs. unfold jumpBack. rewrite Hs. reflexivity.
Qed.

(** ** Resolution of positions *)

(** What the type [int64] says of the fields that the resolution reads. *)
Definition fits_int64 (w : window) : Prop :=
  Int64.in_range (cursor w) /\ Int64.in_range (length w) /\
  Int64.in_range (visualStart w).

(** The offsets of the content: [0 .. max(length,1)-1]. *)
Definition in_content (w : window) (r : Z) : Prop :=
  0 <= r <= Z.max (length w) 1 - 1.

Definition resolves (w : window) (pos : Position) : Prop :=
  exists r, positionToOffset w pos = Some r /\ in_content w r.

Lemma clamp_relative (w : window) (base off : Z) :
  Int64.in_range (length w) -> Int64.in_range base -> 0 <= base ->
  in_content w
    (base + MaxInt64 (MinInt64 off (MaxInt64 (length w) 1 - 1 - base)%i64)
                     (- base)%i64)%i64.
Proof.
  intros HL Hb H0. unfold in_content, MaxInt64, MinInt64.
  assert (Hm : (Z.max (length w) 1 - 1 - base)%i64 = Z.max (length w) 1 - 1 - base).
  { unwrap. reflexivity. }
  assert (Hn : (- base)%i64 = - base) by (unwrap; reflexivity).
  rewrite Hm, Hn. unfold Int64.add. rewrite wrap_small; i64_consts; lia.
Qed.

(** C9: in a window with [0 <= cursor < max(length,1)], an [Absolute], a
    [Relative] or an [End] position always resolves, to an offset of
    [0 .. max(length,1)-1]; a [VisualStart] or [VisualEnd] position fails
    exactly when [visualStart] is -1 (no selection) and otherwise resolves
    to an offset of the same interval.  [visualStart] is -1 or an offset. *)
Theorem positionToOffset_resolves (w : window) (off : Z) :
  fits_int64 w ->
  0 <= cursor w < Z.max (length w) 1 ->
  -1 <= visualStart w ->
  resolves w (Absolute off) /\
  resolves w (Relative off) /\
  resolves w (End_ off) /\
  (positionToOffset w (VisualStart off) = None <-> visualStart w = -1) /\
  (positionToOffset w (VisualEnd off) = None <-> visualStart w = -1) /\
  (visualStart w <> -1 ->
   resolves w (VisualStart off) /\ resolves w (VisualEnd off)).
Proof.
  intros (Hc & HL & Hv) Hcur Hvs.
  assert (Hrel : forall base, Int64.in_range base -> 0 <= base ->
            in_content w
              (base + MaxInt64 (MinInt64 off (MaxInt64 (length w) 1 - 1 - base)%i64)
                               (- base)%i64)%i64)
    by (intros; apply clamp_relative; assumption).
  repeat split.
  - eexists. split; [reflexivity |].
    unfold in_content, MaxInt64, MinInt64. unwrap. lia.
  - eexists. split; [reflexivity |]. apply Hrel; [assumption | lia].
  - eexists. split; [reflexivity |].
    unfold in_content, MaxInt64, MinInt64. unwrap. lia.
  - simpl. destruct (Z.ltb_spec (visualStart w) 0); [lia | discriminate].
  - intros E. simpl. rewrite E. reflexivity.
  - simpl. destruct (Z.ltb_spec (visualStart w) 0); [lia | discriminate].
  - intros E. simpl. rewrite E. reflexivity.
  - unfold resolves. simpl.
    destruct (Z.ltb_spec (visualStart w) 0); [lia |].
    eexists. split; [reflexivity |]. apply Hrel; [assumption | lia].
  - unfold resolves. simpl.
    destruct (Z.ltb_spec (visualStart w) 0); [lia |].
    eexists. split; [reflexivity |]. apply Hrel; [assumption | lia].
Qed.

Lemma positionToOffset_resolves_witness :
  resolves Examples.ten (Absolute 42) /\
  resolves Examples.ten (Relative (-3)) /\
  resolves Examples.ten (End_ (-2)) /\
  (positionToOffset Examples.ten (VisualStart 1) = None
   <-> visualStart Examples.ten = -1) /\
  (positionToOffset Examples.ten (VisualEnd 1) = None
   <-> visualStart Examples.ten = -1) /\
  (visualStart (set_visualStart 7 Examples.ten) <> -1 ->
   resolves (set_visualStart 7 Examples.ten) (VisualStart 5) /\
   resolves (set_visualStart 7 Examples.ten) (VisualEnd 5)).
Proof.
  assert (F : forall v, -1 <= v <= 9 -> fits_int64 (set_visualStart v Examples.ten)).
  { intros v Hv. unfold fits_int64. cbn. unfold Buffer.Len. cbn. i64_consts. lia. }
  pose proof (positionToOffset_resolves Examples.ten 42 (F (-1) ltac:(lia))
                ltac:(cbn; unfold Buffer.Len; cbn; lia) ltac:(cbn; lia)) as (A & _).
  pose proof (positionToOffset_resolves Examples.ten (-3) (F (-1) ltac:(lia))
                ltac:(cbn; unfold Buffer.Len; cbn; lia) ltac:(cbn; lia)) as (_ & R & _).
  pose proof (positionToOffset_resolves Examples.ten (-2) (F (-1) ltac:(lia))
                ltac:(cbn; unfold Buffer.Len; cbn; lia) ltac:(cbn; lia)) as (_ & _ & E & _).
  pose proof (positionToOffset_resolves Examples.ten 1 (F (-1) ltac:(lia))
                ltac:(cbn; unfold Buffer.Len; cbn; lia) ltac:(cbn; lia)) as (_ & _ & _ & S & V & _).
  pose proof (positionToOffset_resolves (set_visualStart 7 Examples.ten) 5
                (F 7 ltac:(lia)) ltac:(cbn; unfold Buffer.Len; cbn; lia) ltac:(cbn; lia))
    as (_ & _ & _ & _ & _ & W).
  exact (conj A (conj R (conj E (conj S (conj V W))))).
Defined.

(** ** The command loop *)

(** The checkpoint at the end of an iteration writes [history] and
    [prevChanged] only. *)
Lemma checkpoint_frame (e : Event) (w0 w : window) :
  buffer (checkpoint e w0 w) = buffer w /\
  length (checkpoint e w0 w) = length w /\
  cursor (checkpoint e w0 w) = cursor w /\
  offset (checkpoint e w0 w) = offset w /\
  focusText (checkpoint e w0 w) = focusText w /\
  pending (checkpoint e w0 w) = pending w /\
  pendingByte (checkpoint e w0 w) = pendingByte w.
Proof.
  unfold checkpoint, push.
  destruct (negb (isUndoRedo (Type_ e)));
    [ destruct (_ || _); [| destruct (_ && _)] |];
    simpl; repeat split; reflexivity.
Qed.

(** C10: the command [SwitchFocus] toggles [focusText] and cancels a pending
    nibble (the flag and the stashed byte); it leaves the content, [length],
    [cursor] and [offset] as they were. *)
Theorem switchFocus_toggles (e : Event) (w : window) :
  Type_ e = SwitchFocus ->
  exists w',
    run_step e w = Ok w' /\
    focusText w' = negb (focusText w) /\
    pending w' = false /\
    (pending w = true -> pendingByte w' = 0) /\
    (pending w = false -> pendingByte w' = pendingByte w) /\
    buffer w' = buffer w /\ length w' = length w /\
    cursor w' = cursor w /\ offset w' = offset w.
Proof.
  intros He. unfold run_step, handle. rewrite He. unfold switchFocus.
  cbv beta iota zeta delta [bind].
  eexists. split; [reflexivity |].
  match goal with |- context [checkpoint e w ?x] => set (w1 := x) end.
  destruct (checkpoint_frame e w w1) as (Hb & Hl & Hc & Ho & Hf & Hp & Hpb).
  rewrite Hb, Hl, Hc, Ho, Hf, Hp, Hpb. subst w1.
  destruct w as [b t pc h ht wd o c l st ap rb ex pe pb vs ft].
  destruct pe; simpl; repeat split; congruence.
Qed.

Lemma switchFocus_toggles_witness :
  exists w',
    run_step (Examples.event SwitchFocus 0 Insert)
             (set_pendingByte 160 (set_pending true Examples.ten)) = Ok w' /\
    focusText w' = true /\ pending w' = false /\ pendingByte w' = 0 /\
    buffer w' = buffer Examples.ten /\ length w' = 10 /\
    cursor w' = 0 /\ offset w' = 0.
Proof.
  destruct (switchFocus_toggles (Examples.event SwitchFocus 0 Insert)
              (set_pendingByte 160 (set_pending true Examples.ten)) eq_refl)
    as (w' & Hr & Hf & Hp & Hpb & _ & Hb & Hl & Hc & Ho).
  exists w'. repeat split; try assumption.
  - apply Hpb. reflexivity.
Defined.

(** ** Increment and decrement *)

Lemma hd_skipn_nth (b : list Z) (n : nat) : hd 0 (skipn n b) = nth n b 0.
Proof.
  revert b. induction n as [| n IH]; intros [| x b]; simpl; auto.
Qed.

(** A read of one byte at a non-negative offset yields the byte there. *)
Lemma readBytes_one (w : window) (c : Z) :
  0 <= c ->
  exists n, readBytes w c 1 = Ok (Some (n, [byteAt (buffer w) c])).
Proof.
  intros Hc. unfold readBytes, Buffer.ReadAt, byteAt. simpl.
  destruct (Z.ltb_spec c 0); [lia |].
  rewrite <- hd_skipn_nth.
  destruct (skipn (Z.to_nat c) (buffer w)) as [| x l]; simpl; eexists; reflexivity.
Qed.

Lemma byteAt_Replace (b : Buffer.t) (c v : Z) :
  0 <= c -> byteAt (Buffer.Replace b c v) c = v.
Proof.
  intros Hc. unfold byteAt, Buffer.Replace, Buffer.pad.
  destruct (Z.ltb_spec c 0); [lia |].
  set (n := Z.to_nat c).
  assert (Hn : List.length (firstn n (b ++ repeat 0 (n - List.length b))) = n).
  { rewrite length_firstn, length_app, repeat_length. lia. }
  rewrite app_nth2; rewrite Hn; [| lia].
  rewrite Nat.sub_diag. reflexivity.
Qed.

Lemma countByte_mod (count : Z) : countByte count = Z.max count 1 mod 256.
Proof.
  unfold countByte, byte_wrap, MaxInt64.
  rewrite Z.rem_mod_nonneg by lia. apply Z.mod_mod. lia.
Qed.

(** C7: [increment(count)] replaces the byte at the cursor by
    [(old + max(count,1) mod 256) mod 256] and [decrement(count)] by
    [(old - max(count,1) mod 256) mod 256], [old] being the byte read at the
    cursor; a window of length 0 gets length 1, any other keeps its length. *)
Theorem increment_decrement_wrap (w : window) (count : Z) :
  0 <= cursor w ->
  let old := byteAt (buffer w) (cursor w) in
  let k := Z.max count 1 mod 256 in
  (exists w',
      increment count w = Ok w' /\
      buffer w' = Buffer.Replace (buffer w) (cursor w) ((old + k) mod 256) /\
      byteAt (buffer w') (cursor w) = (old + k) mod 256 /\
      cursor w' = cursor w /\
      length w' = (if length w =? 0 then 1 else length w)) /\
  (exists w',
      decrement count w = Ok w' /\
      buffer w' = Buffer.Replace (buffer w) (cursor w) ((old - k) mod 256) /\
      byteAt (buffer w') (cursor w) = (old - k) mod 256 /\
      cursor w' = cursor w /\
      length w' = (if length w =? 0 then 1 else length w)).
Proof.
  intros Hc old k.
  destruct (readBytes_one w (cursor w) Hc) as (n & Hr).
  split.
  - unfold increment. rewrite Hr. cbv beta iota zeta delta [bind nth].
    rewrite countByte_mod. fold old k. unfold byte_wrap.
    eexists. split; [reflexivity |].
    destruct w as [b t pc h ht wd o c l st ap rb ex pe pb vs ft]; simpl in *.
    destruct (Z.eqb_spec l 0) as [-> |]; simpl;
      repeat split; try reflexivity; apply byteAt_Replace; assumption.
  - unfold decrement. rewrite Hr. cbv beta iota zeta delta [bind nth].
    rewrite countByte_mod. fold old k. unfold byte_wrap.
    eexists. split; [reflexivity |].
    destruct w as [b t pc h ht wd o c l st ap rb ex pe pb vs ft]; simpl in *.
    destruct (Z.eqb_spec l 0) as [-> |]; simpl;
      repeat split; try reflexivity; apply byteAt_Replace; assumption.
Qed.

Lemma increment_decrement_wrap_witness :
  (exists w',
      increment 1 (Examples.make [255] 4 2 0 0) = Ok w' /\
      buffer w' = [0] /\ length w' = 1) /\
  (exists w',
      decrement 1 (Examples.make [0] 4 2 0 0) = Ok w' /\
      buffer w' = [255] /\ length w' = 1) /\
  (exists w',
      increment 0 (Examples.make [] 4 2 0 0) = Ok w' /\
      buffer w' = [1] /\ length w' = 1).
Proof.
  pose proof (increment_decrement_wrap (Examples.make [255] 4 2 0 0) 1
                ltac:(simpl; lia)) as A.
  pose proof (increment_decrement_wrap (Examples.make [0] 4 2 0 0) 1
                ltac:(simpl; lia)) as B.
  pose proof (increment_decrement_wrap (Examples.make [] 4 2 0 0) 0
                ltac:(simpl; lia)) as C.
  cbv zeta in A, B, C.
  destruct A as ((a & Ha & Hab & _ & _ & Hal) & _).
  destruct B as (_ & (b & Hb & Hbb & _ & _ & Hbl)).
  destruct C as ((c & Hc & Hcb & _ & _ & Hcl) & _).
  split; [| split].
  - exists a. split; [exact Ha |]. split; [rewrite Hab | rewrite Hal]; reflexivity.
  - exists b. split; [exact Hb |]. split; [rewrite Hbb | rewrite Hbl]; reflexivity.
  - exists c. split; [exact Hc |]. split; [rewrite Hcb | rewrite Hcl]; reflexivity.
Defined.

(** ** Scrolling to the cursor *)

Lemma set_offset_same (w : window) : set_offset (offset w) w = w.
Proof. destruct w; reflexivity. Qed.

(** With a non-zero width the two scroll statements return, and write
    [offset] only. *)
Lemma scrollDownToCursor_offset (w : window) :
  width w <> 0 -> exists o, scrollDownToCursor w = Ok (set_offset o w).
Proof.
  intros Hw. unfold scrollDownToCursor.
  destruct (_ <=? _).
  - rewrite quo_ok by assumption. simpl. eexists. reflexivity.
  - exists (offset w). rewrite set_offset_same. reflexivity.
Qed.

Lemma scrollUpToCursor_offset (w : window) :
  width w <> 0 -> exists o, scrollUpToCursor w = Ok (set_offset o w).
Proof.
  intros Hw. unfold scrollUpToCursor.
  destruct (_ <? _).
  - rewrite quo_ok by assumption. simpl. eexists. reflexivity.
  - exists (offset w). rewrite set_offset_same. reflexivity.
Qed.

(** ** Nibble assembly *)

Lemma byteAt_Insert (b : Buffer.t) (c v : Z) :
  0 <= c -> byteAt (Buffer.Insert b c v) c = v.
Proof.
  intros Hc. unfold byteAt, Buffer.Insert, Buffer.pad.
  destruct (Z.ltb_spec c 0); [lia |].
  set (n := Z.to_nat c).
  assert (Hn : List.length (firstn n (b ++ repeat 0 (n - List.length b))) = n).
  { rewrite length_firstn, length_app, repeat_length. lia. }
  rewrite app_nth2; rewrite Hn; [| lia].
  rewrite Nat.sub_diag. reflexivity.
Qed.

Lemma Len_Insert (b : Buffer.t) (c v : Z) :
  0 <= c <= Buffer.Len b -> Buffer.Len (Buffer.Insert b c v) = Buffer.Len b + 1.
Proof.
  unfold Buffer.Len, Buffer.Insert, Buffer.pad. intros Hc.
  destruct (Z.ltb_spec c 0); [lia |].
  replace (Z.to_nat c - List.length b)%nat with O by lia.
  simpl. rewrite app_nil_r.
  rewrite length_app. simpl. rewrite length_firstn, length_skipn. lia.
Qed.

(** The first nibble of a pair is stashed in the high half of
    [pendingByte]. *)
Lemma insertByte_stash (m : Mode) (b : Z) (w : window) :
  pending w = false ->
  insertByte m b w
  = Ok (set_pendingByte (byte_wrap (Z.shiftl b 4)) (set_pending true w)).
Proof. intros Hp. unfold insertByte. rewrite Hp. reflexivity. Qed.

(** In Insert mode the second nibble inserts the byte at the cursor. *)
Lemma insertByte_commit (b : Z) (w : window) :
  pending w = true -> width w <> 0 ->
  exists o,
    insertByte Insert b w
    = Ok (set_pendingByte 0
            (set_pending false
               (set_offset o
                  (set_length (length w + 1)%i64
                     (set_cursor (cursor w + 1)%i64
                        (insert (cursor w) (Z.lor (pendingByte w) b) w)))))).
Proof.
  intros Hp Hw. unfold insertByte. rewrite Hp.
  cbv beta iota zeta delta [bind].
  match goal with
  | |- context [scrollDownToCursor ?x] =>
      destruct (scrollDownToCursor_offset x) as (o & Ho);
      [destruct w; exact Hw | rewrite Ho]
  end.
  exists o. destruct w; reflexivity.
Qed.

(** C3: in Insert mode, with no nibble pending and the focus on the hex
    side, the rune 'a' stashes the nibble and the rune 'f' then inserts the
    one byte 0xAF at the cursor: the cursor and the length grow by 1, the
    change counter by 1, and no nibble is pending. *)
Theorem insertRune_a_f (w : window) :
  pending w = false -> focusText w = false ->
  width w <> 0 -> 0 <= cursor w <= length w -> length w < Int64.max_int ->
  exists w1 w2,
    insertRune Insert 97 w = Ok w1 /\
    insertRune Insert 102 w1 = Ok w2 /\
    buffer w1 = buffer w /\ pending w1 = true /\
    buffer w2 = Buffer.Insert (buffer w) (cursor w) 175 /\
    byteAt (buffer w2) (cursor w) = 175 /\
    cursor w2 = cursor w + 1 /\
    length w2 = length w + 1 /\
    changedTick w2 = (changedTick w + 1) mod 2 ^ 64 /\
    pending w2 = false /\ pendingByte w2 = 0.
Proof.
  intros Hp Hf Hw Hc Hl.
  unfold insertRune. rewrite Hf.
  change (Mode_eqb Insert Insert || Mode_eqb Insert Replace) with true.
  cbv beta iota.
  change ((48 <=? 97) && (97 <=? 57)) with false.
  change ((97 <=? 97) && (97 <=? 102)) with true.
  change ((48 <=? 102) && (102 <=? 57)) with false.
  change ((97 <=? 102) && (102 <=? 102)) with true.
  cbv beta iota.
  rewrite (insertByte_stash Insert _ w Hp).
  set (w1 := set_pendingByte _ (set_pending true w)).
  assert (Hf1 : focusText w1 = false) by (destruct w; exact Hf).
  destruct (insertByte_commit (byte_wrap (102 - 97 + 10)) w1) as (o & Ho).
  { destruct w; reflexivity. }
  { destruct w; exact Hw. }
  exists w1. eexists. rewrite Hf1.
  split; [reflexivity |]. split; [exact Ho |].
  destruct w as [b t pc h ht wd o0 c l st ap rb ex pe pb vs ft]; simpl in *.
  repeat split; try reflexivity.
  - apply byteAt_Insert. lia.
  - unwrap. reflexivity.
  - unwrap. reflexivity.
Qed.

Lemma insertRune_a_f_witness :
  exists w1 w2,
    insertRune Insert 97 Examples.ten = Ok w1 /\
    insertRune Insert 102 w1 = Ok w2 /\
    buffer w2 = [175; 1; 2; 3; 4; 5; 6; 7; 8; 9; 10] /\
    cursor w2 = 1 /\ length w2 = 11 /\ pending w2 = false.
Proof.
  destruct (insertRune_a_f Examples.ten eq_refl eq_refl)
    as (w1 & w2 & H1 & H2 & _ & _ & Hb & _ & Hc & Hl & _ & Hp & _).
  - simpl. lia.
  - cbn. unfold Buffer.Len. cbn. lia.
  - cbn. unfold Buffer.Len. cbn. i64_consts. lia.
  - exists w1, w2.
    split; [exact H1 |]. split; [exact H2 |].
    split; [rewrite Hb; reflexivity |].
    split; [exact Hc |]. split; [exact Hl | exact Hp].
Defined.

(** ** The virtual trailing slot *)

(** Decide the test of a conditional of the goal. *)
Ltac case_if :=
  match goal with
  | |- context [if ?a <? ?b then _ else _] => destruct (Z.ltb_spec a b)
  | |- context [if ?a <=? ?b then _ else _] => destruct (Z.leb_spec a b)
  | |- context [if ?a =? ?b then _ else _] => destruct (Z.eqb_spec a b)
  | |- context [if ?c then _ else _] => destruct c eqn:?
  end.

(** Entering insert and leaving it at once restores [length] and [cursor],
    wherever the cursor is; at the end of the content the entry opens the
    slot. *)
Lemma startInsert_exitInsert (w : window) :
  0 <= cursor w < Z.max (length w) 1 -> 0 <= length w < Int64.max_int ->
  exists w1,
    startInsert w = Ok w1 /\
    length (exitInsert w1) = length w /\ cursor (exitInsert w1) = cursor w /\
    (cursor w = length w -> opensSlot w w1).
Proof.
  intros Hc Hl. unfold startInsert. eexists. split; [reflexivity |].
  destruct w as [b t pc h ht wd o0 c l st ap rb ex pe pb vs ft]; simpl in *.
  unfold opensSlot, exitInsert, openSlot.
  repeat (case_if; simpl in *; unwrap); repeat split;
    try reflexivity; try (unwrap; i64_consts; lia).
Qed.

(** The same for append, which first steps past the cursor. *)
Lemma startAppend_exitInsert (w : window) :
  width w <> 0 ->
  0 <= cursor w < Z.max (length w) 1 -> 0 <= length w < Int64.max_int ->
  exists w1,
    startAppend w = Ok w1 /\
    length (exitInsert w1) = length w /\ cursor (exitInsert w1) = cursor w /\
    (cursor w = Z.max (length w) 1 - 1 -> opensSlot w w1).
Proof.
  intros Hw Hc Hl. unfold startAppend.
  cbv beta zeta.
  match goal with
  | |- context [scrollDownToCursor ?x] =>
      destruct (scrollDownToCursor_offset x) as (o & Ho);
      [| rewrite Ho]
  end.
  { destruct w; simpl in *. repeat case_if; simpl; assumption. }
  eexists. split; [reflexivity |].
  destruct w as [b t pc h ht wd o0 c l st ap rb ex pe pb vs ft]; simpl in *.
  unfold opensSlot, exitInsert.
  repeat (case_if; simpl in *; unwrap); repeat split;
    try reflexivity; try (unwrap; i64_consts; lia).
Qed.

(** C2: with the cursor at the end of the content, entering insert or
    append opens the virtual trailing slot ([length] grows by 1), and leaving
    insert with no byte committed restores [length] and [cursor].  For
    insert the end of the content is [cursor = length], which a cursor below
    [max(length,1)] reaches on empty content only; for append it is the last
    byte. *)
Theorem slot_reversible (w : window) :
  width w <> 0 ->
  0 <= cursor w < Z.max (length w) 1 ->
  0 <= length w < Int64.max_int ->
  (cursor w = length w ->
   exists w1,
     startInsert w = Ok w1 /\ opensSlot w w1 /\
     length (exitInsert w1) = length w /\ cursor (exitInsert w1) = cursor w) /\
  (cursor w = Z.max (length w) 1 - 1 ->
   exists w1,
     startAppend w = Ok w1 /\ opensSlot w w1 /\
     length (exitInsert w1) = length w /\ cursor (exitInsert w1) = cursor w).
Proof.
  intros Hw Hc Hl. split; intros He.
  - destruct (startInsert_exitInsert w Hc Hl) as (w1 & H1 & H2 & H3 & H4).
    exists w1. auto.
  - destruct (startAppend_exitInsert w Hw Hc Hl) as (w1 & H1 & H2 & H3 & H4).
    exists w1. auto.
Qed.

Lemma slot_reversible_witness :
  (exists w1,
      startInsert (Examples.make [] 4 2 0 0) = Ok w1 /\ length w1 = 1 /\
      length (exitInsert w1) = 0 /\ cursor (exitInsert w1) = 0) /\
  (exists w1,
      startAppend (Examples.make [1; 2; 3] 4 2 0 2) = Ok w1 /\ length w1 = 4 /\
      length (exitInsert w1) = 3 /\ cursor (exitInsert w1) = 2).
Proof.
  assert (F : forall b c, 0 <= c < Z.max (Buffer.Len b) 1 ->
            Buffer.Len b < 100 ->
            width (Examples.make b 4 2 0 c) <> 0 /\
            0 <= cursor (Examples.make b 4 2 0 c)
              < Z.max (length (Examples.make b 4 2 0 c)) 1 /\
            0 <= length (Examples.make b 4 2 0 c) < Int64.max_int).
  { intros b c Hc Hb. simpl. unfold Buffer.Len in *. i64_consts. lia. }
  split.
  - destruct (F [] 0) as (Hw & Hc & Hl); [cbn; lia | cbn; lia |].
    destruct (slot_reversible _ Hw Hc Hl) as (A & _).
    destruct (A eq_refl) as (w1 & H1 & (_ & _ & H2) & H3 & H4).
    exists w1. auto.
  - destruct (F [1; 2; 3] 2) as (Hw & Hc & Hl); [cbn; lia | cbn; lia |].
    destruct (slot_reversible _ Hw Hc Hl) as (_ & A).
    destruct (A eq_refl) as (w1 & H1 & (_ & _ & H2) & H3 & H4).
    exists w1. auto.
Defined.

(** ** Search *)

Lemma has_match_nil (sep : list Z) :
  has_match [] sep <-> HasPrefix [] sep = true.
Proof.
  split.
  - intros ([| i] & Hi & Hp); [exact Hp | simpl in Hi; lia].
  - intros Hp. exists O. split; [simpl; lia | exact Hp].
Qed.

Lemma has_match_cons (x : Z) (s sep : list Z) :
  has_match (x :: s) sep <-> HasPrefix (x :: s) sep = true \/ has_match s sep.
Proof.
  split.
  - intros ([| i] & Hi & Hp).
    + left. exact Hp.
    + right. exists i. split; [simpl in Hi; lia | exact Hp].
  - intros [Hp | (i & Hi & Hp)].
    + exists O. split; [simpl; lia | exact Hp].
    + exists (S i). split; [simpl; lia | exact Hp].
Qed.

(** [Index] finds a match exactly when there is one. *)
Lemma Index_from_spec (s sep : list Z) (i : Z) :
  0 <= i ->
  (has_match s sep -> i <= Index_from s sep i) /\
  (~ has_match s sep -> Index_from s sep i = -1).
Proof.
  revert i. induction s as [| x s IH]; intros i Hi.
  - rewrite has_match_nil.
    destruct sep; simpl; split; intros H;
      try reflexivity; try lia; try discriminate; exfalso; auto.
  - rewrite has_match_cons.
    change (Index_from (x :: s) sep i)
      with (if HasPrefix (x :: s) sep then i else Index_from s sep (i + 1)).
    destruct (IH (i + 1) ltac:(lia)) as (IH1 & IH2).
    destruct (HasPrefix (x :: s) sep); split; intros H.
    + lia.
    + exfalso. auto.
    + destruct H as [H | H]; [discriminate |]. specialize (IH1 H). lia.
    + apply IH2. intros Hm. apply H. right. exact Hm.
Qed.

Lemma Index_no_match (s sep : list Z) : ~ has_match s sep -> Index s sep = -1.
Proof. intros H. apply (Index_from_spec s sep 0); [lia | exact H]. Qed.

Lemma Index_match (s sep : list Z) : has_match s sep -> 0 <= Index s sep.
Proof. intros H. apply (Index_from_spec s sep 0); [lia | exact H]. Qed.

Lemma has_match_dec (s sep : list Z) : has_match s sep \/ ~ has_match s sep.
Proof.
  induction s as [| x s IH].
  - rewrite has_match_nil. destruct sep; simpl; [left | right]; congruence.
  - rewrite has_match_cons.
    destruct (HasPrefix (x :: s) sep); [left; left; reflexivity |].
    destruct IH as [IH | IH]; [left; right; exact IH |].
    right. intros [H | H]; [discriminate | contradiction].
Qed.

(** So does [LastIndex]. *)
Lemma LastIndex_from_spec (s sep : list Z) (i : Z) :
  0 <= i ->
  (has_match s sep -> i <= LastIndex_from s sep i) /\
  (~ has_match s sep -> LastIndex_from s sep i = -1).
Proof.
  revert i. induction s as [| x s IH]; intros i Hi.
  - rewrite has_match_nil.
    destruct sep; simpl; split; intros H;
      try reflexivity; try lia; try discriminate; exfalso; auto.
  - rewrite has_match_cons.
    change (LastIndex_from (x :: s) sep i)
      with (let r := LastIndex_from s sep (i + 1) in
            if 0 <=? r then r
            else if HasPrefix (x :: s) sep then i else -1).
    cbv zeta.
    destruct (IH (i + 1) ltac:(lia)) as (IH1 & IH2).
    destruct (Z.leb_spec 0 (LastIndex_from s sep (i + 1))) as [Hr | Hr].
    + assert (Hm : has_match s sep).
      { destruct (has_match_dec s sep) as [Hm | Hm]; [exact Hm |].
        rewrite (IH2 Hm) in Hr. lia. }
      split; intros H.
      * specialize (IH1 Hm). lia.
      * exfalso. apply H. right. exact Hm.
    + assert (Hm : ~ has_match s sep).
      { intros Hm. specialize (IH1 Hm). lia. }
      destruct (HasPrefix (x :: s) sep); split; intros H.
      * lia.
      * exfalso. auto.
      * destruct H as [H | H]; [discriminate | contradiction].
      * reflexivity.
Qed.

Lemma LastIndex_no_match (s sep : list Z) :
  ~ has_match s sep -> LastIndex s sep = -1.
Proof. intros H. apply (LastIndex_from_spec s sep 0); [lia | exact H]. Qed.

Lemma LastIndex_match (s sep : list Z) : has_match s sep -> 0 <= LastIndex s sep.
Proof. intros H. apply (LastIndex_from_spec s sep 0); [lia | exact H]. Qed.

(** A read at a non-negative offset fills its destination with the window
    of the content there. *)
Lemma readBytes_window (w : window) (start size : Z) :
  0 <= start -> 0 <= size ->
  exists n, readBytes w start size = Ok (Some (n, window_bytes (buffer w) start size)).
Proof.
  intros Hs Hz. unfold readBytes, Buffer.ReadAt, window_bytes.
  destruct (Z.ltb_spec size 0); [lia |].
  destruct (Z.ltb_spec start 0); [lia |].
  eexists. reflexivity.
Qed.

(** Where the products fit in 64 bits, the size that the code computes is
    the exact one. *)
Lemma searchSize_exact (w : window) (str : list Z) :
  Int64.in_range (height w * width w * 50) ->
  Z.of_nat (List.length str) * 500 <= Int64.max_int ->
  searchSize w str = scanSize w str /\ 0 <= scanSize w str <= Int64.max_int.
Proof.
  intros Hhw Hs. unfold searchSize, scanSize, MaxInt, Int64.mul.
  set (x := height w * width w) in *.
  assert (Hx : Int64.in_range x) by (i64_consts; lia).
  rewrite (wrap_small x) by exact Hx.
  rewrite (wrap_small (x * 50)) by exact Hhw.
  rewrite wrap_small by (i64_consts; lia).
  split; [reflexivity | i64_consts; lia].
Qed.

(** A search whose pattern has no match in the bytes that it scans leaves
    the window as it was.  The bytes scanned are those of the destination of
    the read: the content within the window (forward: from one byte after
    the cursor; backward: up to the cursor; of
    [max(height*width*50, len(pattern)*500)] bytes at most), and zeros where
    the content has ended, since the number of bytes read is dropped. *)
Lemma search_no_match (forward : bool) (w : window) (str : list Z) :
  0 <= cursor w < Int64.max_int ->
  Int64.in_range (height w * width w * 50) ->
  Z.of_nat (List.length str) * 500 <= Int64.max_int ->
  ~ has_match (scanWindow forward w str) str ->
  search str forward w = Ok w.
Proof.
  intros Hc Hhw Hs Hm.
  destruct (searchSize_exact w str Hhw Hs) as (Hsz & Hz).
  unfold search. destruct forward; simpl in Hm.
  - unfold searchForward. cbv zeta. rewrite Hsz.
    assert (Hb : (cursor w + 1)%i64 = cursor w + 1) by (unwrap; reflexivity).
    rewrite Hb.
    destruct (readBytes_window w (cursor w + 1) (scanSize w str)) as (n & Hr);
      [lia | lia |].
    rewrite Hr. cbv beta iota delta [bind].
    fold (forwardWindow w str).
    rewrite (Index_no_match _ _ Hm). reflexivity.
  - unfold searchBackward. cbv zeta. rewrite Hsz.
    assert (Hb : (cursor w - scanSize w str)%i64 = cursor w - scanSize w str)
      by (unwrap; reflexivity).
    rewrite Hb. unfold MaxInt64, MinInt64.
    destruct (readBytes_window w (Z.max 0 (cursor w - scanSize w str))
                (Z.min (scanSize w str) (cursor w))) as (n & Hr); [lia | lia |].
    rewrite Hr. cbv beta iota delta [bind].
    fold (backwardWindow w str).
    rewrite (LastIndex_no_match _ _ Hm). reflexivity.
Qed.

(** The zeros past the end of the content match no pattern without a NUL
    byte. *)
Lemma HasPrefix_zeros (s sep : list Z) (k : nat) :
  Forall (fun c => c <> 0) sep ->
  HasPrefix (s ++ repeat 0 k) sep = true -> HasPrefix s sep = true.
Proof.
  intros Hsep. revert s. induction Hsep as [| c sep Hc Hsep IH]; intros s H.
  - destruct s; reflexivity.
  - destruct s as [| x s].
    + destruct k as [| k]; simpl in H; [discriminate H |].
      destruct c; simpl in H; try discriminate H.
      exfalso. apply Hc. reflexivity.
    + simpl in H. apply andb_prop in H. destruct H as [Hx H].
      simpl. rewrite Hx. apply IH. exact H.
Qed.

Lemma skipn_zeros (m k : nat) : skipn m (repeat 0 k) = repeat 0 (k - m).
Proof.
  revert k. induction m as [| m IH]; intros k.
  - rewrite Nat.sub_0_r. reflexivity.
  - destruct k as [| k]; [reflexivity | apply IH].
Qed.

Lemma has_match_zeros (s sep : list Z) (k : nat) :
  Forall (fun c => c <> 0) sep ->
  has_match (s ++ repeat 0 k) sep -> has_match s sep.
Proof.
  intros Hsep (i & Hi & Hp).
  destruct (Nat.le_gt_cases i (List.length s)) as [Hle | Hgt].
  - exists i. split; [exact Hle |].
    rewrite skipn_app in Hp.
    replace (i - List.length s)%nat with O in Hp by lia.
    apply (HasPrefix_zeros _ _ k Hsep). exact Hp.
  - exists (List.length s). split; [lia |].
    rewrite skipn_all.
    rewrite skipn_app, skipn_all2 in Hp by lia.
    rewrite skipn_zeros in Hp.
    apply (HasPrefix_zeros [] sep (k - (i - List.length s)) Hsep). exact Hp.
Qed.

(** A pattern without a NUL byte that has no match in the content within
    the window leaves the window as it was. *)
Lemma search_no_match_content (forward : bool) (w : window) (str : list Z) :
  0 <= cursor w < Int64.max_int ->
  Int64.in_range (height w * width w * 50) ->
  Z.of_nat (List.length str) * 500 <= Int64.max_int ->
  Forall (fun c => c <> 0) str ->
  ~ has_match (scanContent forward w str) str ->
  search str forward w = Ok w.
Proof.
  intros Hc Hhw Hs Hz Hm. apply search_no_match; try assumption.
  intros H. apply Hm.
  destruct forward; unfold scanWindow, forwardWindow, backwardWindow, window_bytes in H;
    cbv zeta in H; apply (has_match_zeros _ _ _ Hz) in H; exact H.
Qed.

(** C5: the forward search does not keep the property.  On the three bytes
    1 2 3 with the cursor at 0, a pattern of three NUL bytes has no match in
    the content after the cursor, and the search moves the cursor to 3, the
    length of the content: [searchForward] drops the number of bytes read, so
    that [bytes.Index] finds the pattern in the zeros that [make] left in the
    destination of the read. *)
Theorem searchForward_matches_padding :
  ~ has_match (scanContent true Examples.three [0; 0; 0]) [0; 0; 0] /\
  (exists w',
      search [0; 0; 0] true Examples.three = Ok w' /\
      cursor w' = 3 /\ length w' = 3 /\ offset w' = 0) /\
  ~ no_match_no_move true Examples.three [0; 0; 0].
Proof.
  assert (Hno : ~ has_match (scanContent true Examples.three [0; 0; 0]) [0; 0; 0]).
  { intros (i & Hi & Hp).
    change (scanContent true Examples.three [0; 0; 0]) with [2; 3] in Hi, Hp.
    destruct i as [| [| [| i]]]; simpl in Hi, Hp; try discriminate Hp; lia. }
  split; [exact Hno |]. split.
  - eexists. split; [vm_compute; reflexivity |]. repeat split; reflexivity.
  - intros H. destruct (H Hno) as (w' & Hs & Hcur & _).
    assert (E : search [0; 0; 0] true Examples.three
                = Ok (set_cursor 3 Examples.three)) by (vm_compute; reflexivity).
    rewrite E in Hs. injection Hs as <-. discriminate Hcur.
Qed.

(** ** The jump to an offset written in the content *)

Lemma scanForward_spec (p : Z -> bool) (bytes : list Z) (fuel i : nat) :
  (i <= scanForward p bytes i fuel <= i + fuel)%nat /\
  (forall t, (i <= t < scanForward p bytes i fuel)%nat ->
             p (nth t bytes 0) = true) /\
  ((scanForward p bytes i fuel < i + fuel)%nat ->
   p (nth (scanForward p bytes i fuel) bytes 0) = false).
Proof.
  revert i. induction fuel as [| fuel IH]; intros i; simpl.
  - repeat split; intros; lia.
  - destruct (p (nth i bytes 0)) eqn:Hp.
    + destruct (IH (S i)) as (H1 & H2 & H3). repeat split; try lia.
      * intros t Ht. destruct (Nat.eq_dec t i) as [-> | Hne]; [exact Hp |].
        apply H2. lia.
      * intros Hlt. apply H3. lia.
    + repeat split; try lia. intros _. exact Hp.
Qed.

Lemma scanForward_unique (p : Z -> bool) (bytes : list Z) (fuel i k : nat) :
  (i <= k <= i + fuel)%nat ->
  (forall t, (i <= t < k)%nat -> p (nth t bytes 0) = true) ->
  ((k < i + fuel)%nat -> p (nth k bytes 0) = false) ->
  scanForward p bytes i fuel = k.
Proof.
  revert i. induction fuel as [| fuel IH]; intros i Hk Hall Hend; simpl.
  - lia.
  - destruct (Nat.eq_dec i k) as [-> | Hne].
    + rewrite Hend by lia. reflexivity.
    + rewrite (Hall i) by lia. apply IH; [lia | | ].
      * intros t Ht. apply Hall. lia.
      * intros Hlt. apply Hend. lia.
Qed.

Lemma scanBackward_spec (bytes : list Z) (k : nat) :
  (scanBackward bytes k <= k)%nat /\
  (forall t, (scanBackward bytes k <= t < k)%nat ->
             isDigit (nth t bytes 0) = true) /\
  (scanBackward bytes k = O \/
   isDigit (nth (scanBackward bytes k - 1) bytes 0) = false).
Proof.
  induction k as [| k IH]; simpl.
  - repeat split; try lia.
  - destruct (isDigit (nth k bytes 0)) eqn:Hd.
    + destruct IH as (H1 & H2 & H3). repeat split; try lia; [| exact H3].
      intros t Ht. destruct (Nat.eq_dec t k) as [-> | Hne]; [exact Hd |].
      apply H2. lia.
    + repeat split; try lia. right. simpl. rewrite Nat.sub_0_r. exact Hd.
Qed.

Lemma scanBackward_unique (bytes : list Z) (k i : nat) :
  (i <= k)%nat ->
  (forall t, (i <= t < k)%nat -> isDigit (nth t bytes 0) = true) ->
  (i = O \/ isDigit (nth (i - 1) bytes 0) = false) ->
  scanBackward bytes k = i.
Proof.
  induction k as [| k IH]; intros Hk Hall Hend; simpl.
  - lia.
  - destruct (Nat.eq_dec i (S k)) as [-> | Hne].
    + destruct Hend as [Hend | Hend]; [discriminate |].
      simpl in Hend. rewrite Nat.sub_0_r in Hend. rewrite Hend. reflexivity.
    + rewrite (Hall k) by lia. apply IH; [lia | | exact Hend].
      intros t Ht. apply Hall. lia.
Qed.

Lemma digit_not_white (b : Z) : isDigit b = true -> isWhite b = false.
Proof.
  unfold isDigit, isWhite. intros H.
  apply andb_true_iff in H. destruct H as (H1 & H2).
  apply Z.leb_le in H1. apply Z.leb_le in H2.
  repeat (apply orb_false_iff; split); apply Z.eqb_neq; lia.
Qed.

(** The scan of [jumpTo] finds the complete digit run next to the middle of
    the window, and nothing else. *)
Lemma findDigits_spec (bytes : list Z) (i j : nat) :
  findDigits bytes = Some (i, j) <-> digitRun bytes i j.
Proof.
  unfold findDigits.
  change (2 * jump_s - jump_s)%nat with 50%nat.
  change (2 * jump_s)%nat with 100%nat.
  change jump_s with 50%nat.
  split.
  - destruct (scanForward_spec isWhite bytes 50 50) as (K1 & K2 & K3).
    set (k := scanForward isWhite bytes 50 50) in *.
    destruct (Nat.eqb_spec k 100) as [| Hk];
      [rewrite orb_true_l; intros E; discriminate E | rewrite orb_false_l].
    destruct (isDigit (nth k bytes 0)) eqn:Hd; [| intros E; discriminate E].
    cbv beta iota delta [negb].
    destruct (scanBackward_spec bytes k) as (B1 & B2 & B3).
    set (i0 := scanBackward bytes k) in *.
    destruct (scanForward_spec isDigit bytes (100 - i0) i0) as (J1 & J2 & J3).
    set (j0 := scanForward isDigit bytes i0 (100 - i0)) in *.
    destruct (Nat.eqb_spec j0 100) as [| Hj]; [intros E; discriminate E |].
    intros E. injection E as <- <-.
    assert (Hkj : (k < j0)%nat).
    { destruct (Nat.lt_ge_cases k j0) as [| Hge]; [assumption |].
      assert (Hf : isDigit (nth j0 bytes 0) = false) by (apply J3; lia).
      destruct (Nat.eq_dec j0 k) as [E | Hne]; [congruence |].
      rewrite B2 in Hf by lia. discriminate. }
    exists k.
    split; [lia |]. split; [exact K2 |]. split; [lia |]. split; [lia |].
    split; [exact J2 |]. split; [exact B3 |]. apply J3. lia.
  - intros (k & Hk & Hwhite & Hik & Hj & Hdig & Hi & Hend).
    assert (Hkd : isDigit (nth k bytes 0) = true) by (apply Hdig; lia).
    rewrite (scanForward_unique isWhite bytes 50 50 k); [| lia | exact Hwhite |].
    2: { intros _. apply digit_not_white. exact Hkd. }
    destruct (Nat.eqb_spec k 100) as [| _]; [lia |].
    rewrite Hkd. cbv beta iota delta [negb orb].
    rewrite (scanBackward_unique bytes k i); [| lia | | exact Hi].
    2: { intros t Ht. apply Hdig. lia. }
    rewrite (scanForward_unique isDigit bytes (100 - i) i j); [| lia | exact Hdig |].
    2: { intros _. exact Hend. }
    destruct (Nat.eqb_spec j 100) as [| _]; [lia | reflexivity].
Qed.

(** C6, as the code has it: with the cursor at 50 or beyond, so that the
    middle of the window read is the cursor, a complete digit run next to
    the cursor whose value [v] has [0 < v < length] makes [jumpTo] push the
    position it leaves, move the cursor to [v] and put the viewport a third
    of the height above the row of [v]. *)
Theorem jumpTo_positive_offset (w : window) (i j : nat) :
  0 < width w -> 0 < height w -> height w * width w <= Int64.max_int ->
  50 <= cursor w <= Int64.max_int -> length w <= Int64.max_int ->
  digitRun (jumpWindow w) i j ->
  0 < ParseInt (slice (jumpWindow w) i j) < length w ->
  jumpsTo w (ParseInt (slice (jumpWindow w) i j)).
Proof.
  intros Hw Hh Hhw Hc Hl Hrun Hv.
  set (v := ParseInt (slice (jumpWindow w) i j)) in *.
  unfold jumpsTo, jumpTo.
  change (Z.of_nat jump_s) with 50. change (Z.of_nat (2 * jump_s)) with 100.
  assert (Hb : (cursor w - 50)%i64 = cursor w - 50) by (unwrap; reflexivity).
  rewrite Hb. unfold MaxInt64.
  destruct (readBytes_window w (Z.max (cursor w - 50) 0) 100) as (n & Hr);
    [lia | lia |].
  rewrite Hr. fold (jumpWindow w).
  cbv beta iota delta [bind].
  apply findDigits_spec in Hrun. rewrite Hrun. fold v.
  destruct (Z.leb_spec v 0); [lia |].
  destruct (Z.leb_spec (length w) v); [lia |].
  cbv beta iota zeta delta [orb].
  assert (Hwd : forall x, width (set_cursor v (set_stack x w)) = width w)
    by (intros; destruct w; reflexivity).
  assert (Hht : forall x, height (set_cursor v (set_stack x w)) = height w)
    by (intros; destruct w; reflexivity).
  rewrite Hwd, Hht.
  rewrite rem_ok by lia. cbv beta iota delta [bind].
  unfold Int64.quo. change (3 =? 0) with false. cbv beta iota.
  rewrite Z.rem_mod_nonneg by lia.
  rewrite Z.quot_div_nonneg by lia.
  pose proof (Z.mod_pos_bound v (width w) Hw) as Hm.
  pose proof (Z.mod_le v (width w) ltac:(lia) Hw) as Hm'.
  assert (Hq : 0 <= height w / 3 <= height w).
  { split; [apply Z.div_pos; lia |].
    apply Z.div_le_upper_bound; lia. }
  assert (Hp : 0 <= height w / 3 * width w <= height w * width w).
  { split; [apply Z.mul_nonneg_nonneg; lia |].
    apply Z.mul_le_mono_nonneg_r; lia. }
  rewrite (wrap_small (height w / 3)) by (i64_consts; lia).
  rewrite (Z.max_l (height w / 3) 0) by lia.
  eexists. split; [reflexivity |].
  clearbody v. clear Hrun Hr.
  destruct w as [b t pc h ht wd o c l st ap rb ex pe pb vs ft]; simpl in *.
  repeat split.
  unfold Int64.sub, Int64.mul.
  rewrite (wrap_small (ht / 3 * wd)) by (i64_consts; lia).
  rewrite (wrap_small (v - v mod wd)) by (i64_consts; lia).
  rewrite wrap_small by (i64_consts; lia).
  reflexivity.
Qed.

Lemma jumpTo_positive_offset_witness :
  exists w',
    jumpTo Examples.ref173 = Ok w' /\
    stack w' = [mkPosition 50 0] /\ cursor w' = 173 /\ offset w' = 112.
Proof.
  assert (Hrun : digitRun (jumpWindow Examples.ref173) 50 53)
    by (apply findDigits_spec; vm_compute; reflexivity).
  destruct (jumpTo_positive_offset Examples.ref173 50 53) as (w' & Hj & Hs & Hc & Ho).
  - simpl. lia.
  - simpl. lia.
  - simpl. i64_consts. lia.
  - simpl. i64_consts. lia.
  - vm_compute. intros E. discriminate E.
  - exact Hrun.
  - vm_compute. split; reflexivity.
  - exists w'. split; [exact Hj |]. split; [exact Hs |]. split; [exact Hc | exact Ho].
Defined.

(** The property as stated fails on a reference to offset 0: the run "0" is
    complete and its value is below [length], yet [jumpTo] leaves the
    window as it is. *)
Lemma jumpTo_any_offset_counterexample : ~ jumpTo_any_offset Examples.zeroRef.
Proof.
  intros H. specialize (H 50%nat 51%nat).
  assert (Hrun : digitRun (jumpWindow Examples.zeroRef) 50 51)
    by (apply findDigits_spec; vm_compute; reflexivity).
  assert (Hv : ParseInt (slice (jumpWindow Examples.zeroRef) 50 51)
               < length Examples.zeroRef) by (vm_compute; reflexivity).
  destruct (H Hrun Hv) as (w' & Hj & Hs & _).
  assert (Hsame : jumpTo Examples.zeroRef = Ok Examples.zeroRef)
    by (vm_compute; reflexivity).
  rewrite Hsame in Hj. injection Hj as <-.
  vm_compute in Hs. discriminate Hs.
Qed.

(** ** Checkpoints *)

Lemma edits_refl (n : nat) (w : window) : edits n w w.
Proof.
  unfold edits. repeat split. exists O. repeat split. lia.
Qed.

Lemma edits_weaken (n m : nat) (w w1 : window) :
  (n <= m)%nat -> edits n w w1 -> edits m w w1.
Proof.
  intros Hnm (A & B & k & Hk & C & D). repeat split; try assumption.
  exists k. repeat split; try assumption. lia.
Qed.

Lemma edits_if (n : nat) (w : window) (c : bool) (a b : window) :
  edits n w a -> edits n w b -> edits n w (if c then a else b).
Proof. destruct c; auto. Qed.

Lemma edits_let (n : nat) (w : window) (e : window) (body : window -> window) :
  edits n w e -> (forall w0, edits n w w0 -> edits n w (body w0)) ->
  edits n w (let w0 := e in body w0).
Proof. intros He Hb. apply Hb. exact He. Qed.

Lemma editsR_Ok (n : nat) (w w1 : window) : edits n w w1 -> editsR n w (Ok w1).
Proof. intros H x E. injection E as <-. exact H. Qed.

Lemma editsR_Panic (n : nat) (w : window) : editsR n w Panic.
Proof. intros x E. discriminate E. Qed.

Lemma editsR_if (n : nat) (w : window) (c : bool) (a b : result window) :
  editsR n w a -> editsR n w b -> editsR n w (if c then a else b).
Proof. destruct c; auto. Qed.

Lemma editsR_bind {A : Type} (n : nat) (w : window) (r : result A)
      (k : A -> result window) :
  (forall a, editsR n w (k a)) -> editsR n w (bind r k).
Proof.
  intros H. destruct r as [a |]; simpl; [apply H | apply editsR_Panic].
Qed.

Lemma editsR_bind_window (n : nat) (w : window) (r : result window)
      (k : window -> result window) :
  editsR n w r -> (forall w0, edits n w w0 -> editsR n w (k w0)) ->
  editsR n w (bind r k).
Proof.
  intros Hr Hk. destruct r as [a |]; simpl; [| apply editsR_Panic].
  apply Hk. apply Hr. reflexivity.
Qed.

Lemma editsR_let (n : nat) (w : window) (e : window) (body : window -> result window) :
  edits n w e -> (forall w0, edits n w w0 -> editsR n w (body w0)) ->
  editsR n w (let w0 := e in body w0).
Proof. intros He Hb. apply Hb. exact He. Qed.

Lemma editsR_let_Z (n : nat) (w : window) (e : Z) (body : Z -> result window) :
  (forall z, editsR n w (body z)) -> editsR n w (let z := e in body z).
Proof. intros Hb. apply Hb. Qed.

(** The setters of the fields that [edits] does not read. *)
Lemma edits_set (n : nat) (w w1 : window) :
  edits n w w1 ->
  (forall v, edits n w (set_height v w1)) /\
  (forall v, edits n w (set_width v w1)) /\
  (forall v, edits n w (set_offset v w1)) /\
  (forall v, edits n w (set_cursor v w1)) /\
  (forall v, edits n w (set_length v w1)) /\
  (forall v, edits n w (set_stack v w1)) /\
  (forall v, edits n w (set_append v w1)) /\
  (forall v, edits n w (set_replaceByte v w1)) /\
  (forall v, edits n w (set_extending v w1)) /\
  (forall v, edits n w (set_pending v w1)) /\
  (forall v, edits n w (set_pendingByte v w1)) /\
  (forall v, edits n w (set_visualStart v w1)) /\
  (forall v, edits n w (set_focusText v w1)).
Proof. intros H. repeat split; intros; apply H. Qed.

(** A call of [insert], [replace] or [delete], and the increment of
    [SwitchFocus], advance the counter once. *)
Lemma edits_tick (n : nat) (w w1 : window) :
  edits n w w1 -> edits (S n) w (tick w1).
Proof.
  intros (A & B & k & Hk & C & D). unfold edits, tick. simpl.
  repeat split; try assumption.
  exists (S k). repeat split; [lia | | discriminate].
  simpl. rewrite C. reflexivity.
Qed.

Lemma edits_set_buffer_tick (n : nat) (w w1 : window) (b : Buffer.t) :
  edits n w w1 -> edits (S n) w (tick (set_buffer b w1)).
Proof.
  intros (A & B & k & Hk & C & D). unfold edits, tick. simpl.
  repeat split; try assumption.
  exists (S k). repeat split; [lia | | discriminate].
  simpl. rewrite C. reflexivity.
Qed.

(** Decompose a goal [editsR n w r] or [edits n w e] along the syntax of
    the computation. *)
Ltac edits_step :=
  match goal with
  | H : edits ?n ?w ?x |- edits ?n ?w ?x => exact H
  | |- edits _ ?w ?w => apply edits_refl
  | H : edits ?n ?w ?x |- edits (S ?n) ?w ?x =>
      apply (edits_weaken n (S n)); [lia | exact H]
  | |- edits (S _) _ (insert _ _ _) => unfold insert; apply edits_set_buffer_tick
  | |- edits (S _) _ (replace _ _ _) => unfold replace; apply edits_set_buffer_tick
  | |- edits (S _) _ (delete _ _) => unfold delete; apply edits_set_buffer_tick
  | |- edits (S _) _ (tick _) => apply edits_tick
  | |- edits _ _ (set_height _ _) => apply edits_set
  | |- edits _ _ (set_width _ _) => apply edits_set
  | |- edits _ _ (set_offset _ _) => apply edits_set
  | |- edits _ _ (set_cursor _ _) => apply edits_set
  | |- edits _ _ (set_length _ _) => apply edits_set
  | |- edits _ _ (set_stack _ _) => apply edits_set
  | |- edits _ _ (set_append _ _) => apply edits_set
  | |- edits _ _ (set_replaceByte _ _) => apply edits_set
  | |- edits _ _ (set_extending _ _) => apply edits_set
  | |- edits _ _ (set_pending _ _) => apply edits_set
  | |- edits _ _ (set_pendingByte _ _) => apply edits_set
  | |- edits _ _ (set_visualStart _ _) => apply edits_set
  | |- edits _ _ (set_focusText _ _) => apply edits_set
  | |- edits _ _ (if _ then _ else _) => apply edits_if
  | |- edits ?n ?w (let x := ?e in @?body x) =>
      apply (edits_let n w e body); [| intros ? ?]
  | |- editsR _ _ (Ok _) => apply editsR_Ok
  | |- editsR _ _ Panic => apply editsR_Panic
  | |- editsR _ _ (if _ then _ else _) => apply editsR_if
  | |- editsR ?n ?w (let x := ?e in @?body x) =>
      first [ apply (editsR_let n w e body); [| intros ? ?]
            | apply (editsR_let_Z n w e body); intros ? ]
  | |- editsR _ _ (bind _ _) =>
      first [ apply editsR_bind_window; [| intros ? ?]
            | apply editsR_bind; intros ? ]
  | |- editsR _ _ (match ?x with _ => _ end) => destruct x
  end.

Lemma scrollDownToCursor_edits (n : nat) (w w0 : window) :
  edits n w w0 -> editsR n w (scrollDownToCursor w0).
Proof. intros H. unfold scrollDownToCursor. repeat edits_step. Qed.

Lemma scrollUpToCursor_edits (n : nat) (w w0 : window) :
  edits n w w0 -> editsR n w (scrollUpToCursor w0).
Proof. intros H. unfold scrollUpToCursor. repeat edits_step. Qed.

Lemma closeSlot_edits (n : nat) (w w0 : window) : edits n w w0 -> edits n w (closeSlot w0).
Proof. intros H. unfold closeSlot. repeat edits_step. Qed.

Lemma openSlot_edits (n : nat) (w w0 : window) : edits n w w0 -> edits n w (openSlot w0).
Proof. intros H. unfold openSlot. repeat edits_step. Qed.

Ltac edits_auto :=
  repeat first
    [ edits_step
    | apply scrollDownToCursor_edits
    | apply scrollUpToCursor_edits
    | apply closeSlot_edits
    | apply openSlot_edits ].

Lemma cursorUp_edits (n : nat) (count : Z) (w : window) : editsR n w (cursorUp count w).
Proof. unfold cursorUp. edits_auto. Qed.

Lemma cursorDown_edits (n : nat) (count : Z) (w : window) : editsR n w (cursorDown count w).
Proof. unfold cursorDown. edits_auto. Qed.

Lemma cursorLeft_edits (n : nat) (count : Z) (w : window) : editsR n w (cursorLeft count w).
Proof. unfold cursorLeft. edits_auto. Qed.

Lemma cursorRight_edits (n : nat) (m : Mode) (count : Z) (w : window) :
  editsR n w (cursorRight m count w).
Proof. unfold cursorRight. edits_auto. Qed.

Lemma cursorPrev_edits (n : nat) (count : Z) (w : window) : editsR n w (cursorPrev count w).
Proof. unfold cursorPrev. edits_auto. Qed.

Lemma cursorNext_edits (n : nat) (m : Mode) (count : Z) (w : window) :
  editsR n w (cursorNext m count w).
Proof. unfold cursorNext. edits_auto. Qed.

Lemma cursorHead_edits (n : nat) (count : Z) (w w0 : window) :
  edits n w w0 -> editsR n w (cursorHead count w0).
Proof. intros H. unfold cursorHead. edits_auto. Qed.

Lemma cursorEnd_edits (n : nat) (count : Z) (w w0 : window) :
  edits n w w0 -> editsR n w (cursorEnd count w0).
Proof. intros H. unfold cursorEnd. edits_auto. Qed.

Lemma cursorGoto_edits (n : nat) (e : Event) (w : window) : editsR n w (cursorGoto e w).
Proof. unfold cursorGoto, cursorGotoPos. edits_auto. Qed.

Lemma scrollUp_edits (n : nat) (count : Z) (w : window) : editsR n w (scrollUp count w).
Proof. unfold scrollUp. edits_auto. Qed.

Lemma scrollDown_edits (n : nat) (count : Z) (w : window) : editsR n w (scrollDown count w).
Proof. unfold scrollDown. edits_auto. Qed.

Lemma pageUp_edits (n : nat) (w : window) : editsR n w (pageUp w).
Proof. unfold pageUp, pageUpCursor. edits_auto. Qed.

Lemma pageDown_edits (n : nat) (w : window) : editsR n w (pageDown w).
Proof. unfold pageDown, pageDownCursor. edits_auto. Qed.

Lemma pageUpHalf_edits (n : nat) (w : window) : editsR n w (pageUpHalf w).
Proof. unfold pageUpHalf, pageUpCursor. edits_auto. Qed.

Lemma pageDownHalf_edits (n : nat) (w : window) : editsR n w (pageDownHalf w).
Proof. unfold pageDownHalf, pageDownCursor. edits_auto. Qed.

Lemma pageTop_edits (n : nat) (w : window) : editsR n w (pageTop w).
Proof. unfold pageTop. edits_auto. Qed.

Lemma pageEnd_edits (n : nat) (w : window) : editsR n w (pageEnd w).
Proof. unfold pageEnd. edits_auto. Qed.

Lemma jumpTo_edits (n : nat) (w : window) : editsR n w (jumpTo w).
Proof. unfold jumpTo. edits_auto. Qed.

Lemma jumpBack_edits (n : nat) (w : window) : editsR n w (jumpBack w).
Proof. unfold jumpBack. edits_auto. Qed.

Lemma startInsert_edits (n : nat) (w : window) : editsR n w (startInsert w).
Proof. unfold startInsert. edits_auto. Qed.

Lemma startInsertHead_edits (n : nat) (w : window) : editsR n w (startInsertHead w).
Proof.
  unfold startInsertHead. edits_auto.
  apply cursorHead_edits. apply edits_refl.
Qed.

Lemma startAppend_edits (n : nat) (w w0 : window) :
  edits n w w0 -> editsR n w (startAppend w0).
Proof. intros H. unfold startAppend. edits_auto. Qed.

Lemma startAppendEnd_edits (n : nat) (w : window) : editsR n w (startAppendEnd w).
Proof.
  unfold startAppendEnd. edits_auto;
    first [apply cursorEnd_edits; apply edits_refl | apply startAppend_edits; assumption].
Qed.

Lemma startReplaceByte_edits (n : nat) (w : window) : editsR n w (startReplaceByte w).
Proof. unfold startReplaceByte. edits_auto. Qed.

Lemma startReplace_edits (n : nat) (w : window) : editsR n w (startReplace w).
Proof. unfold startReplace. edits_auto. Qed.

Lemma exitInsert_edits (n : nat) (w w0 : window) : edits n w w0 -> edits n w (exitInsert w0).
Proof. intros H. unfold exitInsert. edits_auto. Qed.

Lemma startVisual_edits (n : nat) (w : window) : editsR n w (startVisual w).
Proof. unfold startVisual. edits_auto. Qed.

Lemma switchVisualEnd_edits (n : nat) (w : window) : editsR n w (switchVisualEnd w).
Proof. unfold switchVisualEnd. edits_auto. Qed.

Lemma exitVisual_edits (n : nat) (w : window) : editsR n w (exitVisual w).
Proof. unfold exitVisual. edits_auto. Qed.

Lemma search_edits (n : nat) (str : list Z) (forward : bool) (w : window) :
  editsR n w (search str forward w).
Proof. unfold search, searchForward, searchBackward. edits_auto. Qed.

Lemma increment_edits (count : Z) (w : window) : editsR 1 w (increment count w).
Proof. unfold increment. edits_auto. Qed.

Lemma decrement_edits (count : Z) (w : window) : editsR 1 w (decrement count w).
Proof. unfold decrement. edits_auto. Qed.

Lemma backspace_edits (w : window) : editsR 1 w (backspace w).
Proof. unfold backspace. edits_auto. Qed.

Lemma switchFocus_edits (w : window) : editsR 1 w (switchFocus w).
Proof. unfold switchFocus. edits_auto. Qed.

Lemma insertByte_edits (n : nat) (m : Mode) (b : Z) (w w0 : window) :
  edits n w w0 -> editsR (S n) w (insertByte m b w0).
Proof.
  intros H. unfold insertByte. edits_auto.
  all: try (apply exitInsert_edits; edits_auto).
Qed.

Lemma insertNibbles_edits (m : Mode) (buf : list Z) (n : nat) (w w0 : window) :
  edits n w w0 ->
  editsR (n + 2 * List.length buf) w (insertNibbles m buf w0).
Proof.
  revert n w0. induction buf as [| c buf IH]; intros n w0 H; simpl.
  - apply editsR_Ok. apply (edits_weaken n); [lia | exact H].
  - intros w3 E.
    destruct (insertByte m (Z.shiftr c 4) w0) as [w1 |] eqn:E1;
      cbv beta iota delta [bind] in E; [| discriminate E].
    destruct (insertByte m (Z.land c 15) w1) as [w2 |] eqn:E2;
      cbv beta iota delta [bind] in E; [| discriminate E].
    pose proof (insertByte_edits n m _ w w0 H w1 E1) as H1.
    pose proof (insertByte_edits (S n) m _ w w1 H1 w2 E2) as H2.
    apply (edits_weaken (S (S n) + 2 * List.length buf)); [lia |].
    exact (IH _ w2 H2 w3 E).
Qed.

Lemma EncodeRune_length (r : Z) : (List.length (EncodeRune r) <= 4)%nat.
Proof.
  unfold EncodeRune, encode3. cbv zeta.
  repeat match goal with
         | |- context [if ?c then _ else _] => destruct c
         end; simpl; lia.
Qed.

Lemma insertRune_edits (m : Mode) (ch : Z) (w : window) :
  editsR 8 w (insertRune m ch w).
Proof.
  unfold insertRune.
  assert (Hb : forall b, editsR 8 w (insertByte m b w)).
  { intros b w1 E. apply (edits_weaken 1); [lia |].
    exact (insertByte_edits 0 m _ w w (edits_refl 0 w) w1 E). }
  destruct (Mode_eqb m Insert || Mode_eqb m Replace);
    [| apply editsR_Ok; apply edits_refl].
  destruct (focusText w).
  - intros w1 E.
    apply (edits_weaken (0 + 2 * List.length (EncodeRune ch)));
      [pose proof (EncodeRune_length ch); lia |].
    exact (insertNibbles_edits m _ 0 w w (edits_refl 0 w) w1 E).
  - destruct ((48 <=? ch) && (ch <=? 57)); [apply Hb |].
    destruct ((97 <=? ch) && (ch <=? 102)); [apply Hb |].
    apply editsR_Ok. apply edits_refl.
Qed.

Lemma deleteByte_loop_edits (cnt n : nat) (w w0 : window) :
  edits n w w0 -> edits (cnt + n) w (deleteByte_loop cnt w0).
Proof.
  revert n w0. induction cnt as [| cnt IH]; intros n w0 H; simpl.
  - exact H.
  - replace (S (cnt + n)) with (cnt + S n)%nat by lia.
    apply IH. edits_auto.
Qed.

Lemma deletePrevByte_loop_edits (cnt n : nat) (w w0 : window) :
  edits n w w0 -> edits (cnt + n) w (deletePrevByte_loop cnt w0).
Proof.
  revert n w0. induction cnt as [| cnt IH]; intros n w0 H; simpl.
  - exact H.
  - replace (S (cnt + n)) with (cnt + S n)%nat by lia.
    apply IH. edits_auto.
Qed.

(** The largest number of bytes that one command deletes. *)
Lemma deleteByte_edits (count : Z) (w : window) :
  Int64.in_range count ->
  editsR (Z.to_nat Int64.max_int) w (deleteByte count w).
Proof.
  intros Hc. unfold deleteByte.
  apply editsR_if; [apply editsR_Ok; apply edits_refl |].
  apply editsR_bind. intros r. apply editsR_Ok.
  match goal with
  | |- edits _ _ (deleteByte_loop ?c _) =>
      apply (edits_weaken (c + 0)); [| apply deleteByte_loop_edits; apply edits_refl]
  end.
  unfold MinInt64, MaxInt64. i64_consts. lia.
Qed.

Lemma deletePrevByte_edits (count : Z) (w : window) :
  Int64.in_range count ->
  editsR (Z.to_nat Int64.max_int) w (deletePrevByte count w).
Proof.
  intros Hc. unfold deletePrevByte.
  apply editsR_bind. intros r. apply editsR_Ok.
  match goal with
  | |- edits _ _ (deletePrevByte_loop ?c _) =>
      apply (edits_weaken (c + 0));
      [| apply deletePrevByte_loop_edits; apply edits_refl]
  end.
  unfold MinInt64, MaxInt64. i64_consts. lia.
Qed.

(** The lemma of a command. *)
Ltac edits_command :=
  first
    [ apply cursorUp_edits | apply cursorDown_edits | apply cursorLeft_edits
    | apply cursorRight_edits | apply cursorPrev_edits | apply cursorNext_edits
    | apply cursorHead_edits; apply edits_refl
    | apply cursorEnd_edits; apply edits_refl
    | apply cursorGoto_edits | apply scrollUp_edits | apply scrollDown_edits
    | apply pageUp_edits | apply pageDown_edits | apply pageUpHalf_edits
    | apply pageDownHalf_edits | apply pageTop_edits | apply pageEnd_edits
    | apply jumpTo_edits | apply jumpBack_edits
    | apply startInsert_edits | apply startInsertHead_edits
    | apply startAppend_edits; apply edits_refl
    | apply startAppendEnd_edits | apply startReplaceByte_edits
    | apply startReplace_edits
    | apply editsR_Ok; apply exitInsert_edits; apply edits_refl
    | apply startVisual_edits | apply switchVisualEnd_edits
    | apply exitVisual_edits | apply search_edits
    | apply increment_edits | apply decrement_edits | apply backspace_edits
    | apply switchFocus_edits | apply insertRune_edits
    | apply deleteByte_edits; assumption
    | apply deletePrevByte_edits; assumption ].

(** Every command but undo and redo edits the window: it leaves the history
    and [prevChanged] alone, and it changes the content only with an
    advance of the change counter. *)
Lemma handle_edits (e : Event) (w w1 : window) :
  Int64.in_range (Count e) ->
  isUndoRedo (Type_ e) = false ->
  handle e w = Ok (Some w1) ->
  edits (Z.to_nat Int64.max_int) w w1.
Proof.
  intros Hc Hu H.
  assert (Hone : Int64.in_range 1) by (i64_consts; lia).
  assert (Hsome : forall n (r : result window),
             (n <= Z.to_nat Int64.max_int)%nat -> editsR n w r ->
             (w' <- r ;; Ok (Some w')) = Ok (Some w1) ->
             edits (Z.to_nat Int64.max_int) w w1).
  { intros n r Hn Hr E. destruct r as [a |]; simpl in E; [| discriminate E].
    injection E as <-. apply (edits_weaken n); [exact Hn |].
    apply Hr. reflexivity. }
  assert (H8 : (8 <= Z.to_nat Int64.max_int)%nat) by (i64_consts; lia).
  unfold handle in H.
  destruct (Type_ e); try discriminate Hu; try discriminate H;
    first
      [ solve [apply (Hsome 0%nat _ ltac:(lia)) in H; [exact H | edits_command]]
      | solve [apply (Hsome 1%nat _ ltac:(lia)) in H; [exact H | edits_command]]
      | solve [apply (Hsome 8%nat _ H8) in H; [exact H | edits_command]]
      | solve [apply (Hsome (Z.to_nat Int64.max_int) _ ltac:(lia)) in H;
               [exact H | edits_command]] ].
Qed.

Lemma iter_tick1 (k : nat) (t : Z) :
  0 <= t < 2 ^ 64 -> Nat.iter k tick1 t = (t + Z.of_nat k) mod 2 ^ 64.
Proof.
  intros Ht. induction k as [| k IH].
  - simpl. rewrite Z.add_0_r, Z.mod_small; [reflexivity | exact Ht].
  - simpl Nat.iter. rewrite IH. unfold tick1.
    rewrite Z.add_mod_idemp_l by lia. f_equal. lia.
Qed.

(** Fewer than [2^64] increments do not bring the counter back. *)
Lemma iter_tick1_neq (k : nat) (t : Z) :
  0 <= t < 2 ^ 64 -> (0 < k <= Z.to_nat Int64.max_int)%nat ->
  Nat.iter k tick1 t <> t.
Proof.
  intros Ht Hk. rewrite iter_tick1 by exact Ht.
  assert (Hk' : 0 < Z.of_nat k < 2 ^ 64) by (i64_consts; lia).
  i64_consts.
  destruct (Z_lt_le_dec (t + Z.of_nat k) 18446744073709551616) as [Hlt | Hge].
  - rewrite Z.mod_small by lia. lia.
  - replace (t + Z.of_nat k)
      with (t + Z.of_nat k - 18446744073709551616 + 1 * 18446744073709551616)
      by lia.
    rewrite Z_mod_plus_full. rewrite Z.mod_small by lia. lia.
Qed.

(** A command that changed the content advanced the counter. *)
Lemma edits_content (w w1 : window) :
  0 <= changedTick w < 2 ^ 64 ->
  edits (Z.to_nat Int64.max_int) w w1 ->
  changedTick w1 = changedTick w -> buffer w1 = buffer w.
Proof.
  intros Ht (_ & _ & k & Hk & Hc & Hb) E.
  destruct k as [| k]; [apply Hb; reflexivity |].
  exfalso. apply (iter_tick1_neq (S k) (changedTick w) Ht); [lia |].
  congruence.
Qed.

Lemma undo_loop_pushes (n : nat) (w : window) :
  History.pushes (history (undo_loop n w)) = History.pushes (history w).
Proof.
  revert w. induction n as [| n IH]; intros w; simpl; [reflexivity |].
  unfold History.Undo.
  destruct (History.past (history w)) as [| c [| p rest]]; simpl;
    try (destruct w; reflexivity).
  rewrite IH. destruct w; reflexivity.
Qed.

Lemma redo_loop_pushes (n : nat) (w : window) :
  History.pushes (history (redo_loop n w)) = History.pushes (history w).
Proof.
  revert w. induction n as [| n IH]; intros w; simpl; [reflexivity |].
  unfold History.Redo.
  destruct (History.future (history w)) as [| c rest]; simpl;
    try (destruct w; reflexivity).
  rewrite IH. destruct w; reflexivity.
Qed.

(** The number of pushes after the checkpoint rules. *)
Lemma checkpoint_pushes (e : Event) (w0 w : window) :
  History.pushes (history (checkpoint e w0 w))
  = if negb (isUndoRedo (Type_ e))
       && ((Mode_eqb (Mode_ e) Normal && negb (changedTick w0 =? changedTick w))
           || (isExitInsert (Type_ e) && prevChanged w)
           || (negb (Mode_eqb (Mode_ e) Normal) && prevChanged w
               && negb (negb (changedTick w0 =? changedTick w))
               && isNavigation (Type_ e)))
    then S (History.pushes (history w))
    else History.pushes (history w).
Proof.
  unfold checkpoint, push.
  destruct (negb (isUndoRedo (Type_ e))); [| reflexivity].
  destruct (Mode_eqb (Mode_ e) Normal && negb (changedTick w0 =? changedTick w)
            || isExitInsert (Type_ e) && prevChanged w); [reflexivity |].
  cbv beta iota delta [andb orb].
  destruct (negb (Mode_eqb (Mode_ e) Normal)); [| reflexivity].
  destruct (prevChanged w); [| reflexivity].
  destruct (negb (negb (changedTick w0 =? changedTick w))); [| reflexivity].
  destruct (isNavigation (Type_ e)); reflexivity.
Qed.

Lemma checkpoint_content (e : Event) (w0 w : window) :
  buffer (checkpoint e w0 w) = buffer w /\
  changedTick (checkpoint e w0 w) = changedTick w.
Proof.
  unfold checkpoint, push.
  destruct (negb (isUndoRedo (Type_ e)));
    [ destruct (_ || _); [| destruct (_ && _)] |];
    simpl; split; reflexivity.
Qed.

(** C4, as the code has it: in Normal mode, after a command other than undo
    and redo a checkpoint is pushed exactly when the command advanced the
    change counter, or is [ExitInsert] after a command that advanced it;
    a command that changed the content advanced the counter, so it pushes
    (and [SwitchFocus] advances the counter with the content unchanged).
    Undo and redo push nothing. *)
Theorem checkpoint_normal_mode (e : Event) (w w' : window) :
  Mode_ e = Normal ->
  Int64.in_range (Count e) ->
  0 <= changedTick w < 2 ^ 64 ->
  run_step e w = Ok w' ->
  (isUndoRedo (Type_ e) = false ->
   (pushed w w' <->
    changedTick w' <> changedTick w
    \/ (Type_ e = ExitInsert /\ prevChanged w = true)) /\
   (buffer w' <> buffer w -> pushed w w')) /\
  (isUndoRedo (Type_ e) = true ->
   History.pushes (history w') = History.pushes (history w)).
Proof.
  intros Hm Hc Ht Hrun. unfold run_step in Hrun.
  destruct (handle e w) as [[w1 |] |] eqn:Hh; simpl in Hrun;
    [| | discriminate Hrun]; injection Hrun as <-.
  - (* a command that the loop handles *)
    pose proof (checkpoint_pushes e w w1) as Hp.
    destruct (checkpoint_content e w w1) as (Hb & Hk).
    rewrite Hm in Hp. change (Mode_eqb Normal Normal) with true in Hp.
    split.
    + intros Hu. rewrite Hu in Hp.
      cbv beta iota delta [andb orb negb] in Hp.
      pose proof (handle_edits e w w1 Hc Hu Hh) as He.
      pose proof (edits_content w w1 Ht He) as Hcontent.
      destruct He as (Hhist & Hprev & _).
      rewrite Hhist, Hprev in Hp. unfold pushed. rewrite Hk, Hb, Hp.
      clear Hp.
      assert (Hexit : isExitInsert (Type_ e) = true <-> Type_ e = ExitInsert).
      { destruct (Type_ e); simpl; split; intros E; congruence. }
      destruct (Z.eqb_spec (changedTick w) (changedTick w1)) as [Heq | Hne];
        [ destruct (isExitInsert (Type_ e)) eqn:Hx;
          [destruct (prevChanged w) eqn:Hpc |] |].
      all: split; [split |].
      all: try solve [intros; reflexivity].
      all: try solve [intros E; lia].
      all: try solve [intros _; left; congruence].
      all: try solve [intros _; right; split;
                      [apply Hexit; reflexivity | reflexivity]].
      all: try solve [intros Hbuf; exfalso; apply Hbuf; apply Hcontent;
                      congruence].
      all: intros [E | (E1 & E2)];
        [ congruence
        | first [discriminate E2 | apply Hexit in E1; discriminate E1] ].
    + intros Hu. rewrite Hu in Hp.
      cbv beta iota delta [andb orb negb] in Hp. rewrite Hp.
      unfold handle in Hh. rewrite Hm in Hh.
      destruct (Type_ e); try discriminate Hu; simpl in Hh;
        injection Hh as <-; [apply undo_loop_pushes | apply redo_loop_pushes].
  - (* an event that the loop skips *)
    unfold handle in Hh.
    destruct (Type_ e) eqn:Hty;
      try (destruct (Mode_eqb (Mode_ e) Normal); discriminate Hh);
      try (match type of Hh with
           | bind ?r _ = _ => destruct r; discriminate Hh
           end).
    split; [| intros Hu; discriminate Hu].
    intros _. unfold pushed. split; [split |].
    + intros E. lia.
    + intros [E | (E & _)]; [congruence | discriminate E].
    + intros Hbuf. congruence.
Qed.

Lemma checkpoint_normal_mode_witness :
  exists w',
    run_step (Examples.event Increment 1 Normal) Examples.ten = Ok w' /\
    buffer w' = [2; 2; 3; 4; 5; 6; 7; 8; 9; 10] /\
    pushed Examples.ten w'.
Proof.
  assert (Hrun : exists w',
             run_step (Examples.event Increment 1 Normal) Examples.ten = Ok w' /\
             buffer w' = [2; 2; 3; 4; 5; 6; 7; 8; 9; 10] /\
             changedTick w' = 1).
  { eexists. split; [vm_compute; reflexivity | split; reflexivity]. }
  destruct Hrun as (w' & Hrun & Hb & Hk).
  exists w'. split; [exact Hrun |]. split; [exact Hb |].
  destruct (checkpoint_normal_mode (Examples.event Increment 1 Normal)
              Examples.ten w' eq_refl) as (Hpush & _).
  - simpl. i64_consts. lia.
  - simpl. lia.
  - exact Hrun.
  - destruct (Hpush eq_refl) as (Hiff & _). apply Hiff. left.
    rewrite Hk. simpl. lia.
Defined.

(** The rule as stated fails on [SwitchFocus] in Normal mode: the command
    leaves the content as it is, and a checkpoint is pushed. *)
Lemma pushes_iff_mutated_counterexample :
  ~ pushes_iff_mutated (Examples.event SwitchFocus 0 Normal) Examples.ten.
Proof.
  intros H.
  assert (Hrun : exists w',
             run_step (Examples.event SwitchFocus 0 Normal) Examples.ten = Ok w' /\
             buffer w' = buffer Examples.ten /\ pushed Examples.ten w').
  { eexists. split; [vm_compute; reflexivity | split; reflexivity]. }
  destruct Hrun as (w' & Hrun & Hb & Hp).
  apply (H w' Hrun) in Hp. apply Hp. exact Hb.
Qed.

(** ** The invariant of navigation *)

(** C1: the invariant holds of the ten-byte window, four bytes to a row,
    and [CursorEnd] with the count [2^62] breaks it: [(0/4 + 2^62) * 4]
    wraps to 0 in 64 bits, so that the cursor becomes [min(0 - 1, 9) = -1]. *)
Theorem cursorEnd_count_overflow :
  view_ok Examples.ten /\
  exists w',
    run [Examples.event CursorEnd (2 ^ 62) Normal] Examples.ten = Ok w' /\
    cursor w' = -1 /\ ~ view_ok w'.
Proof.
  split.
  - unfold view_ok. cbn. unfold Buffer.Len. cbn. lia.
  - eexists. split; [vm_compute; reflexivity |].
    split; [reflexivity |].
    unfold view_ok. cbn. lia.
Qed.

(** * Further properties of the commands *)

(** Reduce the projections of a window that is written out. *)
Ltac fields :=
  cbn [buffer changedTick prevChanged history height width offset cursor
       length stack append replaceByte extending pending pendingByte
       visualStart focusText
       set_buffer set_changedTick set_prevChanged set_history set_height
       set_width set_offset set_cursor set_length set_stack set_append
       set_replaceByte set_extending set_pending set_pendingByte
       set_visualStart set_focusText] in *.

(** Reduce the writes of fields as well. *)
Ltac setters :=
  cbv beta iota delta
      [buffer changedTick prevChanged history height width offset cursor
       length stack append replaceByte extending pending pendingByte
       visualStart focusText
       set_buffer set_changedTick set_prevChanged set_history set_height
       set_width set_offset set_cursor set_length set_stack set_append
       set_replaceByte set_extending set_pending set_pendingByte
       set_visualStart set_focusText].

(** ** A jump and the jump back *)

(** X1: a [jumpTo] that jumped is undone by [jumpBack]: the window is the
    one before the jump, in every field. *)
Theorem jumpTo_jumpBack (w w1 : window) :
  jumpTo w = Ok w1 -> stack w1 <> stack w -> jumpBack w1 = Ok w.
Proof.
  unfold jumpTo. intros H Hs.
  destruct (readBytes w _ _) as [[[n bytes] |] |]; simpl in H;
    try (injection H as <-; contradiction); try discriminate.
  destruct (findDigits bytes) as [[i j] |];
    try (injection H as <-; contradiction).
  destruct (_ || _); try (injection H as <-; contradiction).
  destruct (Int64.rem _ _) as [r |]; simpl in H; try discriminate.
  injection H as <-.
  unfold jumpBack.
  destruct w as [b t pc h ht wd o c l st ap rb ex pe pb vs ft]; simpl.
  rewrite rev_app_distr. simpl. rewrite removelast_last. reflexivity.
Qed.

Lemma jumpTo_jumpBack_witness :
  exists w1,
    jumpTo Examples.ref173 = Ok w1 /\ cursor w1 = 173 /\
    jumpBack w1 = Ok Examples.ref173.
Proof.
  eexists. split; [vm_compute; reflexivity |]. split; [reflexivity |].
  apply (jumpTo_jumpBack Examples.ref173);
    [vm_compute; reflexivity | cbn; discriminate].
Defined.

(** ** Increment and decrement, one after the other *)

Lemma Len_pad (b : Buffer.t) (n : nat) :
  (n <= List.length b)%nat -> Buffer.pad b n = b.
Proof.
  intros H. unfold Buffer.pad.
  replace (n - List.length b)%nat with O by lia. apply app_nil_r.
Qed.

(** A second write of a byte at an offset overwrites the first. *)
Lemma Replace_Replace (b : Buffer.t) (c v v' : Z) :
  0 <= c -> Buffer.Replace (Buffer.Replace b c v) c v' = Buffer.Replace b c v'.
Proof.
  intros Hc. unfold Buffer.Replace.
  destruct (Z.ltb_spec c 0); [lia |].
  set (n := Z.to_nat c). set (p := Buffer.pad b n).
  assert (Hp : (n <= List.length p)%nat).
  { unfold p, Buffer.pad. rewrite length_app, repeat_length. lia. }
  assert (Hf : List.length (firstn n p) = n) by (rewrite length_firstn; lia).
  rewrite Len_pad by (rewrite length_app, Hf; simpl; lia).
  rewrite firstn_app, Hf, Nat.sub_diag, firstn_O, app_nil_r.
  rewrite firstn_all2 by lia.
  replace (S n) with (List.length (firstn n p) + 1)%nat by lia.
  rewrite skipn_app, Hf.
  replace (n + 1 - n)%nat with 1%nat by lia.
  rewrite skipn_all2 by lia. reflexivity.
Qed.

(** Writing the byte that is there changes nothing. *)
Lemma Replace_same (b : Buffer.t) (c : Z) :
  0 <= c < Buffer.Len b -> Buffer.Replace b c (byteAt b c) = b.
Proof.
  unfold Buffer.Len, Buffer.Replace, byteAt. intros Hc.
  destruct (Z.ltb_spec c 0); [lia |].
  set (n := Z.to_nat c).
  assert (Hn : (n < List.length b)%nat) by lia.
  rewrite Len_pad by lia.
  rewrite <- (firstn_skipn n b) at 4.
  f_equal.
  rewrite <- hd_skipn_nth.
  rewrite <- (firstn_skipn n b) in Hn. rewrite length_app, length_firstn in Hn.
  replace (S n) with (1 + n)%nat by lia. rewrite <- skipn_skipn.
  destruct (skipn n b) as [| x l]; [simpl in Hn; lia | reflexivity].
Qed.

(** [increment] and [decrement] as one write at the cursor. *)
Lemma increment_write (count : Z) (w : window) :
  0 <= cursor w -> length w <> 0 ->
  increment count w
  = Ok (replace (cursor w)
          ((byteAt (buffer w) (cursor w) + Z.max count 1 mod 256) mod 256) w).
Proof.
  intros Hc Hl.
  destruct (readBytes_one w (cursor w) Hc) as (n & Hr).
  unfold increment. rewrite Hr. cbv beta iota zeta delta [bind nth].
  rewrite countByte_mod. unfold byte_wrap.
  destruct w; simpl in *. destruct (Z.eqb_spec length0 0); [contradiction | reflexivity].
Qed.

Lemma decrement_write (count : Z) (w : window) :
  0 <= cursor w -> length w <> 0 ->
  decrement count w
  = Ok (replace (cursor w)
          ((byteAt (buffer w) (cursor w) - Z.max count 1 mod 256) mod 256) w).
Proof.
  intros Hc Hl.
  destruct (readBytes_one w (cursor w) Hc) as (n & Hr).
  unfold decrement. rewrite Hr. cbv beta iota zeta delta [bind nth].
  rewrite countByte_mod. unfold byte_wrap.
  destruct w; simpl in *. destruct (Z.eqb_spec length0 0); [contradiction | reflexivity].
Qed.

(** X2: on a byte of the content, [decrement(count)] undoes
    [increment(count)] and [increment(count)] undoes [decrement(count)]: the
    window is back as it was but for the change counter, which has advanced
    twice. *)
Theorem increment_decrement_inverse (w : window) (count : Z) :
  0 <= cursor w < Buffer.Len (buffer w) -> length w <> 0 ->
  is_byte (byteAt (buffer w) (cursor w)) ->
  let w' := set_changedTick (tick1 (tick1 (changedTick w))) w in
  (exists w1, increment count w = Ok w1 /\ decrement count w1 = Ok w') /\
  (exists w1, decrement count w = Ok w1 /\ increment count w1 = Ok w').
Proof.
  intros Hc Hl Hb w'. unfold is_byte in Hb.
  set (k := Z.max count 1 mod 256).
  assert (Hk : 0 <= k < 256) by (apply Z.mod_pos_bound; lia).
  split.
  - eexists. split; [apply increment_write; lia |].
    rewrite decrement_write by (destruct w; simpl in *; lia).
    f_equal. unfold w', replace, tick, tick1.
    destruct w as [b t pc h ht wd o c l st ap rb ex pe pb vs ft]; simpl in *.
    rewrite byteAt_Replace, Replace_Replace by lia. fold k.
    replace (((byteAt b c + k) mod 256 - k) mod 256) with (byteAt b c).
    + rewrite Replace_same by lia. reflexivity.
    + rewrite Zminus_mod_idemp_l. replace (byteAt b c + k - k) with (byteAt b c) by lia.
      symmetry. apply Z.mod_small. lia.
  - eexists. split; [apply decrement_write; lia |].
    rewrite increment_write by (destruct w; simpl in *; lia).
    f_equal. unfold w', replace, tick, tick1.
    destruct w as [b t pc h ht wd o c l st ap rb ex pe pb vs ft]; simpl in *.
    rewrite byteAt_Replace, Replace_Replace by lia. fold k.
    replace (((byteAt b c - k) mod 256 + k) mod 256) with (byteAt b c).
    + rewrite Replace_same by lia. reflexivity.
    + rewrite Zplus_mod_idemp_l. replace (byteAt b c - k + k) with (byteAt b c) by lia.
      symmetry. apply Z.mod_small. lia.
Qed.

Lemma increment_decrement_inverse_witness :
  (exists w1,
      increment 3 Examples.ten = Ok w1 /\
      decrement 3 w1 = Ok (set_changedTick 2 Examples.ten)) /\
  (exists w1,
      decrement 3 Examples.ten = Ok w1 /\
      increment 3 w1 = Ok (set_changedTick 2 Examples.ten)).
Proof.
  apply (increment_decrement_inverse Examples.ten 3);
    [cbn; unfold Buffer.Len; cbn; lia | cbn; unfold Buffer.Len; cbn; lia
    | unfold is_byte; cbn; lia].
Defined.

(** ** Leaving insert *)

(** X3: [exitInsert] leaves no nibble pending and no append in progress, and
    a second [exitInsert] changes nothing: the cursor steps back and the
    virtual trailing slot closes once. *)
Theorem exitInsert_idempotent (w : window) :
  pending (exitInsert w) = false /\ append (exitInsert w) = false /\
  exitInsert (exitInsert w) = exitInsert w.
Proof.
  unfold exitInsert.
  destruct w as [b t pc h ht wd o c l st ap rb ex pe pb vs ft].
  destruct ap; cbn -[Z.ltb Int64.sub].
  - destruct (ex && (0 <? l)); cbn -[Z.ltb Int64.sub];
      destruct (0 <? c); cbn; repeat split; reflexivity.
  - repeat split; reflexivity.
Qed.

(** ** The two ends of a visual selection *)

(** X4: without a selection [switchVisualEnd] panics; with one it exchanges
    [cursor] and [visualStart] and writes, besides, only [offset]; a second
    exchange puts the two back. *)
Theorem switchVisualEnd_swaps (w : window) :
  width w <> 0 ->
  (visualStart w < 0 -> switchVisualEnd w = Panic) /\
  (0 <= visualStart w ->
   exists o,
     switchVisualEnd w
     = Ok (set_offset o (set_visualStart (cursor w) (set_cursor (visualStart w) w))) /\
     (0 <= cursor w ->
      exists o',
        switchVisualEnd
          (set_offset o (set_visualStart (cursor w) (set_cursor (visualStart w) w)))
        = Ok (set_offset o' w))).
Proof.
  intros Hw. split.
  - intros Hv. unfold switchVisualEnd.
    destruct (Z.ltb_spec (visualStart w) 0); [reflexivity | lia].
  - intros Hv.
    assert (Hs : forall x, width x <> 0 -> 0 <= visualStart x ->
              exists o, switchVisualEnd x
                = Ok (set_offset o (set_visualStart (cursor x)
                                      (set_cursor (visualStart x) x)))).
    { intros x Hx Hvx. unfold switchVisualEnd.
      destruct (Z.ltb_spec (visualStart x) 0); [lia |].
      cbv zeta.
      set (x1 := set_visualStart _ _).
      assert (Hx1 : width x1 <> 0) by (destruct x; assumption).
      destruct (cursor x1 <? offset x1).
      - apply scrollUpToCursor_offset; assumption.
      - apply scrollDownToCursor_offset; assumption. }
    destruct (Hs w Hw Hv) as (o & Ho). exists o. split; [exact Ho |].
    intros Hc.
    destruct (Hs (set_offset o (set_visualStart (cursor w)
                                  (set_cursor (visualStart w) w)))) as (o' & Ho').
    + destruct w; assumption.
    + destruct w; assumption.
    + exists o'. rewrite Ho'. destruct w; reflexivity.
Qed.

Lemma switchVisualEnd_swaps_witness :
  switchVisualEnd Examples.ten = Panic /\
  exists o,
    switchVisualEnd (set_visualStart 7 Examples.ten)
    = Ok (set_offset o (set_visualStart 0 (set_cursor 7 Examples.ten))).
Proof.
  split.
  - apply (switchVisualEnd_swaps Examples.ten); cbn; lia.
  - destruct (switchVisualEnd_swaps (set_visualStart 7 Examples.ten)
                ltac:(cbn; lia)) as (_ & S).
    destruct (S ltac:(cbn; lia)) as (o & Ho & _). exists o. exact Ho.
Defined.

(** ** Deletion *)

Lemma Delete_cut (b : Buffer.t) (c : Z) : 0 <= c -> Buffer.Delete b c = cut b c 1.
Proof.
  intros Hc. unfold Buffer.Delete, cut.
  destruct (Z.ltb_spec c 0); [lia |].
  replace (Z.to_nat (c + 1)) with (S (Z.to_nat c)) by lia. reflexivity.
Qed.

Lemma cut_cut (b : Buffer.t) (c n : Z) :
  0 <= c -> 0 <= n -> c + 1 <= Buffer.Len b ->
  cut (cut b c 1) c n = cut b c (n + 1).
Proof.
  unfold cut, Buffer.Len. intros Hc Hn Hl.
  assert (Hf : List.length (firstn (Z.to_nat c) b) = Z.to_nat c)
    by (rewrite length_firstn; lia).
  rewrite firstn_app, Hf, Nat.sub_diag, firstn_O, app_nil_r.
  rewrite firstn_firstn, Nat.min_id.
  f_equal.
  rewrite skipn_app, Hf.
  rewrite (skipn_all2 (firstn _ _)) by lia.
  rewrite skipn_skipn. simpl. f_equal. lia.
Qed.

Lemma Len_cut (b : Buffer.t) (c n : Z) :
  0 <= c -> 0 <= n -> c + n <= Buffer.Len b ->
  Buffer.Len (cut b c n) = Buffer.Len b - n.
Proof.
  unfold cut, Buffer.Len. intros Hc Hn Hl.
  rewrite length_app, length_firstn, length_skipn. lia.
Qed.

(** The loop of [deleteByte], run [k + 1] times over content that holds as
    many bytes from the cursor on. *)
Lemma deleteByte_loop_cut (k : nat) (w : window) :
  0 <= cursor w -> length w = Buffer.Len (buffer w) ->
  length w <= Int64.max_int ->
  Z.of_nat (S k) <= length w - cursor w ->
  deleteByte_loop (S k) w = deleted (S k) w.
Proof.
  revert w. induction k as [| k IH]; intros w Hc Hl Hm Hn.
  - unfold deleted, deleteByte_loop, delete, tick.
    destruct w as [b t pc h ht wd o c l st ap rb ex pe pb vs ft]; simpl in *.
    rewrite Delete_cut by lia. unwrap.
    destruct ((c =? l - 1) && (0 <? c)); simpl; unwrap; reflexivity.
  - change (deleteByte_loop (S (S k)) w)
      with (deleteByte_loop (S k)
              (let w := delete (cursor w) w in
               let w := set_length (length w - 1)%i64 w in
               if (cursor w =? length w) && (0 <? cursor w)
               then set_cursor (cursor w - 1)%i64 w else w)).
    rewrite (Nat2Z.inj_succ (S k)) in Hn.
    assert (Hk : 0 < Z.of_nat (S k)) by lia.
    set (m := S k) in *.
    assert (Hstep :
      (let w := delete (cursor w) w in
       let w := set_length (length w - 1)%i64 w in
       if (cursor w =? length w) && (0 <? cursor w)
       then set_cursor (cursor w - 1)%i64 w else w)
      = set_length (length w - 1) (delete (cursor w) w)).
    { cbv zeta. unfold delete, tick.
      destruct w as [b t pc h ht wd o c l st ap rb ex pe pb vs ft]. fields.
      unwrap. destruct (Z.eqb_spec c (l - 1)); [lia | reflexivity]. }
    rewrite Hstep. clear Hstep.
    rewrite IH.
    + unfold deleted, delete, tick.
      destruct w as [b t pc h ht wd o c l st ap rb ex pe pb vs ft]. fields.
      rewrite Delete_cut by lia.
      rewrite (cut_cut b c (Z.of_nat m)) by lia.
      rewrite (Nat2Z.inj_succ m).
      replace (l - 1 - Z.of_nat m) with (l - Z.succ (Z.of_nat m)) by lia.
      replace (Z.of_nat m + 1) with (Z.succ (Z.of_nat m)) by lia.
      change ((t + 1) mod 2 ^ 64) with (tick1 t).
      rewrite <- Nat.iter_succ_r. reflexivity.
    + unfold delete, tick. destruct w; fields; assumption.
    + unfold delete, tick.
      destruct w as [b t pc h ht wd o c l st ap rb ex pe pb vs ft]. fields.
      rewrite Delete_cut, Len_cut by lia. lia.
    + unfold delete, tick. destruct w; fields. i64_consts. lia.
    + unfold delete, tick. destruct w; fields. lia.
Qed.

(** X5: [deleteByte(count)] on a cursor in the content deletes
    [min(max(count,1), width - cursor mod width, length - cursor)] bytes from
    the cursor on, none beyond the row of the cursor: the content loses
    these bytes and no other, [length] follows, the change counter advances
    once a byte, and the cursor steps back by one when the bytes up to the end
    of the content were deleted.  On empty content it does nothing. *)
Theorem deleteByte_cuts (count : Z) (w : window) :
  0 < width w <= Int64.max_int ->
  0 <= cursor w < length w -> length w = Buffer.Len (buffer w) ->
  length w <= Int64.max_int ->
  let n :=
    Z.min (Z.min (Z.max count 1) (width w - cursor w mod width w))
          (length w - cursor w) in
  0 < n /\ deleteByte count w = Ok (deleted (Z.to_nat n) w).
Proof.
  intros Hw Hc Hl Hm n.
  pose proof (Z.mod_pos_bound (cursor w) (width w) ltac:(lia)) as Hr.
  pose proof (Z.mod_le (cursor w) (width w) ltac:(lia) ltac:(lia)) as Hr'.
  assert (Hn : 0 < n) by (unfold n; lia).
  split; [exact Hn |].
  unfold deleteByte.
  destruct (Z.eqb_spec (length w) 0); [lia |].
  rewrite rem_ok by lia. cbv beta iota zeta delta [bind].
  rewrite Z.rem_mod_nonneg by lia.
  unfold MinInt64, MaxInt64. unwrap. fold n.
  destruct (Z.to_nat n) as [| k] eqn:Hk; [lia |].
  f_equal. apply deleteByte_loop_cut; lia.
Qed.

Lemma deleteByte_cuts_witness :
  deleteByte 5 (set_cursor 2 Examples.ten)
  = Ok (deleted 2 (set_cursor 2 Examples.ten)) /\
  buffer (deleted 2 (set_cursor 2 Examples.ten)) = [1; 2; 5; 6; 7; 8; 9; 10].
Proof.
  split; [| reflexivity].
  apply (deleteByte_cuts 5 (set_cursor 2 Examples.ten));
    cbn; unfold Buffer.Len, Int64.max_int; cbn; lia.
Defined.

Lemma cut_nothing (b : Buffer.t) (c : Z) : cut b c 0 = b.
Proof. unfold cut. rewrite Z.add_0_r. apply firstn_skipn. Qed.

Lemma cut_cut_before (b : Buffer.t) (c k : Z) :
  0 <= k -> k < c -> c <= Buffer.Len b ->
  cut (cut b (c - 1) 1) (c - 1 - k) k = cut b (c - 1 - k) (k + 1).
Proof.
  unfold cut, Buffer.Len. intros Hk Hc Hl.
  replace (c - 1 - k + k) with (c - 1) by lia.
  replace (c - 1 - k + (k + 1)) with c by lia.
  replace (c - 1 + 1) with c by lia.
  assert (Hf : List.length (firstn (Z.to_nat (c - 1)) b) = Z.to_nat (c - 1))
    by (rewrite length_firstn; lia).
  rewrite firstn_app, Hf.
  replace (Z.to_nat (c - 1 - k) - Z.to_nat (c - 1))%nat with O by lia.
  rewrite firstn_O, app_nil_r, firstn_firstn.
  replace (Nat.min (Z.to_nat (c - 1 - k)) (Z.to_nat (c - 1)))
    with (Z.to_nat (c - 1 - k)) by lia.
  f_equal.
  rewrite skipn_app, Hf, Nat.sub_diag.
  rewrite (skipn_all2 (firstn _ _)) by lia. reflexivity.
Qed.

Lemma deletePrevByte_loop_cut (k : nat) (w : window) :
  Z.of_nat k <= cursor w <= Buffer.Len (buffer w) ->
  cursor w <= Int64.max_int ->
  Int64.min_int <= length w - Z.of_nat k -> length w <= Int64.max_int ->
  deletePrevByte_loop k w = deletedPrev k w.
Proof.
  revert w. induction k as [| k IH]; intros w Hc Hm Hl Hl'.
  - unfold deletedPrev, deletePrevByte_loop.
    destruct w as [b t pc h ht wd o c l st ap rb ex pe pb vs ft]. fields.
    change (Z.of_nat 0) with 0. rewrite !Z.sub_0_r, cut_nothing. reflexivity.
  - change (deletePrevByte_loop (S k) w)
      with (deletePrevByte_loop k
              (set_length (length w - 1)%i64
                 (set_cursor (cursor w - 1)%i64 (delete (cursor w - 1)%i64 w)))).
    rewrite Nat2Z.inj_succ in Hc, Hl.
    rewrite IH.
    + unfold deletedPrev, delete, tick.
      destruct w as [b t pc h ht wd o c l st ap rb ex pe pb vs ft]. fields.
      rewrite Nat2Z.inj_succ.
      unwrap. rewrite Delete_cut by lia.
      rewrite (cut_cut_before b c (Z.of_nat k)) by lia.
      replace (l - 1 - Z.of_nat k) with (l - Z.succ (Z.of_nat k)) by lia.
      replace (c - 1 - Z.of_nat k) with (c - Z.succ (Z.of_nat k)) by lia.
      replace (Z.of_nat k + 1) with (Z.succ (Z.of_nat k)) by lia.
      change ((t + 1) mod 2 ^ 64) with (tick1 t).
      rewrite <- Nat.iter_succ_r. reflexivity.
    + unfold delete, tick.
      destruct w as [b t pc h ht wd o c l st ap rb ex pe pb vs ft]. fields.
      unwrap. rewrite Delete_cut, Len_cut by lia. lia.
    + unfold delete, tick. destruct w; fields. unwrap. i64_consts. lia.
    + unfold delete, tick. destruct w; fields. unwrap. i64_consts. lia.
    + unfold delete, tick. destruct w; fields. unwrap. i64_consts. lia.
Qed.

(** X6: [deletePrevByte(count)] deletes the
    [min(max(count,1), cursor mod width)] bytes before the cursor, none
    before the start of the row, so that at the start of a row it does
    nothing; [backspace], with no nibble pending, deletes the one byte before
    the cursor, across the start of a row as well, and nothing at offset 0.
    The cursor and [length] go down by the number of bytes deleted. *)
Theorem deletePrevByte_cuts (count : Z) (w : window) :
  0 < width w ->
  0 <= cursor w <= Buffer.Len (buffer w) ->
  cursor w <= length w <= Int64.max_int ->
  let n := Z.min (Z.max count 1) (cursor w mod width w) in
  deletePrevByte count w = Ok (deletedPrev (Z.to_nat n) w) /\
  (pending w = false ->
   backspace w = Ok (deletedPrev (if 0 <? cursor w then 1 else 0) w)).
Proof.
  intros Hw Hc Hl n.
  pose proof (Z.mod_pos_bound (cursor w) (width w) ltac:(lia)) as Hr.
  pose proof (Z.mod_le (cursor w) (width w) ltac:(lia) ltac:(lia)) as Hr'.
  assert (Hn : 0 <= n <= cursor w) by (unfold n; lia).
  split.
  - unfold deletePrevByte.
    rewrite rem_ok by lia. cbv beta iota zeta delta [bind].
    rewrite Z.rem_mod_nonneg by lia.
    unfold MinInt64, MaxInt64. fold n.
    f_equal. apply deletePrevByte_loop_cut; i64_consts; lia.
  - intros Hp. unfold backspace. rewrite Hp.
    destruct (Z.ltb_spec 0 (cursor w)).
    + f_equal. rewrite <- (deletePrevByte_loop_cut 1 w) by (i64_consts; lia).
      reflexivity.
    + f_equal. rewrite <- (deletePrevByte_loop_cut 0 w) by (i64_consts; lia).
      reflexivity.
Qed.

Lemma deletePrevByte_cuts_witness :
  deletePrevByte 5 (set_cursor 6 Examples.ten)
  = Ok (deletedPrev 2 (set_cursor 6 Examples.ten)) /\
  buffer (deletedPrev 2 (set_cursor 6 Examples.ten)) = [1; 2; 3; 4; 7; 8; 9; 10] /\
  backspace (set_cursor 4 Examples.ten)
  = Ok (deletedPrev 1 (set_cursor 4 Examples.ten)) /\
  deletePrevByte 5 (set_cursor 4 Examples.ten) = Ok (set_cursor 4 Examples.ten).
Proof.
  split; [| split; [reflexivity | split]].
  - apply (deletePrevByte_cuts 5 (set_cursor 6 Examples.ten));
      cbn; unfold Buffer.Len, Int64.max_int; cbn; lia.
  - apply (deletePrevByte_cuts 5 (set_cursor 4 Examples.ten));
      try reflexivity; cbn; unfold Buffer.Len, Int64.max_int; cbn; lia.
  - apply (deletePrevByte_cuts 5 (set_cursor 4 Examples.ten));
      cbn; unfold Buffer.Len, Int64.max_int; cbn; lia.
Defined.

(** ** Typing bytes *)

(** Two nibbles make the byte [16 * hi + lo]. *)
Lemma nibbles_byte (hi lo : Z) :
  0 <= hi < 16 -> 0 <= lo < 16 ->
  Z.lor (byte_wrap (Z.shiftl hi 4)) lo = 16 * hi + lo.
Proof.
  intros Hh Hl.
  assert (H : forallb (fun h =>
                forallb (fun l => Z.lor (byte_wrap (Z.shiftl h 4)) l =? 16 * h + l)
                        (map Z.of_nat (seq 0 16)))
              (map Z.of_nat (seq 0 16)) = true) by (vm_compute; reflexivity).
  rewrite forallb_forall in H.
  assert (Hin : forall x, 0 <= x < 16 -> In x (map Z.of_nat (seq 0 16))).
  { intros x Hx. apply in_map_iff. exists (Z.to_nat x).
    split; [lia | apply in_seq; lia]. }
  specialize (H hi (Hin hi Hh)). rewrite forallb_forall in H.
  specialize (H lo (Hin lo Hl)). apply Z.eqb_eq. exact H.
Qed.

(** The nibbles that [insertRune] feeds for a byte make that byte. *)
Lemma nibbles_of_byte (c : Z) :
  is_byte c ->
  Z.lor (byte_wrap (Z.shiftl (Z.shiftr c 4) 4)) (Z.land c 15) = c.
Proof.
  unfold is_byte. intros Hc.
  rewrite Z.shiftr_div_pow2 by lia.
  change 15 with (Z.ones 4). rewrite Z.land_ones by lia.
  change (2 ^ 4) with 16.
  pose proof (Z.mod_pos_bound c 16 ltac:(lia)).
  pose proof (Z.div_mod c 16 ltac:(lia)).
  rewrite nibbles_byte; [lia | | lia].
  split; [apply Z.div_pos; lia | apply Z.div_lt_upper_bound; lia].
Qed.

Lemma lor_byte (a b : Z) : is_byte a -> is_byte b -> is_byte (Z.lor a b).
Proof.
  unfold is_byte. intros Ha Hb.
  split; [apply Z.lor_nonneg; lia |].
  destruct (Z.eq_dec a 0) as [-> | Ha0]; [rewrite Z.lor_0_l; lia |].
  destruct (Z.eq_dec b 0) as [-> | Hb0]; [rewrite Z.lor_0_r; lia |].
  assert (Hp : 0 < Z.lor a b).
  { pose proof (Z.lor_nonneg a b) as [_ Hn].
    destruct (Z.eq_dec (Z.lor a b) 0) as [E |]; [| lia].
    apply Z.lor_eq_0_iff in E. lia. }
  change 256 with (2 ^ 8).
  apply Z.log2_lt_pow2; [exact Hp |].
  rewrite Z.log2_lor by lia.
  assert (Z.log2 a < 8) by (apply Z.log2_lt_pow2; lia).
  assert (Z.log2 b < 8) by (apply Z.log2_lt_pow2; lia).
  lia.
Qed.

Lemma byte_wrap_byte (x : Z) : is_byte (byte_wrap x).
Proof. unfold is_byte, byte_wrap. apply Z.mod_pos_bound. lia. Qed.

Lemma land63_byte (x : Z) : is_byte x -> is_byte (Z.land x 63).
Proof.
  unfold is_byte. intros Hx.
  change 63 with (Z.ones 6). rewrite Z.land_ones by lia.
  pose proof (Z.mod_pos_bound x (2 ^ 6) ltac:(lia)). change (2 ^ 6) with 64 in *. lia.
Qed.

(** [utf8.EncodeRune] yields bytes. *)
Lemma EncodeRune_bytes (r : Z) : Forall is_byte (EncodeRune r).
Proof.
  assert (Hc : forall n, 0 <= n < 256 -> is_byte n) by (unfold is_byte; lia).
  unfold EncodeRune, encode3. cbv zeta.
  repeat match goal with
         | |- context [if ?c then _ else _] => destruct c
         end;
    repeat constructor;
    repeat first [ apply lor_byte | apply land63_byte | apply byte_wrap_byte
                 | apply Hc; lia ].
Qed.

Lemma splice_nil (b : Buffer.t) (c : Z) : splice b c [] = b.
Proof. unfold splice. simpl. apply firstn_skipn. Qed.

Lemma Insert_splice (b : Buffer.t) (c v : Z) :
  0 <= c <= Buffer.Len b -> Buffer.Insert b c v = splice b c [v].
Proof.
  unfold Buffer.Len, Buffer.Insert, splice. intros Hc.
  destruct (Z.ltb_spec c 0); [lia |].
  rewrite Len_pad by lia. reflexivity.
Qed.

Lemma splice_splice (b : Buffer.t) (c x : Z) (bytes : list Z) :
  0 <= c <= Buffer.Len b ->
  splice (splice b c [x]) (c + 1) bytes = splice b c (x :: bytes).
Proof.
  unfold Buffer.Len, splice. intros Hc.
  assert (Hf : List.length (firstn (Z.to_nat c) b) = Z.to_nat c)
    by (rewrite length_firstn; lia).
  replace (Z.to_nat (c + 1)) with (List.length (firstn (Z.to_nat c) b) + 1)%nat by lia.
  rewrite firstn_app_2, skipn_app, Hf.
  replace (Z.to_nat c + 1 - Z.to_nat c)%nat with 1%nat by lia.
  rewrite (skipn_all2 (firstn _ _)) by lia.
  simpl. rewrite <- app_assoc. reflexivity.
Qed.

Lemma Len_splice (b : Buffer.t) (c : Z) (bytes : list Z) :
  Buffer.Len (splice b c bytes) = Buffer.Len b + Z.of_nat (List.length bytes).
Proof.
  unfold Buffer.Len, splice.
  rewrite !length_app, length_firstn, length_skipn. lia.
Qed.

(** The two nibbles of a byte, typed in Insert mode with none pending,
    insert the byte at the cursor; [k] is what follows. *)
Lemma insertByte_pair (c : Z) (w : window) :
  is_byte c -> pending w = false -> width w <> 0 ->
  exists o,
    forall k : window -> result window,
      (w1 <- insertByte Insert (Z.shiftr c 4) w ;;
       w2 <- insertByte Insert (Z.land c 15) w1 ;; k w2)
      = k (set_pendingByte 0
             (set_offset o
                (set_length (length w + 1)%i64
                   (set_cursor (cursor w + 1)%i64 (insert (cursor w) c w))))).
Proof.
  intros Hc Hp Hw.
  rewrite (insertByte_stash Insert _ w Hp). cbv beta iota delta [bind].
  match goal with
  | |- context [insertByte Insert ?b ?x] =>
      destruct (insertByte_commit b x) as (o & Ho);
      [destruct w; reflexivity | destruct w; exact Hw | rewrite Ho]
  end.
  exists o. intros k. f_equal.
  destruct w as [b t pc h ht wd o0 cu l st ap rb ex pe pb vs ft]. fields.
  unfold insert, tick. fields. rewrite nibbles_of_byte by exact Hc.
  subst pe. reflexivity.
Qed.

Lemma insertNibbles_typed (bytes : list Z) :
  Forall is_byte bytes ->
  forall w : window,
    pending w = false -> width w <> 0 ->
    0 <= cursor w <= Buffer.Len (buffer w) ->
    cursor w + Z.of_nat (List.length bytes) <= Int64.max_int ->
    0 <= length w -> length w + Z.of_nat (List.length bytes) <= Int64.max_int ->
    exists o pb, insertNibbles Insert bytes w = Ok (typed bytes o pb w).
Proof.
  induction 1 as [| c bytes Hc Hbytes IH]; intros w Hp Hw Hcu Hcm Hl Hlm.
  - exists (offset w), (pendingByte w). unfold typed.
    destruct w. fields. simpl. rewrite splice_nil, !Z.add_0_r. reflexivity.
  - change (insertNibbles Insert (c :: bytes) w)
      with (w1 <- insertByte Insert (Z.shiftr c 4) w ;;
            w2 <- insertByte Insert (Z.land c 15) w1 ;;
            insertNibbles Insert bytes w2).
    destruct (insertByte_pair c w Hc Hp Hw) as (o1 & Ho1). rewrite Ho1.
    change (List.length (c :: bytes)) with (S (List.length bytes)) in *.
    rewrite Nat2Z.inj_succ in *.
    set (n := Z.of_nat (List.length bytes)) in *.
    assert (Hn : 0 <= n) by lia.
    match goal with |- context [insertNibbles Insert bytes ?x] => set (w1 := x) end.
    destruct (IH w1) as (o & pb & Ho).
    + subst w1. unfold insert, tick. destruct w. fields. exact Hp.
    + subst w1. unfold insert, tick. destruct w. fields. exact Hw.
    + subst w1. unfold insert, tick. destruct w. fields. unwrap.
      rewrite Len_Insert by lia. lia.
    + subst w1. unfold insert, tick. destruct w. fields. unwrap. lia.
    + subst w1. unfold insert, tick. destruct w. fields. unwrap. lia.
    + subst w1. unfold insert, tick. destruct w. fields. unwrap. lia.
    + exists o, pb. rewrite Ho. clear Ho Ho1 IH. f_equal. subst w1.
      unfold typed, insert, tick.
      change (List.length (c :: bytes)) with (S (List.length bytes)).
      rewrite Nat2Z.inj_succ. fold n.
      destruct w as [b t pc h ht wd o0 cu l st ap rb ex pe pb0 vs ft]. fields.
      unwrap. setters.
      rewrite Insert_splice, splice_splice by lia.
      change ((t + 1) mod 2 ^ 64) with (tick1 t).
      rewrite <- Nat.iter_succ_r.
      replace (cu + 1 + n) with (cu + Z.succ n) by lia.
      replace (l + 1 + n) with (l + Z.succ n) by lia.
      reflexivity.
Qed.

(** X7: with the focus on the text side and no nibble pending, a rune typed
    in Insert mode inserts the bytes of its UTF-8 encoding at the cursor, in
    order: the content gains these bytes and no other, the cursor and
    [length] grow by their number, and the change counter advances once a
    byte. *)
Theorem insertRune_text (ch : Z) (w : window) :
  focusText w = true -> pending w = false -> width w <> 0 ->
  0 <= cursor w <= Buffer.Len (buffer w) ->
  cursor w + 4 <= Int64.max_int ->
  0 <= length w -> length w + 4 <= Int64.max_int ->
  exists o pb, insertRune Insert ch w = Ok (typed (EncodeRune ch) o pb w).
Proof.
  intros Hf Hp Hw Hc Hcm Hl Hlm.
  unfold insertRune. rewrite Hf.
  change (Mode_eqb Insert Insert || Mode_eqb Insert Replace) with true.
  cbv beta iota.
  pose proof (EncodeRune_length ch) as Hn.
  apply insertNibbles_typed; try assumption; try lia.
  apply EncodeRune_bytes.
Qed.

Lemma insertRune_text_witness :
  exists o pb,
    insertRune Insert 233 (set_focusText true (set_cursor 2 Examples.ten))
    = Ok (typed [195; 169] o pb (set_focusText true (set_cursor 2 Examples.ten))) /\
    buffer (typed [195; 169] o pb (set_focusText true (set_cursor 2 Examples.ten)))
    = [1; 2; 195; 169; 3; 4; 5; 6; 7; 8; 9; 10].
Proof.
  destruct (insertRune_text 233 (set_focusText true (set_cursor 2 Examples.ten)))
    as (o & pb & H);
    try reflexivity; try (cbn; unfold Buffer.Len, Int64.max_int; cbn; lia).
  exists o, pb. split; [exact H | reflexivity].
Defined.

(** ** Typing over bytes *)

(** X8: two nibbles typed in Replace mode with none pending write the byte
    [16 * hi + lo] over the byte at the cursor, and make a window of length
    0 one of length 1.  After [startReplaceByte] the cursor stays, the
    replacement being over; after [startReplace] it moves on by one and opens
    the virtual trailing slot when it reaches the end of the content. *)
Theorem insertByte_replace_pair (hi lo : Z) (w : window) :
  0 <= hi < 16 -> 0 <= lo < 16 ->
  pending w = false -> append w = false -> width w <> 0 ->
  0 <= length w -> Int64.min_int <= cursor w < Int64.max_int ->
  let w' :=
    set_length (if length w =? 0 then 1 else length w)
      (replace (cursor w) (16 * hi + lo) w) in
  exists o,
    (w1 <- insertByte Replace hi w ;; insertByte Replace lo w1)
    = Ok (set_pendingByte 0
            (set_offset o
               (if replaceByte w then w'
                else openSlot (set_cursor (cursor w + 1) w')))).
Proof.
  intros Hh Hl Hp Ha Hw Hlen Hc w'.
  rewrite (insertByte_stash Replace _ w Hp). cbv beta iota delta [bind].
  unfold insertByte at 1.
  cbn [pending set_pending set_pendingByte]. cbv beta iota zeta.
  assert (Hb : Z.lor (pendingByte (set_pendingByte (byte_wrap (Z.shiftl hi 4))
                                     (set_pending true w))) lo = 16 * hi + lo)
    by (destruct w; fields; apply nibbles_byte; assumption).
  rewrite Hb. clear Hb.
  assert (Hw1 :
    (let w0 := replace (cursor (set_pendingByte (byte_wrap (Z.shiftl hi 4))
                                  (set_pending true w))) (16 * hi + lo)
                 (set_pendingByte (byte_wrap (Z.shiftl hi 4)) (set_pending true w)) in
     if length w0 =? 0 then set_length (length w0 + 1)%i64 w0 else w0)
    = set_pendingByte (byte_wrap (Z.shiftl hi 4)) (set_pending true w')).
  { subst w'. cbv zeta. unfold replace, tick.
    destruct w as [b t pc h ht wd o0 c l st ap rb ex pe pb vs ft]. fields.
    destruct (Z.eqb_spec l 0) as [-> |]; [unwrap |]; reflexivity. }
  cbv zeta in Hw1. rewrite Hw1. clear Hw1.
  assert (Hrb : replaceByte (set_pendingByte (byte_wrap (Z.shiftl hi 4))
                               (set_pending true w')) = replaceByte w)
    by (subst w'; unfold replace, tick; destruct w; reflexivity).
  rewrite Hrb. clear Hrb.
  destruct (replaceByte w) eqn:Hrb.
  - cbv beta iota delta [bind].
    match goal with
    | |- context [scrollDownToCursor ?x] =>
        destruct (scrollDownToCursor_offset x) as (o & Ho);
        [subst w'; unfold exitInsert, replace, tick; destruct w; fields;
         subst; fields; exact Hw | rewrite Ho]
    end.
    exists o. f_equal. subst w'. unfold exitInsert, replace, tick.
    destruct w; fields; subst; fields. reflexivity.
  - cbv beta iota delta [bind].
    match goal with
    | |- context [scrollDownToCursor ?x] =>
        destruct (scrollDownToCursor_offset x) as (o & Ho);
        [subst w'; unfold openSlot, replace, tick; destruct w; fields;
         match goal with |- context [if ?c then _ else _] => destruct c end;
         fields; exact Hw | rewrite Ho]
    end.
    exists o. f_equal. subst w'. unfold openSlot, replace, tick.
    destruct w as [b t pc h ht wd o0 c l st ap rb ex pe pb vs ft]. fields.
    unwrap.
    destruct (Z.eqb_spec l 0) as [-> |]; fields;
      match goal with |- context [if ?c then _ else _] => destruct c end;
      subst; reflexivity.
Qed.

Lemma insertByte_replace_pair_witness :
  exists o,
    (w1 <- insertByte Replace 10 (set_replaceByte true Examples.ten) ;;
     insertByte Replace 15 w1)
    = Ok (set_offset o
            (set_changedTick 1
               (set_buffer [175; 2; 3; 4; 5; 6; 7; 8; 9; 10]
                  (set_replaceByte true Examples.ten)))).
Proof.
  destruct (insertByte_replace_pair 10 15 (set_replaceByte true Examples.ten))
    as (o & H);
    try reflexivity; try (cbn; unfold Int64.min_int, Int64.max_int; lia).
  exists o. exact H.
Defined.

(** ** Checkpoints of navigation *)

(** A navigation command never advances the change counter. *)
Lemma handle_navigation_edits (e : Event) (w w1 : window) :
  isNavigation (Type_ e) = true ->
  handle e w = Ok (Some w1) -> edits 0 w w1.
Proof.
  intros Hn H.
  assert (Hsome : forall r : result window,
             editsR 0 w r -> (w' <- r ;; Ok (Some w')) = Ok (Some w1) ->
             edits 0 w w1).
  { intros r Hr E. destruct r as [a |]; simpl in E; [| discriminate E].
    injection E as <-. apply Hr. reflexivity. }
  unfold handle in H.
  destruct (Type_ e); try discriminate Hn;
    (apply Hsome in H; [exact H | edits_command]).
Qed.

(** X9: a navigation command changes neither the content nor the change
    counter, and clears [prevChanged]; outside Normal mode, when the command
    before it changed the content, it pushes one checkpoint, which holds the
    viewport and the cursor from before the navigation; otherwise it leaves
    the history alone. *)
Theorem navigation_checkpoint (e : Event) (w w' : window) :
  isNavigation (Type_ e) = true ->
  run_step e w = Ok w' ->
  buffer w' = buffer w /\ changedTick w' = changedTick w /\
  prevChanged w' = false /\
  history w'
  = (if negb (Mode_eqb (Mode_ e) Normal) && prevChanged w
     then History.Push (history w) (buffer w) (offset w) (cursor w)
     else history w).
Proof.
  intros Hn H. unfold run_step in H.
  destruct (handle e w) as [[w1 |] |] eqn:Hh; simpl in H; try discriminate H.
  - injection H as <-.
    destruct (handle_navigation_edits e w w1 Hn Hh) as (Hhi & Hpc & k & Hk & Ht & Hb).
    assert (k = O) by lia. subst k. simpl in Ht. specialize (Hb eq_refl).
    unfold checkpoint. rewrite Ht, Z.eqb_refl, Hpc, Hn.
    assert (Hu : isUndoRedo (Type_ e) = false) by (destruct (Type_ e); try discriminate Hn; reflexivity).
    assert (Hx : isExitInsert (Type_ e) = false) by (destruct (Type_ e); try discriminate Hn; reflexivity).
    rewrite Hu, Hx. cbn [negb andb orb].
    rewrite !andb_false_r, !andb_true_r. cbn [orb].
    destruct (negb (Mode_eqb (Mode_ e) Normal) && prevChanged w) eqn:Hc.
    + unfold push. destruct w1; simpl in *. subst. repeat split; reflexivity.
    + destruct w1; simpl in *. subst. repeat split; reflexivity.
  - exfalso. unfold handle in Hh.
    destruct (Type_ e); try discriminate Hn;
      match type of Hh with
      | (w' <- ?r ;; _) = _ => destruct r; discriminate Hh
      end.
Qed.

Lemma navigation_checkpoint_witness :
  exists w',
    run_step (Examples.event CursorRight 1 Insert)
             (set_prevChanged true (set_cursor 5 Examples.ten)) = Ok w' /\
    cursor w' = 6 /\
    history w'
    = History.Push (history Examples.ten) (buffer Examples.ten) 0 5.
Proof.
  eexists. split; [vm_compute; reflexivity |]. split; [reflexivity |].
  apply (navigation_checkpoint (Examples.event CursorRight 1 Insert)
           (set_prevChanged true (set_cursor 5 Examples.ten)));
    [reflexivity | vm_compute; reflexivity].
Defined.

(** ** The invariant of navigation, for counts that a user types *)

(** The bounds of [base_ok] as numerals, for [lia]. *)
Ltac big_consts :=
  i64_consts;
  change (2 ^ 31) with 2147483648 in *;
  change (2 ^ 61) with 2305843009213693952 in *;
  change (Z.pow_pos 2 31) with 2147483648 in *;
  change (Z.pow_pos 2 61) with 2305843009213693952 in *.

(** What the arithmetic needs of a division by a positive number. *)
Lemma div_facts (a b : Z) :
  0 < b ->
  a = b * (a / b) + a mod b /\ 0 <= a mod b < b /\
  (0 <= a -> 0 <= a / b <= a /\ 0 <= b * (a / b)).
Proof.
  intros Hb. split; [apply Z.div_mod; lia |].
  split; [apply Z.mod_pos_bound; lia |].
  intros Ha.
  assert (Hq : 0 <= a / b) by (apply Z.div_pos; lia).
  split; [split; [exact Hq |] | apply Z.mul_nonneg_nonneg; lia].
  apply Z.div_le_upper_bound; [lia |]. nia.
Qed.

(** A product of a count and a width is far from the ends of [int64]. *)
Lemma mul_small (u v : Z) :
  - 2147483648 <= u <= 2147483648 -> 0 < v < 2147483648 ->
  - 4611686018427387904 <= u * v <= 4611686018427387904 /\
  (0 <= u -> 0 <= u * v) /\ (u <= 0 -> u * v <= 0).
Proof. intros Hu Hv. nia. Qed.

(** Name the quotient and the remainder of a division by a variable, with
    the facts that define them. *)
Ltac div_vars a b :=
  let q := fresh "q" in
  let r := fresh "r" in
  let F := fresh "F" in
  pose proof (div_facts a b ltac:(lia)) as F;
  set (q := a / b) in *; set (r := a mod b) in *;
  clearbody q r; destruct F as (? & ? & ?).

(** [a] holds no division by a variable. *)
Ltac no_div a :=
  lazymatch a with
  | context [Z.div _ ?b] => tryif is_var b then fail else idtac
  | context [Z.modulo _ ?b] => tryif is_var b then fail else idtac
  | _ => idtac
  end.

(** [a] holds no operation that is yet to be made exact. *)
Ltac no_wrap a :=
  lazymatch a with
  | context [Int64.wrap _] => fail
  | context [Z.quot _ _] => fail
  | context [Z.rem _ _] => fail
  | _ => idtac
  end.

(** A value is within [int64], by linear arithmetic. *)
Ltac range :=
  unfold Int64.in_range, Int64.min_int, Int64.max_int;
  change (2 ^ 63) with 9223372036854775808;
  lia.

(** The bounds of the products by a variable in [x], where the other factor
    is small. *)
Ltac pose_products x :=
  repeat match x with
         | context [?u * ?v] =>
             is_var v;
             lazymatch goal with
             | _ : - 4611686018427387904 <= u * v <= 4611686018427387904 /\ _ |- _ => fail
             | _ => pose proof (mul_small u v ltac:(lia) ltac:(lia))
             end
         end.

(** Make the innermost 64-bit operation exact; a division by a variable
    gets a name for its quotient. *)
Ltac exact1 :=
  match goal with
  | |- context [Z.quot ?a ?b] =>
      no_wrap a; rewrite (Z.quot_div_nonneg a b) by lia
  | |- context [Z.rem ?a ?b] =>
      no_wrap a; rewrite (Z.rem_mod_nonneg a b) by lia
  | |- context [Z.div ?a ?b] => is_var b; no_wrap a; no_div a; div_vars a b
  | |- context [Z.modulo ?a ?b] => is_var b; no_wrap a; no_div a; div_vars a b
  | |- context [Int64.wrap ?x] =>
      no_wrap x;
      first [ rewrite (wrap_small x) by range
            | pose_products x; rewrite (wrap_small x) by range ]
  end.

(** Make every 64-bit operation of the goal exact. *)
Ltac exact_arith :=
  unfold Int64.add, Int64.sub, Int64.mul, Int64.neg, MinInt64, MaxInt64 in *;
  repeat exact1.

(** Run the code up to the next test: divisions by the width do not
    panic. *)
Ltac run_code :=
  repeat first
    [ rewrite quo_ok by lia
    | rewrite rem_ok by lia
    | progress cbv beta iota zeta delta [bind] ].

Lemma Len_nonneg (b : Buffer.t) : 0 <= Buffer.Len b.
Proof. unfold Buffer.Len. lia. Qed.

(** The row of a byte in the viewport starts and ends in the viewport. *)
Lemma row_in_view (o c ht wd : Z) :
  0 < wd -> o mod wd = 0 -> o <= c < o + ht * wd ->
  o <= wd * (c / wd) /\ wd * (c / wd) + wd <= o + ht * wd.
Proof.
  intros Hw Hom Hv.
  pose proof (Z.div_mod o wd ltac:(lia)) as Ho. rewrite Hom in Ho.
  pose proof (Z.div_le_mono o c wd ltac:(lia) ltac:(lia)) as H1.
  assert (H2 : c / wd < o / wd + ht).
  { apply Z.div_lt_upper_bound; [lia |]. nia. }
  split; nia.
Qed.

(** Take a window and its invariant apart. *)
Ltac open_window w H :=
  let Hw := fresh "Hw" in let Hh := fresh "Hh" in let Hj := fresh "Hj" in
  let Hl := fresh "Hl" in let Hs := fresh "Hs" in let Hst := fresh "Hst" in
  let Hc := fresh "Hc" in let Ho := fresh "Ho" in let Hom := fresh "Hom" in
  let Hv := fresh "Hv" in let Hhw := fresh "Hhw" in let Hrow := fresh "Hrow" in
  let Hlen := fresh "Hlen" in let Hl' := fresh "Hl'" in
  destruct H as [[Hw Hh Hj Hl Hs Hst] Hc [Ho Hom] Hv];
  destruct w as [b t pc h ht wd o c l st ap rb ex pe pb vs ft];
  cbn [buffer changedTick prevChanged history height width offset cursor
       length stack append replaceByte extending pending pendingByte
       visualStart focusText] in *;
  big_consts;
  pose proof (Len_nonneg b) as Hlen;
  assert (Hhw : wd <= ht * wd /\ ht * wd < 4611686018427387904) by nia;
  pose proof (row_in_view o c ht wd ltac:(lia) Hom Hv) as Hrow;
  assert (Hl' : 0 <= l <= 2305843009213693952) by (destruct ex; lia).

(** The same of a window whose viewport is yet to follow the cursor. *)
Ltac open_pre w H :=
  let Hw := fresh "Hw" in let Hh := fresh "Hh" in let Hj := fresh "Hj" in
  let Hl := fresh "Hl" in let Hs := fresh "Hs" in let Hst := fresh "Hst" in
  let Hc := fresh "Hc" in let Ho := fresh "Ho" in let Hom := fresh "Hom" in
  let Hhw := fresh "Hhw" in
  let Hlen := fresh "Hlen" in let Hl' := fresh "Hl'" in
  destruct H as [[Hw Hh Hj Hl Hs Hst] Hc [Ho Hom]];
  destruct w as [b t pc h ht wd o c l st ap rb ex pe pb vs ft];
  cbn [buffer changedTick prevChanged history height width offset cursor
       length stack append replaceByte extending pending pendingByte
       visualStart focusText] in *;
  big_consts;
  pose proof (Len_nonneg b) as Hlen;
  assert (Hhw : wd <= ht * wd /\ ht * wd < 4611686018427387904) by nia;
  assert (Hl' : 0 <= l <= 2305843009213693952) by (destruct ex; lia).

(** Reduce the reads and writes of fields in the goal. *)
Ltac code :=
  cbn [buffer changedTick prevChanged history height width offset cursor
       length stack append replaceByte extending pending pendingByte
       visualStart focusText
       set_buffer set_changedTick set_prevChanged set_history set_height
       set_width set_offset set_cursor set_length set_stack set_append
       set_replaceByte set_extending set_pending set_pendingByte
       set_visualStart set_focusText].

(** The fields that a command did not write are as they were. *)
Ltac base_done :=
  constructor; code; cbv beta iota in *;
  first [ assumption | lia
        | match goal with
          | H : Forall (position_ok _) ?s |- Forall (position_ok _) ?s => exact H
          end ].

Lemma nav_ok_pre (w : window) : nav_ok w -> pre_ok w.
Proof. intros [Hb Hc Ho Hv]. constructor; assumption. Qed.

(** The scroll down to the cursor. *)
Lemma scrollDownToCursor_ok (w : window) :
  pre_ok w -> offset w <= cursor w ->
  exists w', scrollDownToCursor w = Ok w' /\ nav_ok w'.
Proof.
  intros H Hle. open_pre w H.
  unfold scrollDownToCursor. code.
  run_code. exact_arith.
  destruct (Z.leb_spec (o + ht * wd) c) as [Hscroll | Hstay].
  - run_code. exact_arith.
    eexists. split; [reflexivity |].
    constructor; cbn; [base_done | lia | | ].
    + split; [lia | apply Z.mod_mul; lia].
    + lia.
  - eexists. split; [reflexivity |].
    constructor; cbn; [base_done | lia | split; assumption | lia].
Qed.

(** The scroll up to the cursor. *)
Lemma scrollUpToCursor_ok (w : window) :
  pre_ok w -> cursor w < offset w + height w * width w ->
  exists w', scrollUpToCursor w = Ok w' /\ nav_ok w'.
Proof.
  intros H Hle. open_pre w H.
  unfold scrollUpToCursor. code.
  destruct (Z.ltb_spec c o) as [Hscroll | Hstay].
  - run_code. exact_arith.
    eexists. split; [reflexivity |].
    constructor; cbn; [base_done | lia | | ].
    + split; [lia | apply Z.mod_mul; lia].
    + lia.
  - eexists. split; [reflexivity |].
    constructor; cbn; [base_done | lia | split; assumption | lia].
Qed.

(** A move of the cursor toward the end, then the scroll down to it. *)
Lemma move_down_ok (w : window) (c' : Z) :
  nav_ok w -> cursor w <= c' < Z.max (length w) 1 ->
  exists w', scrollDownToCursor (set_cursor c' w) = Ok w' /\ nav_ok w'.
Proof.
  intros [Hb Hc Ho Hv] Hc'. apply scrollDownToCursor_ok.
  - constructor; destruct w; code; cbn in *; try assumption; try lia.
    destruct Hb. constructor; assumption.
  - destruct w; cbn in *; lia.
Qed.

(** A move of the cursor toward the start, then the scroll up to it. *)
Lemma move_up_ok (w : window) (c' : Z) :
  nav_ok w -> 0 <= c' <= cursor w ->
  exists o',
    scrollUpToCursor (set_cursor c' w) = Ok (set_offset o' (set_cursor c' w)) /\
    nav_ok (set_offset o' (set_cursor c' w)).
Proof.
  intros [Hb Hc Ho Hv] Hc'.
  destruct (scrollUpToCursor_ok (set_cursor c' w)) as (w' & Hr & Hok).
  - constructor; destruct w; code; cbn in *; try assumption; try lia.
    destruct Hb. constructor; assumption.
  - destruct w; cbn in *; lia.
  - destruct (scrollUpToCursor_offset (set_cursor c' w)) as (o' & Ho').
    + destruct Hb as [Hw _ _ _ _ _]. destruct w; cbn in *; lia.
    + exists o'. split; [exact Ho' |]. congruence.
Qed.

(** Closing the virtual trailing slot behind the cursor. *)
Lemma closeSlot_ok (w : window) :
  nav_ok w -> extending w = true ->
  cursor w < length w - 1 \/ cursor w = 0 ->
  nav_ok (closeSlot w).
Proof.
  intros H He Hc'. open_window w H. subst ex.
  unfold closeSlot. code.
  destruct (Z.ltb_spec 0 l); [| lia].
  exact_arith.
  constructor; code; [base_done | lia | split; assumption | lia].
Qed.

Lemma cursorUp_ok (count : Z) (w : window) :
  nav_ok w -> count <= 2 ^ 31 ->
  exists w', cursorUp count w = Ok w' /\ nav_ok w'.
Proof.
  intros H Hcount. pose proof H as H0. open_window w H.
  unfold cursorUp. code. run_code. exact_arith.
  match goal with
  | |- context [c - ?d] =>
      assert (Hd : 0 <= d <= c) by nia; set (c' := c - d) in *
  end.
  assert (Hc' : 0 <= c' <= c) by (subst c'; lia). clearbody c'.
  match goal with
  | |- context [scrollUpToCursor ?x] =>
      destruct (move_up_ok _ c' H0 Hc') as (o' & Hr & Hok);
      change x with (set_cursor c' {| buffer := b; changedTick := t; prevChanged := pc;
        history := h; height := ht; width := wd; offset := o; cursor := c;
        length := l; stack := st; append := ap; replaceByte := rb; extending := ex;
        pending := pe; pendingByte := pb; visualStart := vs; focusText := ft |})
  end.
  rewrite Hr. run_code. code.
  eexists. split; [reflexivity |].
  match goal with
  | |- context [if ?cnd then _ else _] => destruct cnd eqn:Hslot; [| exact Hok]
  end.
  apply andb_prop in Hslot. destruct Hslot as [Hslot Hlt].
  apply andb_prop in Hslot. destruct Hslot as [_ Hex].
  apply closeSlot_ok; [exact Hok | exact Hex |].
  left. code. revert Hlt. exact_arith. intros Hlt. apply Z.ltb_lt in Hlt. lia.
Qed.

(** The four proof obligations of [nav_ok] on a window that is written
    out. *)
Ltac nav_done :=
  constructor; code;
  [ base_done | try lia | try (split; [lia | first [assumption | apply Z.mod_mul; lia]])
  | try lia ].

Lemma cursorDown_ok (count : Z) (w : window) :
  nav_ok w -> count <= 2 ^ 31 ->
  exists w', cursorDown count w = Ok w' /\ nav_ok w'.
Proof.
  intros H Hcount. pose proof H as H0. open_window w H.
  unfold cursorDown. code. run_code.
  pose proof (Z.div_le_mono c (Z.max l 1 - 1) wd ltac:(lia) ltac:(lia)) as Hmono.
  exact_arith.
  match goal with
  | |- context [c + ?d] =>
      assert (Hd : 0 <= d <= Z.max l 1 - 1 - c) by lia; set (c' := c + d) in *
  end.
  assert (Hc' : c <= c' < Z.max l 1) by (subst c'; lia). clearbody c'.
  exact (move_down_ok _ c' H0 Hc').
Qed.

Lemma cursorLeft_ok (count : Z) (w : window) :
  nav_ok w -> count <= 2 ^ 31 ->
  exists w', cursorLeft count w = Ok w' /\ nav_ok w'.
Proof.
  intros H Hcount. open_window w H.
  unfold cursorLeft. code. run_code. exact_arith.
  match goal with
  | |- context [c - ?d] =>
      assert (Hd : 0 <= d <= r) by lia; set (c' := c - d) in *
  end.
  assert (Hc' : wd * q <= c' <= c) by (subst c'; lia). clearbody c'.
  eexists. split; [reflexivity |].
  match goal with
  | |- context [if ?cnd then _ else _] => destruct cnd eqn:Hslot
  end.
  - apply andb_prop in Hslot. destruct Hslot as [Hslot Hlt].
    apply andb_prop in Hslot. destruct Hslot as [_ Hex].
    apply closeSlot_ok; [nav_done | exact Hex |].
    left. code. apply Z.ltb_lt in Hlt. lia.
  - nav_done.
Qed.

Lemma cursorRight_ok (m : Mode) (count : Z) (w : window) :
  nav_ok w -> count <= 2 ^ 31 ->
  exists w', cursorRight m count w = Ok w' /\ nav_ok w'.
Proof.
  intros H Hcount. pose proof H as H0. open_window w H.
  unfold cursorRight. code.
  destruct (Mode_eqb m Normal).
  - run_code. exact_arith.
    match goal with
    | |- context [c + ?d] =>
        assert (Hd : 0 <= d <= wd - 1 - r /\ d <= Z.max l 1 - 1 - c) by lia;
        set (c' := c + d) in *
    end.
    assert (Hc' : c <= c' < wd * q + wd /\ c' < Z.max l 1) by (subst c'; lia).
    clearbody c'.
    eexists. split; [reflexivity |]. nav_done.
  - destruct ex eqn:Hex; cbn [negb]; [eexists; split; [reflexivity | exact H0] |].
    run_code. exact_arith.
    match goal with
    | |- context [c + ?d] =>
        assert (Hd : 0 <= d <= wd - 1 - r /\ d <= l - c) by lia;
        set (c' := c + d) in *
    end.
    assert (Hc' : c <= c' < wd * q + wd /\ c' <= l) by (subst c'; lia).
    clearbody c'.
    eexists. split; [reflexivity |].
    unfold openSlot. code.
    destruct (Z.eqb_spec c' l); code; exact_arith; nav_done.
Qed.

Lemma cursorPrev_ok (count : Z) (w : window) :
  nav_ok w -> count <= 2 ^ 31 ->
  exists w', cursorPrev count w = Ok w' /\ nav_ok w'.
Proof.
  intros H Hcount. pose proof H as H0. open_window w H.
  unfold cursorPrev. code. run_code. exact_arith.
  match goal with
  | |- context [c - ?d] =>
      assert (Hd : 0 <= d <= c /\ (0 < c -> 0 < d)) by lia; set (c' := c - d) in *
  end.
  assert (Hc' : 0 <= c' <= c) by (subst c'; lia).
  assert (Hc'' : c' < c \/ c' = 0) by (subst c'; lia).
  clearbody c'.
  match goal with
  | |- context [scrollUpToCursor ?x] =>
      destruct (move_up_ok _ c' H0 Hc') as (o' & Hr & Hok);
      match type of H0 with nav_ok ?W => change x with (set_cursor c' W) end
  end.
  rewrite Hr. run_code. code.
  eexists. split; [reflexivity |].
  match goal with
  | |- context [if ?cnd then _ else _] => destruct cnd eqn:Hslot; [| exact Hok]
  end.
  apply andb_prop in Hslot. destruct Hslot as [Hslot Hlt].
  apply andb_prop in Hslot. destruct Hslot as [_ Hex].
  apply closeSlot_ok; [exact Hok | exact Hex |].
  code. lia.
Qed.

Lemma cursorNext_ok (m : Mode) (count : Z) (w : window) :
  nav_ok w -> count <= 2 ^ 31 ->
  exists w', cursorNext m count w = Ok w' /\ nav_ok w'.
Proof.
  intros H Hcount. pose proof H as H0. open_window w H.
  unfold cursorNext. code.
  destruct (Mode_eqb m Normal).
  - exact_arith.
    match goal with
    | |- context [c + ?d] =>
        assert (Hd : 0 <= d <= Z.max l 1 - 1 - c) by lia; set (c' := c + d) in *
    end.
    assert (Hc' : c <= c' < Z.max l 1) by (subst c'; lia). clearbody c'.
    exact (move_down_ok _ c' H0 Hc').
  - destruct ex eqn:Hex; cbn [negb].
    + apply scrollDownToCursor_ok; [apply nav_ok_pre; exact H0 | code; lia].
    + exact_arith.
      match goal with
      | |- context [c + ?d] =>
          assert (Hd : 0 <= d <= l - c) by lia; set (c' := c + d) in *
      end.
      assert (Hc' : c <= c' <= l) by (subst c'; lia). clearbody c'.
      unfold openSlot. code.
      destruct (Z.eqb_spec c' l); code; exact_arith;
        (apply scrollDownToCursor_ok;
         [constructor; code; [base_done | lia | split; assumption] | code; lia]).
Qed.

Lemma cursorHead_ok (count : Z) (w : window) :
  nav_ok w -> exists w', cursorHead count w = Ok w' /\ nav_ok w'.
Proof.
  intros H. open_window w H.
  unfold cursorHead. code. run_code. exact_arith.
  eexists. split; [reflexivity |]. nav_done.
Qed.

Lemma cursorEnd_ok (count : Z) (w : window) :
  nav_ok w -> count <= 2 ^ 31 ->
  exists w', cursorEnd count w = Ok w' /\ nav_ok w'.
Proof.
  intros H Hcount. pose proof H as H0. open_window w H.
  unfold cursorEnd. code. run_code.
  unfold Int64.add, Int64.sub, Int64.mul, Int64.neg, MinInt64, MaxInt64 in *.
  do 3 exact1.
  set (k := Z.max count 1) in *.
  assert (Hk : 1 <= k <= 2147483648) by (subst k; lia). clearbody k.
  pose proof (mul_small k wd ltac:(lia) ltac:(lia)) as (Hkw & Hkw' & _).
  assert (Hkw'' : wd <= k * wd) by (clear - Hk Hw; nia).
  assert (Hsum : (q + k) * wd = wd * q + k * wd) by ring.
  set (kw := k * wd) in *. clearbody kw.
  rewrite (wrap_small (q + k)) by range.
  rewrite (wrap_small ((q + k) * wd)) by (rewrite Hsum; range).
  rewrite Hsum.
  rewrite (wrap_small (wd * q + kw - 1)) by range.
  rewrite (wrap_small (Z.max l 1 - 1)) by range.
  match goal with
  | |- context [Z.min ?u ?v] =>
      assert (Hc' : c <= Z.min u v < Z.max l 1) by lia; set (c' := Z.min u v) in *
  end.
  clearbody c'.
  exact (move_down_ok _ c' H0 Hc').
Qed.

(** A multiple of the width, by the shape of the expression. *)
Ltac divides :=
  repeat first
    [ assumption
    | apply Z.divide_0_r
    | apply Z.divide_factor_r
    | apply Z.divide_factor_l
    | apply Z.divide_sub_r
    | apply Z.divide_add_r
    | apply Z.divide_opp_r ].

(** Name the quotient and the remainder of the division of [a] by [b]. *)
Ltac name_div a b q r :=
  try rewrite (Z.quot_div_nonneg a b) by lia;
  try rewrite (Z.rem_mod_nonneg a b) by lia;
  let F := fresh "F" in
  pose proof (div_facts a b ltac:(lia)) as F;
  set (q := a / b) in *; set (r := a mod b) in *;
  clearbody q r; destruct F as (? & ? & ?).

Lemma scrollUp_ok (count : Z) (w : window) :
  nav_ok w -> count <= 2 ^ 31 ->
  exists w', scrollUp count w = Ok w' /\ nav_ok w'.
Proof.
  intros H Hcount. open_window w H.
  assert (Hdiv : (wd | o)) by (apply Z.mod_divide; [lia | exact Hom]).
  unfold scrollUp. code. run_code.
  unfold Int64.add, Int64.sub, Int64.mul, Int64.neg, MinInt64, MaxInt64 in *.
  name_div o wd qo ro. rewrite (wrap_small qo) by range.
  set (k := Z.max count 1) in *.
  assert (Hk : 1 <= k <= 2147483648) by (subst k; lia). clearbody k.
  pose proof (mul_small k wd ltac:(lia) ltac:(lia)) as (Hkw & Hkw' & _).
  assert (Hkw'' : wd <= k * wd) by (clear - Hk Hw; nia).
  assert (Hm : exists m, Z.min k qo * wd = m /\ 0 <= m <= o /\ (wd | m)).
  { destruct (Z.min_spec k qo) as [[Hlt ->] | [Hge ->]].
    - exists (k * wd). repeat split; try lia.
      + assert (k * wd <= qo * wd) by (clear - Hlt Hw; nia). lia.
      + apply Z.divide_factor_r.
    - exists (qo * wd). repeat split; try lia.
      apply Z.divide_factor_r. }
  destruct Hm as (m & -> & Hm2 & Hm3).
  rewrite (wrap_small m) by range.
  rewrite (wrap_small (o - m)) by range.
  set (o' := o - m) in *.
  assert (Ho' : 0 <= o' <= o) by (subst o'; lia).
  assert (Hdiv' : (wd | o')) by (subst o'; divides).
  clearbody o'.
  repeat exact1.
  destruct (Z.leb_spec (o' + ht * wd) c) as [Hscroll | Hstay].
  - run_code. repeat exact1.
    eexists. split; [reflexivity |].
    constructor; code;
      [base_done | lia | split; [lia | apply Z.mod_divide; [lia | exact Hdiv']] | lia].
  - eexists. split; [reflexivity |].
    constructor; code;
      [base_done | lia | split; [lia | apply Z.mod_divide; [lia | exact Hdiv']] | lia].
Qed.

Lemma scrollDown_ok (count : Z) (w : window) :
  nav_ok w -> count <= 2 ^ 31 ->
  exists w', scrollDown count w = Ok w' /\ nav_ok w'.
Proof.
  intros H Hcount. open_window w H.
  assert (Hdiv : (wd | o)) by (apply Z.mod_divide; [lia | exact Hom]).
  unfold scrollDown. code. run_code.
  unfold Int64.add, Int64.sub, Int64.mul, Int64.neg, MinInt64, MaxInt64 in *.
  remember (Z.max l 1) as M eqn:EM.
  assert (HM : 1 <= M <= 2305843009213693952 /\ c < M) by lia.
  rewrite (wrap_small (M + wd)) by range.
  rewrite (wrap_small (M + wd - 1)) by range.
  name_div (M + wd - 1) wd q1 r1. rewrite (wrap_small q1) by range.
  name_div o wd qo ro. rewrite (wrap_small qo) by range.
  rewrite (wrap_small (q1 - ht)) by range.
  set (k := Z.max count 1) in *.
  assert (Hk : 1 <= k <= 2147483648) by (subst k; lia). clearbody k.
  assert (Ho' : exists o',
             Int64.wrap (o + Int64.wrap
               (Z.min k (Int64.wrap (Z.max (q1 - ht) 0 - qo)) * wd)) = o' /\
             0 <= o' <= 4611686018427387904 /\ (wd | o') /\
             (c < o' -> o' <= M - 1) /\ (o' <= c -> c < o' + ht * wd)).
  { rewrite (wrap_small (Z.max (q1 - ht) 0 - qo)) by range.
    destruct (Z.max_spec (q1 - ht) 0) as [[Hmax ->] | [Hmax ->]];
      destruct (Z.min_spec k (0 - qo)) as [[Hmin Emin] | [Hmin Emin]];
      destruct (Z.min_spec k (q1 - ht - qo)) as [[Hmin' Emin'] | [Hmin' Emin']];
      try rewrite Emin; try rewrite Emin'; try lia.
    - assert (wd * q1 <= ht * wd) by (clear - Hmax Hw; nia).
      assert (E : (0 - qo) * wd = - o) by lia. rewrite E.
      rewrite (wrap_small (- o)) by range.
      replace (o + - o) with 0 by lia.
      exists 0. split; [reflexivity |].
      split; [lia |]. split; [apply Z.divide_0_r |]. lia.
    - pose proof (mul_small k wd ltac:(lia) ltac:(lia)) as (Hkw & Hkw' & _).
      assert (k * wd <= (q1 - ht - qo) * wd) by (clear - Hmin' Hw; nia).
      rewrite (wrap_small (k * wd)) by range.
      rewrite (wrap_small (o + k * wd)) by range.
      exists (o + k * wd). split; [reflexivity |].
      split; [lia |]. split; [divides |]. lia.
    - assert (0 <= (q1 - ht) * wd) by (clear - Hmax Hw; nia).
      assert (E : (q1 - ht - qo) * wd = wd * q1 - ht * wd - o) by lia. rewrite E.
      rewrite (wrap_small (wd * q1 - ht * wd - o)) by range.
      replace (o + (wd * q1 - ht * wd - o)) with ((q1 - ht) * wd) by lia.
      rewrite (wrap_small ((q1 - ht) * wd)) by range.
      exists ((q1 - ht) * wd). split; [reflexivity |].
      split; [lia |]. split; [divides |]. lia. }
  destruct Ho' as (o' & -> & Ho'1 & Ho'2 & Ho'3 & Ho'4).
  destruct (Z.ltb_spec c o') as [Hmove | Hstay].
  - run_code.
    rewrite (wrap_small (o' - c)) by range.
    rewrite (wrap_small (o' - c + wd)) by range.
    rewrite (wrap_small (o' - c + wd - 1)) by range.
    name_div (o' - c + wd - 1) wd q3 r3. rewrite (wrap_small q3) by range.
    assert (E : q3 * wd = wd * q3) by ring. rewrite E.
    rewrite (wrap_small (wd * q3)) by range.
    rewrite (wrap_small (M - 1)) by range.
    rewrite (wrap_small (M - 1 - c)) by range.
    rewrite (wrap_small (c + Z.min (wd * q3) (M - 1 - c))) by range.
    eexists. split; [reflexivity |].
    constructor; code;
      [base_done | lia | split; [lia | apply Z.mod_divide; [lia | exact Ho'2]] | lia].
  - eexists. split; [reflexivity |].
    constructor; code;
      [base_done | lia | split; [lia | apply Z.mod_divide; [lia | exact Ho'2]] | lia].
Qed.

(** The viewport on the last page and the cursor on the last row, as
    [pageDown] and [pageEnd] compute them. *)
Lemma last_page (l wd ht : Z) :
  0 < wd -> 0 < ht -> 0 <= l ->
  let q := (l + wd - 1) / wd in
  let q' := (Z.max l 1 + wd - 1) / wd in
  let off := Z.max ((q - ht) * wd) 0 in
  let cur := (q' - 1) * wd in
  (q - ht) * wd <= l - 1 /\ - (ht * wd) <= (q - ht) * wd /\
  0 <= q <= l + wd /\ 1 <= q' <= l + wd + 1 /\
  (wd | off) /\ 0 <= cur < Z.max l 1 /\ off <= cur < off + ht * wd.
Proof.
  intros Hw Hh Hl q q' off cur.
  assert (Hq' : q' = Z.max q 1 /\ 0 <= q /\ l <= q * wd <= l + wd - 1).
  { subst q q'.
    pose proof (div_facts (l + wd - 1) wd Hw) as (E & R & P).
    destruct (Z.max_spec l 1) as [[Hlt ->] | [Hge ->]].
    - assert (l = 0) by lia. subst l.
      replace (1 + wd - 1) with wd by lia. rewrite Z_div_same by lia.
      rewrite Z.div_small by lia. split; [reflexivity |]. lia.
    - assert (1 <= (l + wd - 1) / wd).
      { apply Z.div_le_lower_bound; lia. }
      split; [lia |]. split; [lia |]. lia. }
  destruct Hq' as (Eq' & Hq0 & Hqw).
  assert (Hht : wd <= ht * wd) by (clear - Hw Hh; nia).
  assert (Hqq : q = 0 \/ wd <= q * wd) by (clear - Hq0 Hw; nia).
  assert (Hq2 : q' * wd = Z.max (q * wd) wd).
  { rewrite Eq'. clearbody q.
    destruct (Z.max_spec q 1) as [[? ->] | [? ->]]; [| lia].
    assert (q = 0) by lia. subst q. lia. }
  assert (Ecur : cur = q' * wd - wd) by (subst cur; ring).
  assert (Eoff : (q - ht) * wd = q * wd - ht * wd) by ring.
  assert (Hqb : q <= l + wd).
  { destruct Hqq as [-> | Hqq]; [lia |].
    assert (q <= q * wd) by (clear - Hq0 Hw; nia). lia. }
  split; [lia |]. split; [lia |]. split; [lia |]. split; [lia |].
  split.
  - subst off. destruct (Z.max_spec ((q - ht) * wd) 0) as [[? ->] | [? ->]];
      [apply Z.divide_0_r | apply Z.divide_factor_r].
  - subst off. rewrite Ecur, Eoff, Hq2. lia.
Qed.

(** A page jump, in bytes. *)
Lemma jump_bytes (j ht wd : Z) :
  0 <= j <= ht -> 0 < wd -> 0 <= j * wd <= ht * wd.
Proof. intros Hj Hw. nia. Qed.

Lemma pageUpCursor_ok (w : window) :
  pre_ok w -> offset w <= cursor w ->
  nav_ok (pageUpCursor w).
Proof.
  intros H Hle. open_pre w H.
  unfold pageUpCursor. code.
  unfold Int64.add, Int64.sub, Int64.mul, Int64.neg, MinInt64, MaxInt64 in *.
  assert (E : (ht - 1) * wd = ht * wd - wd) by ring.
  rewrite (wrap_small (ht - 1)) by range. rewrite E.
  rewrite (wrap_small (ht * wd)) by range.
  rewrite (wrap_small (ht * wd - wd)) by range.
  rewrite (wrap_small (o + ht * wd)) by range.
  rewrite (wrap_small (o + (ht * wd - wd))) by range.
  destruct (Z.eqb_spec o 0) as [-> | Hne].
  - constructor; code; [base_done | lia | split; assumption | lia].
  - destruct (Z.leb_spec (o + ht * wd) c).
    + constructor; code; [base_done | lia | split; assumption | lia].
    + constructor; code; [base_done | lia | split; assumption | lia].
Qed.

Lemma pageUp_ok (w : window) :
  nav_ok w -> exists w', pageUp w = Ok w' /\ nav_ok w'.
Proof.
  intros H. eexists. split; [reflexivity |].
  apply pageUpCursor_ok.
  - open_window w H. unfold getPageJump. code.
    pose proof (jump_bytes (pageJump ht) ht wd Hj ltac:(lia)) as Hjw.
    remember (pageJump ht) as J eqn:EJ.
    unfold Int64.add, Int64.sub, Int64.mul, Int64.neg, MinInt64, MaxInt64 in *.
    rewrite (wrap_small (J * wd)) by range.
    rewrite (wrap_small (o - J * wd)) by range.
    constructor; code; [base_done | lia |].
    split; [lia |]. apply Z.mod_divide; [lia |].
    assert (Hdiv : (wd | o)) by (apply Z.mod_divide; [lia | exact Hom]).
    destruct (Z.max_spec (o - J * wd) 0) as [[? ->] | [? ->]]; divides.
  - open_window w H. unfold getPageJump. code.
    pose proof (jump_bytes (pageJump ht) ht wd Hj ltac:(lia)) as Hjw.
    remember (pageJump ht) as J eqn:EJ.
    unfold Int64.add, Int64.sub, Int64.mul, Int64.neg, MinInt64, MaxInt64 in *.
    rewrite (wrap_small (J * wd)) by range.
    rewrite (wrap_small (o - J * wd)) by range. lia.
Qed.

Lemma pageUpHalf_ok (w : window) :
  nav_ok w -> exists w', pageUpHalf w = Ok w' /\ nav_ok w'.
Proof.
  intros H. unfold pageUpHalf. rewrite quo_ok by lia.
  cbv beta iota zeta delta [bind].
  eexists. split; [reflexivity |].
  apply pageUpCursor_ok.
  - open_window w H. code.
    name_div ht 2 h2 rh.
    unfold Int64.add, Int64.sub, Int64.mul, Int64.neg, MinInt64, MaxInt64 in *.
    rewrite (wrap_small h2) by range.
    pose proof (jump_bytes (Z.max h2 1) ht wd ltac:(lia) ltac:(lia)) as Hjw.
    set (J := Z.max h2 1) in *. clearbody J.
    rewrite (wrap_small (J * wd)) by range.
    rewrite (wrap_small (o - J * wd)) by range.
    constructor; code; [base_done | lia |].
    split; [lia |]. apply Z.mod_divide; [lia |].
    assert (Hdiv : (wd | o)) by (apply Z.mod_divide; [lia | exact Hom]).
    destruct (Z.max_spec (o - J * wd) 0) as [[? ->] | [? ->]]; divides.
  - open_window w H. code.
    name_div ht 2 h2 rh.
    unfold Int64.add, Int64.sub, Int64.mul, Int64.neg, MinInt64, MaxInt64 in *.
    rewrite (wrap_small h2) by range.
    pose proof (jump_bytes (Z.max h2 1) ht wd ltac:(lia) ltac:(lia)) as Hjw.
    set (J := Z.max h2 1) in *. clearbody J.
    rewrite (wrap_small (J * wd)) by range.
    rewrite (wrap_small (o - J * wd)) by range. lia.
Qed.

(** [pageDown] and [pageDownHalf] after the jump [jw], in bytes, was
    computed. *)
Lemma pageDown_from (w : window) (jw : Z) :
  nav_ok w -> 0 <= jw <= height w * width w -> (width w | jw) ->
  exists w',
    (q <- ((length w + width w - 1) / width w)%i64 ;;
     let offset' := MaxInt64 ((q - height w) * width w)%i64 0 in
     let w := set_offset (MinInt64 (offset w + jw)%i64 offset') w in
     pageDownCursor offset' w) = Ok w' /\ nav_ok w'.
Proof.
  intros H Hjw Hjd. open_window w H.
  assert (Hdiv : (wd | o)) by (apply Z.mod_divide; [lia | exact Hom]).
  pose proof (last_page l wd ht ltac:(lia) ltac:(lia) ltac:(lia)) as LP.
  cbv zeta in LP. destruct LP as (L1 & L2 & L3 & L4 & L5 & L6 & L7).
  unfold pageDownCursor. code. run_code.
  unfold Int64.add, Int64.sub, Int64.mul, Int64.neg, MinInt64, MaxInt64 in *.
  rewrite (wrap_small (l + wd)) by range.
  rewrite (wrap_small (l + wd - 1)) by range.
  rewrite (Z.quot_div_nonneg (l + wd - 1) wd) by lia.
  set (q := (l + wd - 1) / wd) in *. clearbody q.
  rewrite (wrap_small q) by range.
  rewrite (wrap_small (q - ht)) by range.
  rewrite (wrap_small ((q - ht) * wd)) by range.
  set (off := Z.max ((q - ht) * wd) 0) in *.
  assert (Hoff : 0 <= off /\ (0 < off -> off <= l - 1)) by (subst off; lia).
  clearbody off.
  rewrite (wrap_small (o + jw)) by range.
  assert (Ho' : exists o', Z.min (o + jw) off = o' /\ (wd | o') /\
                           0 <= o' <= off /\ o' <= o + jw /\
                           (o' <> off -> o' = o + jw)).
  { destruct (Z.min_spec (o + jw) off) as [[? ->] | [? ->]]; eexists;
      (split; [reflexivity |]); (split; [divides |]); lia. }
  destruct Ho' as (o' & -> & Ho'1 & Ho'2 & Ho'3 & Ho'4).
  code.
  destruct (Z.ltb_spec c o') as [Hlt | Hge].
  - eexists. split; [reflexivity |].
    constructor; code;
      [base_done | lia | split; [lia | apply Z.mod_divide; [lia | exact Ho'1]] | lia].
  - destruct (Z.eqb_spec o' off) as [-> | Hne].
    + run_code.
      rewrite (wrap_small (Z.max l 1 + wd)) by range.
      rewrite (wrap_small (Z.max l 1 + wd - 1)) by range.
      rewrite (Z.quot_div_nonneg (Z.max l 1 + wd - 1) wd) by lia.
      set (q' := (Z.max l 1 + wd - 1) / wd) in *. clearbody q'.
      rewrite (wrap_small q') by range.
      rewrite (wrap_small (q' - 1)) by range.
      rewrite (wrap_small ((q' - 1) * wd)) by range.
      eexists. split; [reflexivity |].
      constructor; code;
        [base_done | lia | split; [lia | apply Z.mod_divide; [lia | exact Ho'1]] | lia].
    + eexists. split; [reflexivity |].
      constructor; code;
        [base_done | lia | split; [lia | apply Z.mod_divide; [lia | exact Ho'1]] | lia].
Qed.

Lemma pageDown_ok (w : window) :
  nav_ok w -> exists w', pageDown w = Ok w' /\ nav_ok w'.
Proof.
  intros H. unfold pageDown.
  apply (pageDown_from w (getPageJump w * width w)%i64 H).
  - destruct H as [[Hw Hh Hj _ _ _] _ _ _]. unfold getPageJump.
    pose proof (jump_bytes (pageJump (height w)) (height w) (width w) Hj ltac:(lia)).
    assert (height w * width w < 4611686018427387904) by (big_consts; nia).
    unfold Int64.mul. rewrite wrap_small by range. lia.
  - destruct H as [[Hw Hh Hj _ _ _] _ _ _]. unfold getPageJump.
    pose proof (jump_bytes (pageJump (height w)) (height w) (width w) Hj ltac:(lia)).
    assert (height w * width w < 4611686018427387904) by (big_consts; nia).
    unfold Int64.mul. rewrite wrap_small by range. apply Z.divide_factor_r.
Qed.

Lemma pageDownHalf_ok (w : window) :
  nav_ok w -> exists w', pageDownHalf w = Ok w' /\ nav_ok w'.
Proof.
  intros H. unfold pageDownHalf.
  rewrite (quo_ok (height w) 2) by lia.
  assert (Hj : 0 <= Z.max (Int64.wrap (Z.quot (height w) 2)) 1 <= height w).
  { destruct H as [[Hw Hh _ _ _ _] _ _ _]. big_consts.
    rewrite (Z.quot_div_nonneg (height w) 2) by lia.
    pose proof (div_facts (height w) 2 ltac:(lia)) as (? & ? & ?).
    rewrite wrap_small by range. lia. }
  cbv beta iota zeta delta [bind] in *.
  apply (pageDown_from w (MaxInt64 (Int64.wrap (Z.quot (height w) 2)) 1 * width w)%i64 H).
  - destruct H as [[Hw Hh _ _ _ _] _ _ _]. unfold MaxInt64.
    pose proof (jump_bytes _ (height w) (width w) Hj ltac:(lia)).
    assert (height w * width w < 4611686018427387904) by (big_consts; nia).
    unfold Int64.mul. rewrite wrap_small by range. lia.
  - destruct H as [[Hw Hh _ _ _ _] _ _ _]. unfold MaxInt64.
    pose proof (jump_bytes _ (height w) (width w) Hj ltac:(lia)).
    assert (height w * width w < 4611686018427387904) by (big_consts; nia).
    unfold Int64.mul. rewrite wrap_small by range. apply Z.divide_factor_r.
Qed.

Lemma pageTop_ok (w : window) :
  nav_ok w -> exists w', pageTop w = Ok w' /\ nav_ok w'.
Proof.
  intros H. eexists. split; [reflexivity |]. open_window w H.
  constructor; code;
    [base_done | lia | split; [lia | apply Z.mod_0_l; lia] | lia].
Qed.

Lemma pageEnd_ok (w : window) :
  nav_ok w -> exists w', pageEnd w = Ok w' /\ nav_ok w'.
Proof.
  intros H. open_window w H.
  pose proof (last_page l wd ht ltac:(lia) ltac:(lia) ltac:(lia)) as LP.
  cbv zeta in LP. destruct LP as (L1 & L2 & L3 & L4 & L5 & L6 & L7).
  unfold pageEnd. code. run_code.
  unfold Int64.add, Int64.sub, Int64.mul, Int64.neg, MinInt64, MaxInt64 in *.
  rewrite (wrap_small (l + wd)) by range.
  rewrite (wrap_small (l + wd - 1)) by range.
  rewrite (Z.quot_div_nonneg (l + wd - 1) wd) by lia.
  set (q := (l + wd - 1) / wd) in *. clearbody q.
  rewrite (wrap_small q) by range.
  rewrite (wrap_small (q - ht)) by range.
  rewrite (wrap_small ((q - ht) * wd)) by range.
  rewrite (wrap_small (Z.max l 1 + wd)) by range.
  rewrite (wrap_small (Z.max l 1 + wd - 1)) by range.
  rewrite (Z.quot_div_nonneg (Z.max l 1 + wd - 1) wd) by lia.
  set (q' := (Z.max l 1 + wd - 1) / wd) in *. clearbody q'.
  rewrite (wrap_small q') by range.
  rewrite (wrap_small (q' - 1)) by range.
  rewrite (wrap_small ((q' - 1) * wd)) by range.
  eexists. split; [reflexivity |].
  constructor; code;
    [base_done | lia | split; [lia | apply Z.mod_divide; [lia | exact L5]] | lia].
Qed.

Lemma half_height (ht wd : Z) :
  0 < ht -> 0 < wd ->
  0 <= ht / 2 /\ ht / 2 + 1 <= ht /\
  0 <= ht / 2 * wd /\ ht / 2 * wd + wd <= ht * wd.
Proof.
  intros Hh Hw.
  pose proof (div_facts ht 2 ltac:(lia)) as (E & R & P).
  assert (ht / 2 + 1 <= ht) by lia.
  split; [lia |]. split; [lia |]. nia.
Qed.

Lemma cursorGotoPos_ok (pos : Position) (w : window) :
  nav_ok w -> exists w', cursorGotoPos pos w = Ok w' /\ nav_ok w'.
Proof.
  intros H. unfold cursorGotoPos.
  destruct (positionToOffset w pos) as [offset' |];
    [| eexists; split; [reflexivity | exact H]].
  pose proof H as H0. open_window w H.
  pose proof (half_height ht wd ltac:(lia) ltac:(lia)) as (G1 & G2 & G3 & G4).
  code. run_code.
  unfold Int64.add, Int64.sub, Int64.mul, Int64.neg, MinInt64, MaxInt64 in *.
  rewrite (wrap_small (Z.max l 1 - 1)) by range.
  remember (Z.max l 1) as M eqn:EM.
  set (c' := Z.max (Z.min offset' (M - 1)) 0) in *.
  assert (Hc' : 0 <= c' < M) by (subst c'; lia). clearbody c'.
  rewrite (Z.quot_div_nonneg ht 2) by lia.
  set (h2 := ht / 2) in *. clearbody h2.
  rewrite (wrap_small h2) by range.
  rewrite (wrap_small (ht * wd)) by range.
  rewrite (wrap_small (o + ht * wd)) by range.
  destruct (Z.ltb_spec c' o) as [Hup | Hnotup].
  - name_div c' wd q r. rewrite (wrap_small q) by range.
    assert (Ho' : exists o', (Z.max q h2 - h2) * wd = o' /\ (wd | o') /\
                             0 <= o' <= c' /\ c' < o' + ht * wd).
    { destruct (Z.max_spec q h2) as [[Hlt ->] | [Hge ->]].
      - exists 0. split; [ring |]. split; [apply Z.divide_0_r |].
        assert (wd * q + wd <= h2 * wd) by (clear - Hlt Hw; nia). lia.
      - exists ((q - h2) * wd). split; [reflexivity |].
        split; [apply Z.divide_factor_r |].
        assert (0 <= (q - h2) * wd) by (clear - Hge Hw; nia).
        assert ((q - h2) * wd = wd * q - h2 * wd) by ring. lia. }
    destruct Ho' as (o' & Eo' & Ho'1 & Ho'2 & Ho'3).
    assert (Hmax : Z.max q h2 - h2 <= q) by lia.
    rewrite (wrap_small (Z.max q h2 - h2)) by range.
    rewrite Eo'. rewrite (wrap_small o') by range.
    eexists. split; [reflexivity |].
    constructor; code;
      [base_done | lia | split; [lia | apply Z.mod_divide; [lia | exact Ho'1]] | lia].
  - destruct (Z.leb_spec (o + ht * wd) c') as [Hdown | Hstay].
    + run_code.
      rewrite (wrap_small (M + wd)) by range.
      rewrite (wrap_small (M + wd - 1)) by range.
      name_div (M + wd - 1) wd q1 r1. rewrite (wrap_small q1) by range.
      rewrite (wrap_small (q1 - ht)) by range.
      rewrite (wrap_small (c' - ht * wd)) by range.
      rewrite (wrap_small (c' - ht * wd + wd)) by range.
      name_div (c' - ht * wd + wd) wd q2 r2. rewrite (wrap_small q2) by range.
      rewrite (wrap_small (q2 + h2)) by range.
      assert (Ho' : exists o', Z.min (q2 + h2) (q1 - ht) * wd = o' /\ (wd | o') /\
                               0 <= o' <= c' /\ c' < o' + ht * wd).
      { destruct (Z.min_spec (q2 + h2) (q1 - ht)) as [[Hlt ->] | [Hge ->]].
        - exists ((q2 + h2) * wd). split; [reflexivity |].
          split; [apply Z.divide_factor_r |].
          assert ((q2 + h2) * wd = wd * q2 + h2 * wd) by ring. lia.
        - exists ((q1 - ht) * wd). split; [reflexivity |].
          split; [apply Z.divide_factor_r |].
          assert ((q1 - ht) * wd = wd * q1 - ht * wd) by ring.
          assert ((q1 - ht) * wd <= (q2 + h2) * wd) by (apply Z.mul_le_mono_nonneg_r; lia).
          assert ((q2 + h2) * wd = wd * q2 + h2 * wd) by ring.
          lia. }
      destruct Ho' as (o' & Eo' & Ho'1 & Ho'2 & Ho'3).
      rewrite Eo'. rewrite (wrap_small o') by range.
      eexists. split; [reflexivity |].
      constructor; code;
        [base_done | lia | split; [lia | apply Z.mod_divide; [lia | exact Ho'1]] | lia].
    + eexists. split; [reflexivity |].
      constructor; code; [base_done | lia | split; assumption | lia].
Qed.

Lemma cursorGoto_ok (e : Event) (w : window) :
  nav_ok w -> exists w', cursorGoto e w = Ok w' /\ nav_ok w'.
Proof.
  intros H. unfold cursorGoto.
  destruct (Range_ e) as [r |]; [| eexists; split; [reflexivity | exact H]].
  destruct (To r) as [pos |]; [apply cursorGotoPos_ok; exact H |].
  destruct (From r) as [pos |]; [apply cursorGotoPos_ok; exact H |].
  eexists. split; [reflexivity | exact H].
Qed.

Lemma Forall_removelast {A : Type} (P : A -> Prop) (s : list A) :
  Forall P s -> Forall P (removelast s).
Proof.
  induction 1 as [| x s Hx Hs IH]; simpl; [constructor |].
  destruct s; [constructor |]. constructor; assumption.
Qed.

Lemma jumpBack_ok (w : window) :
  nav_ok w -> exists w', jumpBack w = Ok w' /\ nav_ok w'.
Proof.
  intros H. unfold jumpBack.
  destruct (rev (stack w)) as [| p s] eqn:Hrev;
    [eexists; split; [reflexivity | exact H] |].
  eexists. split; [reflexivity |].
  assert (Hp : position_ok w p).
  { destruct H as [[_ _ _ _ _ Hst] _ _ _].
    rewrite Forall_forall in Hst. apply Hst.
    apply in_rev. rewrite Hrev. left. reflexivity. }
  destruct Hp as (Hp1 & Hp2 & Hp3 & Hp4).
  open_window w H.
  constructor; code.
  - constructor; code; cbv beta iota in *; try assumption; try lia.
    apply Forall_removelast. exact Hst.
  - destruct ex; lia.
  - split; assumption.
  - assumption.
Qed.

(** The byte at index [k] of a window of bytes read. *)
Lemma nth_window_bytes (b : Buffer.t) (start size : Z) (k : nat) :
  0 <= start -> (k < Z.to_nat size)%nat ->
  nth k (window_bytes b start size) 0 = nth (Z.to_nat start + k) b 0.
Proof.
  intros Hs Hk. unfold window_bytes.
  set (got := firstn (Z.to_nat size) (skipn (Z.to_nat start) b)).
  assert (Hlen : List.length got
                 = Nat.min (Z.to_nat size) (List.length b - Z.to_nat start))
    by (unfold got; rewrite length_firstn, length_skipn; reflexivity).
  destruct (Nat.lt_ge_cases k (List.length got)) as [Hlt | Hge].
  - rewrite app_nth1 by exact Hlt. unfold got.
    rewrite nth_firstn.
    destruct (Nat.ltb_spec k (Z.to_nat size)); [| lia].
    rewrite nth_skipn. reflexivity.
  - rewrite app_nth2 by exact Hge. rewrite nth_repeat.
    symmetry. apply nth_overflow. lia.
Qed.

(** [jumpTo] reads no digit at or beyond the end of the content: with the
    cursor there it finds no reference. *)
Lemma jumpTo_in_content (w : window) (i j : nat) :
  0 <= cursor w <= Int64.max_int ->
  findDigits (window_bytes (buffer w) (Z.max (cursor w - 50) 0) 100) = Some (i, j) ->
  cursor w < Buffer.Len (buffer w).
Proof.
  intros Hc Hf. apply findDigits_spec in Hf.
  destruct Hf as (k & Hk & _ & Hik & _ & Hd & _).
  specialize (Hd k Hik).
  rewrite nth_window_bytes in Hd by lia.
  destruct (Z_lt_le_dec (cursor w) (Buffer.Len (buffer w))) as [Hlt | Hge];
    [exact Hlt |].
  rewrite nth_overflow in Hd; [discriminate Hd |].
  unfold Buffer.Len in Hge. lia.
Qed.

Lemma third_height (ht wd : Z) :
  0 < ht -> 0 < wd ->
  0 <= ht / 3 /\ 0 <= ht / 3 * wd /\ ht / 3 * wd + wd <= ht * wd.
Proof.
  intros Hh Hw.
  pose proof (div_facts ht 3 ltac:(lia)) as (E & R & P).
  assert (ht / 3 + 1 <= ht) by lia.
  split; [lia |]. nia.
Qed.

Lemma jumpTo_ok (w : window) :
  nav_ok w -> exists w', jumpTo w = Ok w' /\ nav_ok w'.
Proof.
  intros H. unfold jumpTo.
  assert (Hc : 0 <= cursor w <= Int64.max_int).
  { destruct H as [[_ _ _ Hl Hs _] Hc _ _]. pose proof (Len_nonneg (buffer w)).
    big_consts. destruct (extending w); lia. }
  assert (Es : MaxInt64 (cursor w - Z.of_nat jump_s)%i64 0 = Z.max (cursor w - 50) 0).
  { unfold MaxInt64, Int64.sub. change (Z.of_nat jump_s) with 50.
    rewrite wrap_small by (i64_consts; lia). reflexivity. }
  rewrite Es.
  destruct (readBytes_window w (Z.max (cursor w - 50) 0) (Z.of_nat (2 * jump_s)))
    as (n & Hr); [lia | lia |].
  rewrite Hr. cbv beta iota delta [bind].
  change (Z.of_nat (2 * jump_s)) with 100.
  destruct (findDigits _) as [[i j] |] eqn:Hf;
    [| eexists; split; [reflexivity | exact H]].
  pose proof (jumpTo_in_content w i j Hc Hf) as Hin.
  set (v := ParseInt _).
  destruct ((v <=? 0) || (length w <=? v)) eqn:Hv;
    [eexists; split; [reflexivity | exact H] |].
  apply orb_false_elim in Hv. destruct Hv as [Hv1 Hv2].
  apply Z.leb_gt in Hv1. apply Z.leb_gt in Hv2. clearbody v.
  open_window w H.
  pose proof (third_height ht wd ltac:(lia) ltac:(lia)) as (G1 & G2 & G3).
  code. run_code.
  rewrite (Z.rem_mod_nonneg v wd) by lia.
  rewrite (Z.quot_div_nonneg ht 3) by lia.
  set (h3 := ht / 3) in *. clearbody h3.
  unfold Int64.add, Int64.sub, Int64.mul, Int64.neg, MinInt64, MaxInt64 in *.
  name_div v wd qv rv.
  rewrite (wrap_small h3) by range.
  rewrite (Z.max_l h3 0) by lia.
  rewrite (wrap_small (h3 * wd)) by range.
  rewrite (wrap_small (v - rv)) by range.
  rewrite (wrap_small (v - rv - h3 * wd)) by range.
  eexists. split; [reflexivity |].
  constructor; code.
  - constructor; code; cbv beta iota in *; try assumption; try lia.
    apply Forall_app. split; [exact Hst |].
    constructor; [| constructor].
    unfold position_ok. cbn [p_cursor p_offset]. code. big_consts.
    repeat split; try assumption; lia.
  - lia.
  - split; [lia |]. apply Z.mod_divide; [lia |].
    replace (v - rv) with (wd * qv) by lia.
    destruct (Z.max_spec (wd * qv - h3 * wd) 0) as [[? ->] | [? ->]]; divides.
  - lia.
Qed.

(** The checkpoint writes the history and [prevChanged] only. *)
Lemma checkpoint_nav_ok (e : Event) (w0 w : window) :
  nav_ok w -> nav_ok (checkpoint e w0 w).
Proof.
  intros H. unfold checkpoint, push.
  repeat match goal with
         | |- context [if ?c then _ else _] => destruct c
         end;
    open_window w H;
    (constructor; code; [base_done | lia | split; assumption | lia]).
Qed.

(** Every navigation command with a count of at most [2^31] returns, and
    keeps the invariant. *)
Lemma handle_nav_ok (e : Event) (w : window) :
  nav_event e -> nav_ok w ->
  exists w', handle e w = Ok (Some w') /\ nav_ok w'.
Proof.
  intros [Hn Hcount] H.
  assert (Hsome : forall r : result window,
             (exists w', r = Ok w' /\ nav_ok w') ->
             exists w', (w1 <- r ;; Ok (Some w1)) = Ok (Some w') /\ nav_ok w').
  { intros r (w' & -> & Hok). exists w'. split; [reflexivity | exact Hok]. }
  unfold handle.
  destruct (Type_ e); try discriminate Hn; apply Hsome.
  - apply cursorUp_ok; assumption.
  - apply cursorDown_ok; assumption.
  - apply cursorLeft_ok; assumption.
  - apply cursorRight_ok; assumption.
  - apply cursorPrev_ok; assumption.
  - apply cursorNext_ok; assumption.
  - apply cursorHead_ok; assumption.
  - apply cursorEnd_ok; assumption.
  - apply cursorGoto_ok; assumption.
  - apply scrollUp_ok; assumption.
  - apply scrollDown_ok; assumption.
  - apply pageUp_ok; assumption.
  - apply pageDown_ok; assumption.
  - apply pageUpHalf_ok; assumption.
  - apply pageDownHalf_ok; assumption.
  - apply pageTop_ok; assumption.
  - apply pageEnd_ok; assumption.
  - apply jumpTo_ok; assumption.
  - apply jumpBack_ok; assumption.
Qed.

Lemma nav_ok_view (w : window) : nav_ok w -> view_ok w.
Proof.
  intros [_ Hc [_ Hom] Hv]. unfold view_ok.
  split; [exact Hc |]. split; [exact Hom |]. intros _. exact Hv.
Qed.

(** X10: from a window in the state [nav_ok], a run of navigation commands
    (the nineteen from [CursorUp] to [JumpBack], in any mode) whose counts
    are at most [2^31] never panics and ends in a window in the state
    [nav_ok].  The state is, of the cursor and the viewport:
    [0 <= cursor < max(length,1)], [offset] a non-negative multiple of
    [width], and [offset <= cursor < offset + height*width]; and, of what
    the commands read: [0 < width < 2^31] and [0 < height < 2^31]; a content
    shorter than [2^61] bytes; [length] the length of the content, plus one
    while the virtual trailing slot is open; a page jump
    [int64(float64(height) * 0.95)] between 0 and [height]; and every
    position saved on the jump stack a cursor within the content, in the
    viewport saved with it, which starts on a row.  The last is needed:
    [jumpBack] restores what was saved as it is. *)
Theorem navigation_keeps_view (es : list Event) (w : window) :
  nav_ok w -> Forall nav_event es ->
  exists w', run es w = Ok w' /\ nav_ok w' /\ view_ok w'.
Proof.
  intros H Hes. revert w H.
  induction Hes as [| e es He Hes IH]; intros w H.
  - exists w. split; [reflexivity |]. split; [exact H | apply nav_ok_view; exact H].
  - destruct (handle_nav_ok e w He H) as (w1 & Hh & H1).
    destruct (IH (checkpoint e w w1) (checkpoint_nav_ok e w w1 H1)) as (w' & Hr & Hok).
    exists w'. split; [| exact Hok].
    simpl. unfold run_step. rewrite Hh. simpl. exact Hr.
Qed.

Lemma navigation_keeps_view_witness :
  exists w',
    run [Examples.event PageDown 0 Normal; Examples.event CursorEnd 3 Normal;
         Examples.event CursorNext 5 Insert; Examples.event ScrollUp 1 Normal]
        Examples.ten = Ok w' /\
    nav_ok w' /\ view_ok w'.
Proof.
  apply (navigation_keeps_view _ Examples.ten).
  - unfold Examples.ten, Examples.make.
    constructor; code.
    + constructor; code.
      * lia.
      * lia.
      * vm_compute. split; discriminate.
      * vm_compute. reflexivity.
      * reflexivity.
      * constructor.
    + vm_compute. split; [discriminate | reflexivity].
    + split; [lia | reflexivity].
    + lia.
  - repeat constructor; cbn [Count Examples.event]; lia.
Defined.

(** ** Resizing *)

(** X11: [setSize] takes the new sizes and puts the viewport on a row of the
    new width with the cursor in it: from a window whose cursor is in the
    content and not above the viewport, the result has an offset that is a
    non-negative multiple of the new width and shows the cursor, which does
    not move. *)
Theorem setSize_shows_cursor (width' height' : Z) (w : window) :
  0 < width' < 2 ^ 31 -> 0 < height' < 2 ^ 31 ->
  0 <= length w <= 2 ^ 61 ->
  0 <= cursor w < Z.max (length w) 1 ->
  0 <= offset w <= cursor w ->
  exists o',
    setSize width' height' w
    = Ok (set_offset o' (set_height height' (set_width width' w))) /\
    0 <= o' /\ o' mod width' = 0 /\
    o' <= cursor w < o' + height' * width'.
Proof.
  intros Hw Hh Hl Hc Ho.
  destruct w as [b t pc h ht wd o c l st ap rb ex pe pb vs ft].
  cbn [buffer changedTick prevChanged history height width offset cursor
       length stack append replaceByte extending pending pendingByte
       visualStart focusText] in *.
  big_consts.
  assert (Hhw : width' <= height' * width'
                /\ height' * width' < 4611686018427387904) by nia.
  unfold setSize, scrollDownToCursor. code. run_code.
  unfold Int64.add, Int64.sub, Int64.mul, Int64.neg, MinInt64, MaxInt64 in *.
  name_div o width' q0 r0. rewrite (wrap_small q0) by range.
  assert (E0 : q0 * width' = width' * q0) by ring. rewrite E0.
  rewrite (wrap_small (width' * q0)) by range.
  code.
  rewrite (wrap_small (height' * width')) by range.
  rewrite (wrap_small (width' * q0 + height' * width')) by range.
  destruct (Z.leb_spec (width' * q0 + height' * width') c) as [Hscroll | Hstay].
  - run_code.
    rewrite (wrap_small (c - height' * width')) by range.
    rewrite (wrap_small (c - height' * width' + width')) by range.
    name_div (c - height' * width' + width') width' q1 r1.
    rewrite (wrap_small q1) by range.
    assert (E1 : q1 * width' = width' * q1) by ring. rewrite E1.
    rewrite (wrap_small (width' * q1)) by range.
    code. run_code. code.
    rewrite (wrap_small (l - 1)) by range.
    rewrite (wrap_small (height' * width')) by range.
    rewrite (wrap_small (l - 1 - height' * width')) by range.
    rewrite (wrap_small (l - 1 - height' * width' + width')) by range.
    destruct (Z.max_spec (l - 1 - height' * width' + width') 0) as [[Hm ->] | [Hm ->]].
    + rewrite Z.quot_0_l by lia. rewrite (wrap_small 0) by range.
      rewrite Z.mul_0_l. rewrite (wrap_small 0) by range.
      eexists. split; [reflexivity |].
      split; [lia |]. split; [| lia].
      apply Z.mod_divide; [lia |].
      destruct (Z.min_spec (width' * q1) 0) as [[? ->] | [? ->]];
        [apply Z.divide_factor_l | apply Z.divide_0_r].
    + name_div (l - 1 - height' * width' + width') width' qm rm.
      rewrite (wrap_small qm) by range.
      assert (Em : qm * width' = width' * qm) by ring. rewrite Em.
      rewrite (wrap_small (width' * qm)) by range.
      eexists. split; [reflexivity |].
      split; [lia |]. split; [| lia].
      apply Z.mod_divide; [lia |].
      destruct (Z.min_spec (width' * q1) (width' * qm)) as [[? ->] | [? ->]];
        apply Z.divide_factor_l.
  - run_code. code. run_code. code.
    rewrite (wrap_small (l - 1)) by range.
    rewrite (wrap_small (height' * width')) by range.
    rewrite (wrap_small (l - 1 - height' * width')) by range.
    rewrite (wrap_small (l - 1 - height' * width' + width')) by range.
    destruct (Z.max_spec (l - 1 - height' * width' + width') 0) as [[Hm ->] | [Hm ->]].
    + rewrite Z.quot_0_l by lia. rewrite (wrap_small 0) by range.
      rewrite Z.mul_0_l. rewrite (wrap_small 0) by range.
      eexists. split; [reflexivity |].
      split; [lia |]. split; [| lia].
      apply Z.mod_divide; [lia |].
      destruct (Z.min_spec (width' * q0) 0) as [[? ->] | [? ->]];
        [apply Z.divide_factor_l | apply Z.divide_0_r].
    + name_div (l - 1 - height' * width' + width') width' qm rm.
      rewrite (wrap_small qm) by range.
      assert (Em : qm * width' = width' * qm) by ring. rewrite Em.
      rewrite (wrap_small (width' * qm)) by range.
      eexists. split; [reflexivity |].
      split; [lia |]. split; [| lia].
      apply Z.mod_divide; [lia |].
      destruct (Z.min_spec (width' * q0) (width' * qm)) as [[? ->] | [? ->]];
        apply Z.divide_factor_l.
Qed.

Lemma setSize_shows_cursor_witness :
  exists o',
    setSize 3 2 (set_cursor 9 Examples.ten)
    = Ok (set_offset o' (set_height 2 (set_width 3 (set_cursor 9 Examples.ten)))) /\
    0 <= o' /\ o' mod 3 = 0 /\ o' <= 9 < o' + 2 * 3.
Proof.
  apply (setSize_shows_cursor 3 2 (set_cursor 9 Examples.ten));
    cbn; unfold Buffer.Len; cbn; lia.
Defined.

(** ** The snapshot *)

Lemma length_window_bytes (b : Buffer.t) (start size : Z) :
  List.length (window_bytes b start size) = Z.to_nat size.
Proof.
  unfold window_bytes. rewrite length_app, repeat_length, length_firstn. lia.
Qed.

(** X12: between navigation commands the snapshot of [state] is there, and
    it holds [height * width] bytes: the content from [offset] on, then
    zeros, [Size] of them read from the content.  The cursor is at one of
    these bytes, and the byte shown there is the byte of the content at the
    cursor. *)
Theorem state_shows_cursor (w : window) :
  nav_ok w ->
  exists s,
    state w = Ok (Some s) /\
    Offset s = offset w /\ Cursor s = cursor w /\
    Z.of_nat (List.length (Bytes s)) = height w * width w /\
    Size s = Z.min (height w * width w)
                   (Z.max (Buffer.Len (buffer w) - offset w) 0) /\
    (forall k, 0 <= k < height w * width w ->
               nth (Z.to_nat k) (Bytes s) 0 = byteAt (buffer w) (offset w + k)) /\
    nth (Z.to_nat (cursor w - offset w)) (Bytes s) 0
    = byteAt (buffer w) (cursor w).
Proof.
  intros H.
  assert (Hin : forall k, 0 <= k < height w * width w ->
            nth (Z.to_nat k)
                (window_bytes (buffer w) (offset w) (height w * width w)) 0
            = byteAt (buffer w) (offset w + k)).
  { intros k Hk. destruct H as [_ _ [Ho _] _].
    rewrite nth_window_bytes by lia. unfold byteAt. f_equal. lia. }
  assert (Hcur : 0 <= cursor w - offset w < height w * width w)
    by (destruct H as [_ _ _ Hv]; lia).
  pose proof (Hin _ Hcur) as Hbyte.
  replace (offset w + (cursor w - offset w)) with (cursor w) in Hbyte by lia.
  revert Hin Hbyte.
  open_window w H. intros Hin Hbyte.
  unfold state, readBytes, Buffer.ReadAt. code.
  unfold Int64.mul. rewrite (wrap_small (ht * wd)) by range.
  destruct (Z.ltb_spec (ht * wd) 0); [lia |].
  destruct (Z.ltb_spec o 0); [lia |].
  cbv beta iota zeta delta [bind].
  eexists. split; [reflexivity |].
  cbn [Offset Cursor Bytes Size].
  change (firstn (Z.to_nat (ht * wd)) (skipn (Z.to_nat o) b) ++
          repeat 0 (Z.to_nat (ht * wd)
                    - List.length (firstn (Z.to_nat (ht * wd)) (skipn (Z.to_nat o) b))))
    with (window_bytes b o (ht * wd)).
  split; [reflexivity |]. split; [reflexivity |].
  split; [rewrite length_window_bytes; lia |].
  split; [| split; [exact Hin | exact Hbyte]].
  rewrite length_firstn, length_skipn. unfold Buffer.Len. lia.
Qed.

Lemma state_shows_cursor_witness :
  exists s,
    state (set_offset 4 (set_cursor 9 Examples.ten)) = Ok (Some s) /\
    Z.of_nat (List.length (Bytes s)) = 8 /\ Size s = 6 /\
    nth (Z.to_nat (9 - 4)) (Bytes s) 0 = 10.
Proof.
  destruct (state_shows_cursor (set_offset 4 (set_cursor 9 Examples.ten)))
    as (s & Hs & _ & _ & Hl & Hn & _ & Hc).
  - unfold Examples.ten, Examples.make.
    constructor; code.
    + constructor; code.
      * lia.
      * lia.
      * vm_compute. split; discriminate.
      * vm_compute. reflexivity.
      * reflexivity.
      * constructor.
    + vm_compute. split; [discriminate | reflexivity].
    + split; [lia | reflexivity].
    + lia.
  - exists s. split; [exact Hs |]. split; [exact Hl |]. split; [exact Hn | exact Hc].
Defined.

(** ** The extraction of a range *)

(** X13: [writeTo] with a range whose two ends resolve writes the bytes of
    the content from the lower end to the higher, both included, whichever of
    the two is [From], and reports their number; with an end that does not
    resolve it fails; with no range it writes the whole content. *)
Theorem writeTo_between (w : window) (p q : option Position) :
  writeTo (Some (mkRange p q)) w = writeTo (Some (mkRange q p)) w /\
  (endOffset w p = None \/ endOffset w q = None ->
   writeTo (Some (mkRange p q)) w = None) /\
  (forall a b,
      endOffset w p = Some a -> endOffset w q = Some b ->
      0 <= a -> 0 <= b -> Z.max a b < Int64.max_int ->
      let out :=
        firstn (Z.to_nat (Z.abs (a - b) + 1))
               (skipn (Z.to_nat (Z.min a b)) (buffer w)) in
      writeTo (Some (mkRange p q)) w = Some (Z.of_nat (List.length out), out)) /\
  writeTo None w = Some (Buffer.Len (buffer w), buffer w).
Proof.
  unfold writeTo. cbn [From To].
  split; [| split; [| split]].
  - destruct (endOffset w p) as [a |], (endOffset w q) as [b |]; try reflexivity.
    destruct (Z.ltb_spec b a), (Z.ltb_spec a b); try reflexivity; try lia.
    replace b with a by lia. reflexivity.
  - intros [-> | ->]; [reflexivity |].
    destruct (endOffset w p); reflexivity.
  - intros a b -> -> Ha Hb Hm.
    destruct (Z.ltb_spec b a).
    + unfold copyFrom. destruct (Z.ltb_spec b 0); [lia |].
      unfold Int64.add, Int64.sub.
      rewrite (wrap_small (a - b)) by (i64_consts; lia).
      rewrite (wrap_small (a - b + 1)) by (i64_consts; lia).
      replace (Z.min a b) with b by lia.
      replace (Z.abs (a - b) + 1) with (a - b + 1) by lia. reflexivity.
    + unfold copyFrom. destruct (Z.ltb_spec a 0); [lia |].
      unfold Int64.add, Int64.sub.
      rewrite (wrap_small (b - a)) by (i64_consts; lia).
      rewrite (wrap_small (b - a + 1)) by (i64_consts; lia).
      replace (Z.min a b) with a by lia.
      replace (Z.abs (a - b) + 1) with (b - a + 1) by lia. reflexivity.
  - unfold copyFrom. reflexivity.
Qed.

(** ** The edges of the content and of a row *)

(** X14: with no virtual slot open, a cursor command at its edge does
    nothing, whatever the count: [cursorUp] on the first row, [cursorDown] on
    the last row, [cursorLeft] at the start of a row, and [cursorRight] in
    Normal mode at the end of a row or on the last byte. *)
Theorem cursor_edges (count : Z) (w : window) :
  nav_ok w -> extending w = false ->
  (cursor w < width w -> cursorUp count w = Ok w) /\
  (cursor w / width w = (Z.max (length w) 1 - 1) / width w ->
   cursorDown count w = Ok w) /\
  (cursor w mod width w = 0 -> cursorLeft count w = Ok w) /\
  (cursor w mod width w = width w - 1 \/ cursor w = Z.max (length w) 1 - 1 ->
   cursorRight Normal count w = Ok w).
Proof.
  intros H Hex. open_window w H. subst ex.
  assert (Hk : 1 <= Z.max count 1) by lia.
  set (k := Z.max count 1) in *.
  split; [| split; [| split]].
  - intros Hedge. unfold cursorUp, scrollUpToCursor. code. run_code.
    unfold Int64.add, Int64.sub, Int64.mul, Int64.neg, MinInt64, MaxInt64 in *.
    fold k.
    rewrite (Z.quot_div_nonneg c wd) by lia.
    rewrite (Z.div_small c wd) by lia.
    rewrite (wrap_small 0) by range.
    rewrite (Z.min_r k 0) by lia.
    rewrite Z.mul_0_l, (wrap_small 0) by range.
    rewrite Z.sub_0_r, (wrap_small c) by range.
    code.
    destruct (Z.ltb_spec c o); [lia |].
    cbv beta iota delta [bind]. code.
    rewrite andb_false_r. reflexivity.
  - intros Hedge. unfold cursorDown, scrollDownToCursor. code. run_code.
    unfold Int64.add, Int64.sub, Int64.mul, Int64.neg, MinInt64, MaxInt64 in *.
    fold k.
    rewrite (wrap_small (Z.max l 1 - 1)) by range.
    rewrite (Z.quot_div_nonneg (Z.max l 1 - 1) wd) by lia.
    rewrite (Z.quot_div_nonneg c wd) by lia.
    rewrite <- Hedge.
    pose proof (div_facts c wd ltac:(lia)) as (E & R & P).
    rewrite (wrap_small (c / wd)) by range.
    rewrite Z.sub_diag, (wrap_small 0) by range.
    rewrite (Z.min_r k 0) by lia.
    rewrite Z.mul_0_l, (wrap_small 0) by range.
    rewrite (wrap_small (Z.max l 1 - 1 - c)) by range.
    rewrite (Z.min_l 0) by lia.
    rewrite Z.add_0_r, (wrap_small c) by range.
    code.
    rewrite (wrap_small (ht * wd)) by range.
    rewrite (wrap_small (o + ht * wd)) by range.
    destruct (Z.leb_spec (o + ht * wd) c); [lia | reflexivity].
  - intros Hcol. unfold cursorLeft. code. run_code.
    unfold Int64.add, Int64.sub, Int64.mul, Int64.neg, MinInt64, MaxInt64 in *.
    fold k.
    rewrite (Z.rem_mod_nonneg c wd) by lia. rewrite Hcol.
    rewrite (Z.min_r k 0) by lia.
    rewrite Z.sub_0_r, (wrap_small c) by range.
    rewrite andb_false_r. reflexivity.
  - intros Hend. unfold cursorRight. cbn [Mode_eqb]. code. run_code.
    unfold Int64.add, Int64.sub, Int64.mul, Int64.neg, MinInt64, MaxInt64 in *.
    fold k.
    rewrite (Z.rem_mod_nonneg c wd) by lia.
    pose proof (div_facts c wd ltac:(lia)) as (E & R & P).
    rewrite (wrap_small (wd - 1)) by range.
    rewrite (wrap_small (wd - 1 - c mod wd)) by range.
    rewrite (wrap_small (Z.max l 1 - 1)) by range.
    rewrite (wrap_small (Z.max l 1 - 1 - c)) by range.
    replace (Z.min (Z.min k (wd - 1 - c mod wd)) (Z.max l 1 - 1 - c)) with 0 by lia.
    rewrite Z.add_0_r, (wrap_small c) by range. reflexivity.
Qed.

Lemma cursor_edges_witness :
  cursorDown (2 ^ 62) (set_cursor 9 (set_offset 4 Examples.ten))
  = Ok (set_cursor 9 (set_offset 4 Examples.ten)) /\
  cursorRight Normal (2 ^ 62) (set_cursor 9 (set_offset 4 Examples.ten))
  = Ok (set_cursor 9 (set_offset 4 Examples.ten)).
Proof.
  assert (H : nav_ok (set_cursor 9 (set_offset 4 Examples.ten))).
  { unfold Examples.ten, Examples.make.
    constructor; code.
    + constructor; code.
      * lia.
      * lia.
      * vm_compute. split; discriminate.
      * vm_compute. reflexivity.
      * reflexivity.
      * constructor.
    + vm_compute. split; [discriminate | reflexivity].
    + split; [lia | reflexivity].
    + lia. }
  destruct (cursor_edges (2 ^ 62) (set_cursor 9 (set_offset 4 Examples.ten)) H
              eq_refl) as (_ & D & _ & R).
  split; [apply D; reflexivity | apply R; right; reflexivity].
Defined.

(** ** A search that finds the pattern *)

Lemma occurs_at_cons (x : Z) (s sep : list Z) (j : nat) :
  occurs_at (x :: s) sep (S j) <-> occurs_at s sep j.
Proof. unfold occurs_at. simpl. split; intros [H1 H2]; split; try lia; exact H2. Qed.

Lemma occurs_at_head (s sep : list Z) :
  occurs_at s sep 0 <-> HasPrefix s sep = true.
Proof.
  unfold occurs_at. simpl. split; [intros [_ H]; exact H | intros H; split; [lia | exact H]].
Qed.

(** [bytes.Index] yields the first occurrence. *)
Lemma Index_from_first (s sep : list Z) (i : Z) :
  has_match s sep ->
  exists k, Index_from s sep i = i + Z.of_nat k /\ first_at s sep k.
Proof.
  revert i. induction s as [| x s IH]; intros i Hm.
  - apply has_match_nil in Hm. exists O.
    change (Index_from [] sep i) with (if HasPrefix [] sep then i else -1).
    rewrite Hm.
    split; [lia |]. split; [apply occurs_at_head; exact Hm | intros j Hj; lia].
  - change (Index_from (x :: s) sep i)
      with (if HasPrefix (x :: s) sep then i else Index_from s sep (i + 1)).
    destruct (HasPrefix (x :: s) sep) eqn:Hp.
    + exists O. split; [lia |].
      split; [apply occurs_at_head; exact Hp | intros j Hj; lia].
    + apply has_match_cons in Hm. destruct Hm as [Hm | Hm]; [congruence |].
      destruct (IH (i + 1) Hm) as (k & Hk & Ho & Hmin).
      exists (S k). split; [lia |]. split; [apply occurs_at_cons; exact Ho |].
      intros [| j] Hj.
      * rewrite occurs_at_head. congruence.
      * rewrite occurs_at_cons. apply Hmin. lia.
Qed.

(** [bytes.LastIndex] yields the last occurrence. *)
Lemma LastIndex_from_last (s sep : list Z) (i : Z) :
  0 <= i -> has_match s sep ->
  exists k, LastIndex_from s sep i = i + Z.of_nat k /\ last_at s sep k.
Proof.
  revert i. induction s as [| x s IH]; intros i Hi Hm.
  - apply has_match_nil in Hm. exists O.
    change (LastIndex_from [] sep i) with (if HasPrefix [] sep then i else -1).
    rewrite Hm.
    split; [lia |]. split; [apply occurs_at_head; exact Hm |].
    intros j Hj [Hl _]. simpl in Hl. lia.
  - change (LastIndex_from (x :: s) sep i)
      with (let r := LastIndex_from s sep (i + 1) in
            if 0 <=? r then r
            else if HasPrefix (x :: s) sep then i else -1).
    cbv zeta.
    destruct (LastIndex_from_spec s sep (i + 1) ltac:(lia)) as (S1 & S2).
    destruct (has_match_dec s sep) as [Hs | Hs].
    + specialize (S1 Hs).
      destruct (Z.leb_spec 0 (LastIndex_from s sep (i + 1))); [| lia].
      destruct (IH (i + 1) ltac:(lia) Hs) as (k & Hk & Ho & Hmax).
      exists (S k). split; [lia |]. split; [apply occurs_at_cons; exact Ho |].
      intros [| j] Hj; [lia |].
      rewrite occurs_at_cons. apply Hmax. lia.
    + rewrite (S2 Hs).
      destruct (Z.leb_spec 0 (-1)); [lia |].
      apply has_match_cons in Hm. destruct Hm as [Hm | Hm]; [| contradiction].
      rewrite Hm. exists O. split; [lia |].
      split; [apply occurs_at_head; exact Hm |].
      intros [| j] Hj; [lia |].
      rewrite occurs_at_cons. intros Ho. apply Hs. exists j. exact Ho.
Qed.

(** X15: a search whose pattern occurs in the window it scans moves the
    cursor to an occurrence and writes, besides, only [offset]: forward to
    the first occurrence after the cursor, backward to the last occurrence
    that ends at or before the cursor. *)
Theorem search_hit (w : window) (str : list Z) :
  0 <= cursor w -> width w <> 0 ->
  Int64.in_range (height w * width w * 50) ->
  Z.of_nat (List.length str) * 500 <= Int64.max_int ->
  cursor w + scanSize w str < Int64.max_int ->
  (has_match (forwardWindow w str) str ->
   exists k o',
     first_at (forwardWindow w str) str k /\
     search str true w
     = Ok (set_offset o' (set_cursor (cursor w + 1 + Z.of_nat k) w))) /\
  (has_match (backwardWindow w str) str ->
   exists k o',
     last_at (backwardWindow w str) str k /\
     search str false w
     = Ok (set_offset o'
             (set_cursor (Z.max 0 (cursor w - scanSize w str) + Z.of_nat k) w))).
Proof.
  intros Hc Hw Hhw Hs Hm.
  destruct (searchSize_exact w str Hhw Hs) as (Hsz & Hz).
  assert (Hlen : forall start size k,
             occurs_at (window_bytes (buffer w) start size) str k ->
             Z.of_nat k <= size \/ size < 0).
  { intros start size k [Hk _]. rewrite length_window_bytes in Hk. lia. }
  split; intros Hhit.
  - destruct (Index_from_first _ _ 0 Hhit) as (k & Hk & Hf).
    exists k.
    pose proof (Hlen _ _ _ (proj1 Hf)) as Hkb.
    unfold search, searchForward. cbv zeta. rewrite Hsz.
    assert (Hb : (cursor w + 1)%i64 = cursor w + 1) by (unwrap; reflexivity).
    rewrite Hb.
    destruct (readBytes_window w (cursor w + 1) (scanSize w str)) as (n & Hr);
      [lia | lia |].
    rewrite Hr. cbv beta iota delta [bind].
    fold (forwardWindow w str). unfold Index. rewrite Hk.
    destruct (Z.leb_spec 0 (0 + Z.of_nat k)); [| lia].
    assert (Hcur : Int64.add (cursor w + 1)%Z (0 + Z.of_nat k)%Z = cursor w + 1 + Z.of_nat k)
      by (unfold Int64.add; rewrite wrap_small by (i64_consts; lia); f_equal; lia).
    rewrite Hcur.
    destruct (_ <=? _).
    + rewrite quo_ok by (destruct w; exact Hw).
      cbv beta iota delta [bind]. eexists. split; [exact Hf | reflexivity].
    + exists (offset w). split; [exact Hf |].
      destruct w; reflexivity.
  - destruct (LastIndex_from_last _ _ 0 ltac:(lia) Hhit) as (k & Hk & Hf).
    exists k.
    pose proof (Hlen _ _ _ (proj1 Hf)) as Hkb.
    unfold search, searchBackward. cbv zeta. rewrite Hsz.
    assert (Hb : (cursor w - scanSize w str)%i64 = cursor w - scanSize w str)
      by (unwrap; reflexivity).
    rewrite Hb. unfold MaxInt64, MinInt64.
    destruct (readBytes_window w (Z.max 0 (cursor w - scanSize w str))
                (Z.min (scanSize w str) (cursor w))) as (n & Hr); [lia | lia |].
    rewrite Hr. cbv beta iota delta [bind].
    fold (backwardWindow w str). unfold LastIndex. rewrite Hk.
    destruct (Z.leb_spec 0 (0 + Z.of_nat k)); [| lia].
    assert (Hcur : Int64.add (Z.max 0 (cursor w - scanSize w str))%Z (0 + Z.of_nat k)%Z
                   = Z.max 0 (cursor w - scanSize w str) + Z.of_nat k)
      by (unfold Int64.add; rewrite wrap_small by (i64_consts; lia); f_equal; lia).
    rewrite Hcur.
    match goal with
    | |- context [scrollUpToCursor ?x] =>
        destruct (scrollUpToCursor_offset x) as (o' & Ho');
        [destruct w; exact Hw | rewrite Ho']
    end.
    exists o'. split; [exact Hf | reflexivity].
Qed.

Lemma search_hit_witness :
  exists k o',
    first_at (forwardWindow Examples.ten [7; 8]) [7; 8] k /\
    search [7; 8] true Examples.ten
    = Ok (set_offset o' (set_cursor (0 + 1 + Z.of_nat k) Examples.ten)).
Proof.
  destruct (search_hit Examples.ten [7; 8]) as (F & _).
  - cbn. lia.
  - cbn. lia.
  - vm_compute. split; discriminate.
  - vm_compute. discriminate.
  - vm_compute. reflexivity.
  - apply F. exists 5%nat. split.
    + apply Nat.leb_le. vm_compute. reflexivity.
    + vm_compute. reflexivity.
Defined.

(** ** Undo and redo *)

(** X16: with a checkpoint before the current one, [undo] of one step
    installs the content, the viewport and the cursor of that checkpoint and
    takes [length] from the content; [redo] of one step then installs the
    checkpoint undone, and the history is as it was.  At the oldest
    checkpoint [undo] does nothing, whatever the count. *)
Theorem undo_redo (w : window) (c : History.entry) (older : list History.entry)
        (count : Z) :
  History.past (history w) = c :: older ->
  match older with
  | [] => undo count w = w
  | p :: _ =>
      count <= 1 ->
      buffer (undo count w) = History.e_buffer p /\
      offset (undo count w) = History.e_offset p /\
      cursor (undo count w) = History.e_cursor p /\
      length (undo count w) = Buffer.Len (History.e_buffer p) /\
      redo count (undo count w) = restore c w
  end.
Proof.
  intros Hp. destruct older as [| p rest].
  - unfold undo.
    destruct (Z.to_nat (MaxInt64 count 1)) as [| n] eqn:Hn;
      [unfold MaxInt64 in Hn; lia |].
    simpl. unfold History.Undo. rewrite Hp. destruct w; reflexivity.
  - intros Hc. unfold undo, redo.
    replace (MaxInt64 count 1) with 1 by (unfold MaxInt64; lia).
    change (Z.to_nat 1) with 1%nat.
    destruct w as [b t pc h ht wd o cu l st ap rb ex pe pb vs ft].
    destruct h as [past future pushes]. simpl in Hp. subst past.
    repeat split; reflexivity.
Qed.

Lemma undo_redo_witness :
  exists w',
    run_step (Examples.event Increment 1 Normal) Examples.ten = Ok w' /\
    buffer w' = [2; 2; 3; 4; 5; 6; 7; 8; 9; 10] /\
    buffer (undo 1 w') = [1; 2; 3; 4; 5; 6; 7; 8; 9; 10] /\
    buffer (redo 1 (undo 1 w')) = [2; 2; 3; 4; 5; 6; 7; 8; 9; 10].
Proof.
  eexists. split; [vm_compute; reflexivity |]. split; [reflexivity |].
  match goal with
  | |- context [undo 1 ?x] =>
      pose proof (undo_redo x
                    (History.mkEntry [2; 2; 3; 4; 5; 6; 7; 8; 9; 10] 0 0)
                    [History.mkEntry [1; 2; 3; 4; 5; 6; 7; 8; 9; 10] 0 0]
                    1 eq_refl ltac:(lia)) as (Hb & _ & _ & _ & Hr)
  end.
  split; [exact Hb | rewrite Hr; reflexivity].
Defined.

(** ** A new window *)

(** X17: a new window that got its size is in the state [nav_ok] from which
    the navigation commands start: the cursor and the viewport are at 0, no
    selection is active, and the history holds the one checkpoint of the
    content as it was read. *)
Theorem newWindow_setSize (b : Buffer.t) (width' height' : Z) :
  0 < width' < 2 ^ 31 -> 0 < height' < 2 ^ 31 ->
  0 <= pageJump height' <= height' ->
  Buffer.Len b < 2 ^ 61 ->
  exists w,
    setSize width' height' (newWindow b) = Ok w /\ nav_ok w /\
    cursor w = 0 /\ offset w = 0 /\ visualStart w = -1 /\
    History.past (history w) = [History.mkEntry b 0 0].
Proof.
  intros Hw Hh Hj Hl. big_consts.
  pose proof (Len_nonneg b) as Hlen.
  assert (Hhw : width' <= height' * width'
                /\ height' * width' < 4611686018427387904) by nia.
  unfold setSize, newWindow, scrollDownToCursor. code. run_code.
  unfold Int64.add, Int64.sub, Int64.mul, Int64.neg, MinInt64, MaxInt64 in *.
  rewrite Z.quot_0_l by lia. rewrite (wrap_small 0) by range.
  rewrite Z.mul_0_l. rewrite (wrap_small 0) by range. code.
  rewrite (wrap_small (height' * width')) by range.
  rewrite (wrap_small (0 + height' * width')) by range.
  destruct (Z.leb_spec (0 + height' * width') 0); [lia |].
  cbv beta iota delta [bind]. code. run_code.
  rewrite (Z.min_l 0).
  - eexists. split; [reflexivity |]. code.
    split; [| repeat split; reflexivity].
    constructor; code.
    + constructor; code; try lia. constructor.
    + lia.
    + split; [lia | apply Z.mod_0_l; lia].
    + lia.
  - rewrite (wrap_small (Buffer.Len b - 1)) by range.
    rewrite (wrap_small (height' * width')) by range.
    rewrite (wrap_small (Buffer.Len b - 1 - height' * width')) by range.
    rewrite (wrap_small (Buffer.Len b - 1 - height' * width' + width')) by range.
    set (m := Z.max (Buffer.Len b - 1 - height' * width' + width') 0).
    assert (Hm : 0 <= m <= 2305843009213693952) by (subst m; lia).
    clearbody m.
    name_div m width' qm rm. rewrite (wrap_small qm) by range.
    assert (Em : qm * width' = width' * qm) by ring. rewrite Em.
    rewrite (wrap_small (width' * qm)) by range. lia.
Qed.

Lemma newWindow_setSize_witness :
  exists w,
    setSize 4 2 (newWindow [1; 2; 3; 4; 5; 6; 7; 8; 9; 10]) = Ok w /\ nav_ok w /\
    cursor w = 0 /\ offset w = 0 /\ visualStart w = -1 /\
    History.past (history w)
    = [History.mkEntry [1; 2; 3; 4; 5; 6; 7; 8; 9; 10] 0 0].
Proof.
  apply (newWindow_setSize [1; 2; 3; 4; 5; 6; 7; 8; 9; 10] 4 2).
  - lia.
  - lia.
  - vm_compute. split; discriminate.
  - vm_compute. reflexivity.
Defined.

(** ** The cursor after a deletion *)

(** X18: a deletion in Normal mode, with the cursor on a byte of the content
    and no virtual slot open, leaves the cursor on a byte of the content, or
    at 0 when none is left, and [length] is the length of the content still:
    this holds of [deleteByte] and of [deletePrevByte], for every count. *)
Theorem deletion_keeps_cursor (count : Z) (w : window) :
  0 < width w <= Int64.max_int ->
  0 <= cursor w < length w -> length w = Buffer.Len (buffer w) ->
  length w <= Int64.max_int ->
  (exists w',
      deleteByte count w = Ok w' /\
      0 <= cursor w' < Z.max (length w') 1 /\
      length w' = Buffer.Len (buffer w') /\ length w' < length w) /\
  (exists w',
      deletePrevByte count w = Ok w' /\
      0 <= cursor w' < Z.max (length w') 1 /\
      length w' = Buffer.Len (buffer w') /\ length w' <= length w).
Proof.
  intros Hw Hc Hl Hm.
  pose proof (Z.mod_pos_bound (cursor w) (width w) ltac:(lia)) as Hr.
  pose proof (Z.mod_le (cursor w) (width w) ltac:(lia) ltac:(lia)) as Hr'.
  split.
  - set (n := Z.min (Z.min (Z.max count 1) (width w - cursor w mod width w))
                    (length w - cursor w)).
    assert (Hn : 0 < n <= length w - cursor w) by (unfold n; lia).
    exists (deleted (Z.to_nat n) w). split.
    + unfold deleteByte.
      destruct (Z.eqb_spec (length w) 0); [lia |].
      rewrite rem_ok by lia. cbv beta iota zeta delta [bind].
      rewrite Z.rem_mod_nonneg by lia.
      unfold MinInt64, MaxInt64. unwrap. fold n.
      destruct (Z.to_nat n) as [| k] eqn:Hk; [lia |].
      f_equal. apply deleteByte_loop_cut; lia.
    + unfold deleted. cbv zeta. rewrite Z2Nat.id by lia.
      destruct w as [b t pc h ht wd o c l st ap rb ex pe pb vs ft]. fields.
      rewrite Len_cut by lia.
      destruct (Z.eqb_spec c (l - n)); destruct (Z.ltb_spec 0 c);
        cbn [andb]; lia.
  - set (n := Z.min (Z.max count 1) (cursor w mod width w)).
    assert (Hn : 0 <= n <= cursor w) by (unfold n; lia).
    exists (deletedPrev (Z.to_nat n) w). split.
    + unfold deletePrevByte.
      rewrite rem_ok by lia. cbv beta iota zeta delta [bind].
      rewrite Z.rem_mod_nonneg by lia.
      unfold MinInt64, MaxInt64. fold n.
      f_equal. apply deletePrevByte_loop_cut; i64_consts; lia.
    + unfold deletedPrev. cbv zeta. rewrite Z2Nat.id by lia.
      destruct w as [b t pc h ht wd o c l st ap rb ex pe pb vs ft]. fields.
      rewrite Len_cut by lia. lia.
Qed.

Lemma deletion_keeps_cursor_witness :
  (exists w',
      deleteByte 1 (set_cursor 9 Examples.ten) = Ok w' /\
      0 <= cursor w' < Z.max (length w') 1 /\
      length w' = Buffer.Len (buffer w') /\ length w' < 10) /\
  (exists w',
      deletePrevByte 1 (set_cursor 9 Examples.ten) = Ok w' /\
      0 <= cursor w' < Z.max (length w') 1 /\
      length w' = Buffer.Len (buffer w') /\ length w' <= 10).
Proof.
  apply (deletion_keeps_cursor 1 (set_cursor 9 Examples.ten));
    cbn; unfold Buffer.Len, Int64.max_int; cbn; lia.
Defined.

(** ** Insert at the start of a row, append at its end *)

(** X19: between navigation commands and with no virtual slot open,
    [startInsertHead] puts the cursor at the start of its row, and
    [startAppendEnd] one byte beyond the end of its row, or beyond the last
    byte of the content where the row ends there (on empty content the
    cursor stays at 0); [exitInsert] next brings the cursor to the start of
    the row, or to its last byte, and [length] to what it was. *)
Theorem insert_at_row_ends (w : window) :
  nav_ok w -> extending w = false ->
  let head := cursor w - cursor w mod width w in
  let last := Z.min (head + width w - 1) (Z.max (length w) 1 - 1) in
  (exists w1,
      startInsertHead w = Ok w1 /\ cursor w1 = head /\
      cursor (exitInsert w1) = head /\ length (exitInsert w1) = length w) /\
  (exists w1,
      startAppendEnd w = Ok w1 /\
      cursor w1 = (if 0 <? length w then last + 1 else last) /\
      cursor (exitInsert w1) = last /\ length (exitInsert w1) = length w).
Proof.
  intros H Hex head last. pose proof H as H0. open_window w H. subst ex.
  pose proof (div_facts c wd ltac:(lia)) as (E & R & P).
  split.
  - unfold startInsertHead, cursorHead. code. run_code.
    rewrite (Z.rem_mod_nonneg c wd) by lia.
    unfold Int64.sub. rewrite (wrap_small (c - c mod wd)) by range.
    code. fold head.
    assert (Hhead : 0 <= head <= c) by (subst head; lia).
    eexists. split; [reflexivity |].
    unfold openSlot, exitInsert. code.
    destruct (Z.eqb_spec head l) as [Heq | Hne]; code.
    + unfold Int64.add, Int64.sub.
      rewrite (wrap_small (l + 1)) by range. cbn [andb].
      destruct (Z.ltb_spec 0 (l + 1)); [| lia]. code.
      rewrite (wrap_small (l + 1 - 1)) by range.
      destruct (Z.ltb_spec 0 head); [lia |]. code.
      repeat split; lia.
    + repeat split; reflexivity.
  - unfold startAppendEnd, cursorEnd. code. run_code.
    unfold Int64.add, Int64.sub, Int64.mul, Int64.neg, MinInt64, MaxInt64 in *.
    rewrite (Z.quot_div_nonneg c wd) by lia.
    rewrite (wrap_small (c / wd)) by range.
    rewrite (Z.max_r 0 1) by lia.
    rewrite (wrap_small (c / wd + 1)) by range.
    assert (Eq : (c / wd + 1) * wd = head + wd) by (subst head; lia).
    rewrite Eq.
    rewrite (wrap_small (head + wd)) by (subst head; range).
    rewrite (wrap_small (head + wd - 1)) by (subst head; range).
    rewrite (wrap_small (Z.max l 1 - 1)) by range.
    fold last.
    assert (Hlast : c <= last < Z.max l 1) by (subst last head; lia).
    clearbody last. clear Eq. clearbody head.
    destruct (move_down_ok _ last H0 Hlast) as (w1 & Hr1 & Hok1).
    destruct (scrollDownToCursor_offset
                (set_cursor last
                   {| buffer := b; changedTick := t; prevChanged := pc;
                      history := h; height := ht; width := wd; offset := o;
                      cursor := c; length := l; stack := st; append := ap;
                      replaceByte := rb; extending := false; pending := pe;
                      pendingByte := pb; visualStart := vs; focusText := ft |}))
      as (o1 & Ho1); [code; lia |].
    match goal with
    | |- context [scrollDownToCursor ?x] =>
        change (scrollDownToCursor x) with
          (scrollDownToCursor
             (set_cursor last
                {| buffer := b; changedTick := t; prevChanged := pc;
                   history := h; height := ht; width := wd; offset := o;
                   cursor := c; length := l; stack := st; append := ap;
                   replaceByte := rb; extending := false; pending := pe;
                   pendingByte := pb; visualStart := vs; focusText := ft |}))
    end.
    rewrite Ho1. cbv beta iota delta [bind].
    unfold startAppend. code. unfold Int64.add, Int64.sub. setters.
    destruct (Z.ltb_spec 0 l) as [Hpos | Hzero].
    + setters. rewrite (wrap_small (last + 1)) by range.
      destruct (Z.eqb_spec (last + 1) l) as [Heq | Hne]; setters.
      * rewrite (wrap_small (l + 1)) by range.
        match goal with
        | |- context [scrollDownToCursor ?x] =>
            destruct (scrollDownToCursor_offset x) as (o2 & Ho2);
            [code; lia | rewrite Ho2]
        end.
        eexists. split; [reflexivity |].
        unfold exitInsert, Int64.sub, Int64.add. setters. cbn [andb].
        destruct (Z.ltb_spec 0 (l + 1)); [| lia]. code.
        destruct (Z.ltb_spec 0 (last + 1)); [| lia]. code.
        rewrite (wrap_small (l + 1 - 1)) by range.
        rewrite (wrap_small (last + 1 - 1)) by range.
        repeat split; lia.
      * match goal with
        | |- context [scrollDownToCursor ?x] =>
            destruct (scrollDownToCursor_offset x) as (o2 & Ho2);
            [code; lia | rewrite Ho2]
        end.
        eexists. split; [reflexivity |].
        unfold exitInsert, Int64.sub, Int64.add. setters. cbn [andb].
        destruct (Z.ltb_spec 0 (last + 1)); [| lia]. code.
        rewrite (wrap_small (last + 1 - 1)) by range.
        repeat split; lia.
    + assert (El : l = 0) by lia. assert (Ela : last = 0) by lia.
      rewrite Ela, El. cbn [Z.eqb]. setters.
      rewrite (wrap_small (0 + 1)) by range.
      match goal with
      | |- context [scrollDownToCursor ?x] =>
          destruct (scrollDownToCursor_offset x) as (o2 & Ho2);
          [code; lia | rewrite Ho2]
      end.
      eexists. split; [reflexivity |].
      unfold exitInsert, Int64.sub, Int64.add. setters. cbn [andb Z.ltb Z.compare Z.add]. setters.
      repeat split; reflexivity.
Qed.

Lemma insert_at_row_ends_witness :
  (exists w1,
      startInsertHead (set_cursor 5 Examples.ten) = Ok w1 /\ cursor w1 = 4 /\
      cursor (exitInsert w1) = 4 /\ length (exitInsert w1) = 10) /\
  (exists w1,
      startAppendEnd (set_cursor 5 Examples.ten) = Ok w1 /\ cursor w1 = 8 /\
      cursor (exitInsert w1) = 7 /\ length (exitInsert w1) = 10).
Proof.
  apply (insert_at_row_ends (set_cursor 5 Examples.ten)); [| reflexivity].
  unfold Examples.ten, Examples.make.
  constructor; code.
  + constructor; code.
    * lia.
    * lia.
    * vm_compute. split; discriminate.
    * vm_compute. reflexivity.
    * reflexivity.
    * constructor.
  + vm_compute. split; [discriminate | reflexivity].
  + split; [lia | reflexivity].
  + lia.
Defined.

(** ** A jump from the first fifty bytes *)

(** X20: with the cursor at one of the offsets 0 to 50, [jumpTo] reads the
    hundred bytes from offset 0 and scans them from index 50: the reference
    that it follows is the one at offset 50, wherever in that range the
    cursor is.  Two cursors there jump to the same place, or neither
    jumps. *)
Theorem jumpTo_before_50 (c c' : Z) (w : window) :
  0 <= c <= 50 -> 0 <= c' <= 50 ->
  match jumpTo (set_cursor c w), jumpTo (set_cursor c' w) with
  | Ok w1, Ok w2 =>
      (w1 = set_cursor c w /\ w2 = set_cursor c' w) \/
      (stack w1 = stack w ++ [mkPosition c (offset w)] /\
       stack w2 = stack w ++ [mkPosition c' (offset w)] /\
       cursor w2 = cursor w1 /\ offset w2 = offset w1)
  | Panic, Panic => True
  | _, _ => False
  end.
Proof.
  intros Hc Hc'.
  assert (Es : forall x, 0 <= x <= 50 ->
             MaxInt64 (cursor (set_cursor x w) - Z.of_nat jump_s)%i64 0 = 0).
  { intros x Hx. unfold MaxInt64, Int64.sub. change (Z.of_nat jump_s) with 50.
    destruct w; fields. rewrite wrap_small by (i64_consts; lia). lia. }
  unfold jumpTo. rewrite (Es c Hc), (Es c' Hc').
  assert (Er : forall x, readBytes (set_cursor x w) 0 (Z.of_nat (2 * jump_s))
                         = readBytes w 0 (Z.of_nat (2 * jump_s)))
    by (intros x; destruct w; reflexivity).
  rewrite !Er.
  destruct (readBytes w 0 (Z.of_nat (2 * jump_s))) as [[[n bytes] |] |];
    cbv beta iota delta [bind]; [| left; split; reflexivity | exact I].
  destruct (findDigits bytes) as [[i j] |]; [| left; split; reflexivity].
  set (v := ParseInt (slice bytes i j)).
  assert (El : forall x, length (set_cursor x w) = length w)
    by (intros x; destruct w; reflexivity).
  rewrite !El.
  destruct ((v <=? 0) || (length w <=? v)); [left; split; reflexivity |].
  assert (Ew : forall x s, width (set_cursor v (set_stack s (set_cursor x w))) = width w)
    by (intros x s; destruct w; reflexivity).
  rewrite !Ew.
  destruct (Int64.rem v (width w)) as [r |]; cbv beta iota delta [bind]; [| exact I].
  assert (Eh : forall x s, height (set_cursor v (set_stack s (set_cursor x w))) = height w)
    by (intros x s; destruct w; reflexivity).
  rewrite !Eh.
  destruct (Int64.quo (height w) 3) as [h3 |]; cbv beta iota delta [bind]; [| exact I].
  right. destruct w; repeat split; reflexivity.
Qed.

Lemma jumpTo_before_50_witness :
  exists w1 w2,
    jumpTo (set_cursor 0 Examples.ref173) = Ok w1 /\
    jumpTo (set_cursor 50 Examples.ref173) = Ok w2 /\
    cursor w1 = 173 /\ cursor w2 = cursor w1 /\ offset w2 = offset w1.
Proof.
  pose proof (jumpTo_before_50 0 50 Examples.ref173 ltac:(lia) ltac:(lia)) as H.
  eassert (E1 : jumpTo (set_cursor 0 Examples.ref173) = Ok _)
    by (vm_compute; reflexivity).
  eassert (E2 : jumpTo (set_cursor 50 Examples.ref173) = Ok _)
    by (vm_compute; reflexivity).
  rewrite E1, E2 in H.
  eexists. eexists. split; [exact E1 |]. split; [exact E2 |].
  split; [reflexivity |].
  destruct H as [[H1 _] | (_ & _ & Hcur & Ho)]; [| split; assumption].
  apply (f_equal cursor) in H1. discriminate H1.
Defined.

(** ** Checkpoints outside Normal mode *)

Lemma isExitInsert_iff (t : EventType) : isExitInsert t = true <-> t = ExitInsert.
Proof. destruct t; simpl; split; intros H; try reflexivity; discriminate H. Qed.

(** X21: outside Normal mode a command other than undo and redo pushes a
    checkpoint exactly when the command before it changed the content and it
    is itself [ExitInsert] or a navigation command; any other command
    pushes none and leaves the history as it is. *)
Theorem checkpoint_other_modes (e : Event) (w w' : window) :
  Mode_eqb (Mode_ e) Normal = false ->
  isUndoRedo (Type_ e) = false ->
  Int64.in_range (Count e) ->
  run_step e w = Ok w' ->
  (pushed w w' <->
   prevChanged w = true /\
   (Type_ e = ExitInsert \/ isNavigation (Type_ e) = true)) /\
  (~ pushed w w' -> history w' = history w).
Proof.
  intros Hm Hu Hcount H. unfold run_step in H.
  destruct (handle e w) as [[w1 |] |] eqn:Hh; simpl in H; try discriminate H.
  - injection H as <-.
    destruct (handle_edits e w w1 Hcount Hu Hh) as (Hhi & Hpc & _).
    assert (Htick : isExitInsert (Type_ e) = true \/ isNavigation (Type_ e) = true ->
                    changedTick w1 = changedTick w).
    { intros [Hx | Hn].
      - apply isExitInsert_iff in Hx. unfold handle in Hh. rewrite Hx in Hh.
        simpl in Hh. injection Hh as <-.
        destruct (exitInsert_edits 0 w w (edits_refl 0 w)) as (_ & _ & k & Hk & C & _).
        assert (k = O) by lia. subst k. exact C.
      - destruct (handle_navigation_edits e w w1 Hn Hh) as (_ & _ & k & Hk & C & _).
        assert (k = O) by lia. subst k. exact C. }
    unfold pushed, checkpoint, push. rewrite Hu, Hm, Hpc.
    cbn [negb andb orb].
    destruct (isExitInsert (Type_ e)) eqn:Hx; destruct (prevChanged w) eqn:Hp;
      cbn [negb andb orb].
    + apply isExitInsert_iff in Hx.
      split; [| intros Hn; exfalso; apply Hn; destruct w1; simpl in *; rewrite Hhi; reflexivity].
      split; [intros _; split; [reflexivity | left; exact Hx] |].
      intros _. destruct w1; simpl in *. rewrite Hhi. reflexivity.
    + split; [| intros _; destruct w1; simpl in *; exact Hhi].
      split; [| intros [Hf _]; discriminate Hf].
      destruct w1; simpl in *. rewrite Hhi. intros Hf. exfalso. lia.
    + destruct (isNavigation (Type_ e)) eqn:Hn.
      * rewrite (Htick (or_intror eq_refl)), Z.eqb_refl. cbn [negb andb].
        split; [| intros Hf; exfalso; apply Hf; destruct w1; simpl in *; rewrite Hhi; reflexivity].
        split; [intros _; split; [reflexivity | right; reflexivity] |].
        intros _. destruct w1; simpl in *. rewrite Hhi. reflexivity.
      * rewrite andb_false_r.
        split; [| intros _; destruct w1; simpl in *; exact Hhi].
        split.
        -- destruct w1; simpl in *. rewrite Hhi. intros Hf. exfalso. lia.
        -- intros [_ [Hf | Hf]]; [| discriminate Hf].
           apply isExitInsert_iff in Hf. congruence.
    + split; [| intros _; destruct w1; simpl in *; exact Hhi].
      split; [| intros [Hf _]; discriminate Hf].
      destruct w1; simpl in *. rewrite Hhi. intros Hf. exfalso. lia.
  - injection H as <-. unfold pushed.
    split; [| intros _; reflexivity].
    split; [intros Hf; exfalso; lia |].
    intros [_ [Hx | Hn]]; exfalso; unfold handle in Hh.
    + rewrite Hx in Hh. discriminate Hh.
    + destruct (Type_ e); try discriminate Hn;
        match type of Hh with
        | (w0 <- ?r ;; _) = _ => destruct r; discriminate Hh
        end.
Qed.

Lemma checkpoint_other_modes_witness :
  exists w1 w2,
    run_step {| Type_ := Rune; Range_ := None; Count := 0; Rune_ := 65;
                Arg := []; Mode_ := Insert |}
             (set_focusText true Examples.ten) = Ok w1 /\
    ~ pushed (set_focusText true Examples.ten) w1 /\
    run_step (Examples.event ExitInsert 0 Insert) w1 = Ok w2 /\
    pushed w1 w2.
Proof.
  eexists. eexists.
  split; [vm_compute; reflexivity |].
  split.
  - intros Hp.
    apply (checkpoint_other_modes
             {| Type_ := Rune; Range_ := None; Count := 0; Rune_ := 65;
                Arg := []; Mode_ := Insert |}
             (set_focusText true Examples.ten)) in Hp;
      [destruct Hp as [Hf _]; discriminate Hf | reflexivity | reflexivity
      | vm_compute; split; discriminate | vm_compute; reflexivity].
  - split; [vm_compute; reflexivity |].
    match goal with
    | |- pushed ?x ?y =>
        apply (checkpoint_other_modes (Examples.event ExitInsert 0 Insert) x y);
        [reflexivity | reflexivity | vm_compute; split; discriminate
        | vm_compute; reflexivity | split; [reflexivity | left; reflexivity]]
    end.
Defined.
